(** * Package emission (pkg/build/package.go): a shallow embedding

    The development follows the Go source top to bottom: the standard-library
    string and path helpers the file calls, [dedup], the two dependency
    generators, [GenerateDependencies], the control template, and
    [EmitPackage] over an explicit model of the temporary files and of the
    final output path.  What the file calls and does not define (the tree as
    [fs.WalkDir] presents it, [elf.Open], the digests, the archive writer, the
    signer, the failures of the operating system) is gathered in one record,
    [Env], over which every statement is universal.  Log lines are left
    out. *)

From Stdlib Require Import ZArith List Lia Ascii String DecimalString.
From Stdlib Require Import Strings.Byte.
From stdpp Require Import base list sorting gmap strings.

Local Open Scope Z_scope.

(** ** Go values *)

(** A Go [error] is modelled by its message; [fmt.Errorf("msg: %w", err)]
    prefixes the message of the wrapped error. *)
Definition error := string.

Definition wrap (msg : string) (e : error) : error := msg +:+ ": " +:+ e.

Inductive result (A : Type) : Type :=
| Ok (a : A)
| Err (e : error).
Arguments Ok {A} a.
Arguments Err {A} e.

Definition bytes := list byte.

(** ** Strings: the parts of package [strings] the file uses *)
Module strings.

(** [strings.HasPrefix s p]. *)
Fixpoint HasPrefix (s p : string) {struct p} : bool :=
  match p, s with
  | EmptyString, _ => true
  | String _ _, EmptyString => false
  | String a p', String b s' => if Ascii.eqb a b then HasPrefix s' p' else false
  end.

(** [strings.Index s sep]: offset of the first occurrence, [None] for -1. *)
Fixpoint Index (s sep : string) : option nat :=
  if HasPrefix s sep then Some 0%nat
  else match s with
       | EmptyString => None
       | String _ s' => S <$> Index s' sep
       end.

(** [strings.Contains s substr] is [Index(s, substr) >= 0]. *)
Definition Contains (s substr : string) : bool :=
  match Index s substr with Some _ => true | None => false end.

(** [s[n:]] *)
Fixpoint slice_from (n : nat) (s : string) : string :=
  match n, s with
  | O, _ => s
  | S _, EmptyString => EmptyString
  | S n', String _ s' => slice_from n' s'
  end.

(** [s[:n]] *)
Fixpoint slice_to (n : nat) (s : string) : string :=
  match n, s with
  | O, _ => EmptyString
  | S _, EmptyString => EmptyString
  | S n', String c s' => String c (slice_to n' s')
  end.

(** The loop of [genSplit] for a non-empty separator: cut at the first
    occurrence, continue after it, stop when [Index] finds nothing.  Go
    bounds the loop by [Count(s, sep)], the number of iterations after which
    [Index] fails; the bound here is the length of the input, which is never
    smaller. *)
Fixpoint genSplit (fuel : nat) (s sep : string) : list string :=
  match fuel with
  | O => [s]
  | S fuel' =>
      match Index s sep with
      | None => [s]
      | Some m =>
          slice_to m s :: genSplit fuel' (slice_from (m + String.length sep) s) sep
      end
  end.

(** [strings.Split s sep] for [sep] non-empty (the file only splits on
    [".so."]). *)
Definition Split (s sep : string) : list string :=
  genSplit (String.length s) s sep.

(** [strings.Cut s sep]: the text before and after the first occurrence. *)
Definition Cut (s sep : string) : option (string * string) :=
  match Index s sep with
  | None => None
  | Some m => Some (slice_to m s, slice_from (m + String.length sep) s)
  end.

End strings.

(** ** Paths: [filepath.Base] on a Unix host *)
Module filepath.

Definition is_sep (c : ascii) : bool := Ascii.eqb c "/"%char.

(** Strip trailing slashes. *)
Fixpoint strip_trailing (s : string) : string :=
  match s with
  | EmptyString => EmptyString
  | String c s' =>
      match strip_trailing s' with
      | EmptyString => if is_sep c then EmptyString else String c EmptyString
      | r => String c r
      end
  end.

(** The text after the last separator ([acc] is what follows the last
    separator seen so far). *)
Fixpoint last_element (acc s : string) : string :=
  match s with
  | EmptyString => acc
  | String c s' =>
      if is_sep c then last_element EmptyString s'
      else last_element (acc +:+ String c EmptyString) s'
  end.

(** [filepath.Base]: ["."] for the empty path, ["/"] for a path of slashes
    only, otherwise the last element with trailing slashes removed. *)
Definition Base (path : string) : string :=
  match path with
  | EmptyString => "."
  | _ =>
      match last_element EmptyString (strip_trailing path) with
      | EmptyString => "/"
      | b => b
      end
  end.

End filepath.

(** ** Formatting: the [%d] verb *)
Definition fmt_d (z : Z) : string := NilZero.string_of_int (Z.to_int z).

(** ** [sort.Strings] and [dedup] *)

(** Go compares strings byte-wise, as [String.compare] does. *)
Definition str_le (a b : string) : Prop := String.leb a b = true.
Definition str_lt (a b : string) : Prop := String.ltb a b = true.

#[global] Instance str_le_dec : RelDecision str_le :=
  fun a b => decide (String.leb a b = true).

(** [sort.Strings] puts the slice in increasing order; the order is total and
    antisymmetric, so the outcome does not depend on the algorithm. *)
Definition sort_Strings (l : list string) : list string := merge_sort str_le l.

(** The loop of [dedup]: [prev] starts as the empty string. *)
Fixpoint dedup_loop (prev : string) (in_ : list string) (out : list string)
  : list string :=
  match in_ with
  | [] => out
  | cur :: rest =>
      if String.eqb cur prev then dedup_loop prev rest out
      else dedup_loop cur rest (out ++ [cur])
  end.

Definition dedup (in_ : list string) : list string :=
  dedup_loop EmptyString (sort_Strings in_) [].


(** ** [encoding/hex] *)
Module hex.

Definition digit (n : N) : ascii :=
  match String.get (N.to_nat n) "0123456789abcdef" with
  | Some c => c
  | None => "0"%char
  end.

(** [hex.EncodeToString]: two lower-case digits per byte. *)
Fixpoint EncodeToString (src : bytes) : string :=
  match src with
  | [] => EmptyString
  | b :: rest =>
      let n := Byte.to_N b in
      String (digit (n / 16)%N) (String (digit (n mod 16)%N) (EncodeToString rest))
  end.

End hex.

(** ** The state-and-error monad of the embedding

    A Go function that mutates an object through a pointer and returns an
    [error] is a function from the object's state to an outcome and the new
    state; the state survives a failure, as it does in Go. *)
Definition M (S A : Type) : Type := S -> result A * S.

Definition ret {S A} (a : A) : M S A := fun s => (Ok a, s).

Definition fail {S A} (e : error) : M S A := fun s => (Err e, s).

Definition bind {S A B} (m : M S A) (k : A -> M S B) : M S B :=
  fun s =>
    match m s with
    | (Ok a, s') => k a s'
    | (Err e, s') => (Err e, s')
    end.

Declare Scope go_scope.
Delimit Scope go_scope with go.
Notation "'let*' x ':=' m 'in' k" := (bind m (fun x => k))
  (at level 10, x name, m at level 100, k at level 200) : go_scope.
Notation "m ';;;' k" := (bind m (fun _ => k))
  (at level 100, k at level 200, right associativity) : go_scope.

Definition get {S} : M S S := fun s => (Ok s, s).

Definition modify {S} (f : S -> S) : M S unit := fun s => (Ok tt, f s).

(** [if err != nil { return fmt.Errorf("msg: %w", err) }] *)
Definition wrap_err {S A} (msg : string) (m : M S A) : M S A :=
  fun s =>
    match m s with
    | (Ok a, s') => (Ok a, s')
    | (Err e, s') => (Err (wrap msg e), s')
    end.

(** [defer c]: [c] runs when the enclosing function returns, on every path. *)
Definition defer {S A} (c : S -> S) (body : M S A) : M S A :=
  fun s => let '(r, s') := body s in (r, c s').

(** Run a computation on a component of the state. *)
Definition zoom {S T A} (proj : S -> T) (upd : T -> S -> S) (m : M T A) : M S A :=
  fun s => let '(r, t') := m (proj s) in (r, upd t' s).

Definition failed {A} (r : result A) : bool :=
  match r with Ok _ => false | Err _ => true end.

(** ** Data model

    The structs are declared outside package.go; the records keep the fields
    package.go reads or writes. *)

(** Modelled from the spec: a license entry of the package identity (one
    [license] line each); the struct is declared outside package.go. *)
Record Copyright := { License : string }.

(** Modelled from the spec: the DependencySet, two collections of strings,
    [Runtime] and [Provides]; the struct is declared outside package.go. *)
Record Dependencies := { Runtime : list string; Provides : list string }.

(** Modelled from the spec: the PackageIdentity (name, version,
    release-epoch, description, license entries) with the dependencies
    declared ahead of time; the struct is declared outside package.go.  The
    epoch is a non-negative integer, printed with [%d]. *)
Record Package := {
  pkg_Name : string;
  pkg_Version : string;
  pkg_Epoch : N;
  pkg_Description : string;
  pkg_Copyright : list Copyright;
  pkg_Dependencies : Dependencies }.

(** Modelled from the spec: a subpackage, a name with its declared
    dependencies; the struct is declared outside package.go. *)
Record Subpackage := { sp_Name : string; sp_Dependencies : Dependencies }.

(** Modelled from the spec: what the build-configuration loader supplies
    (package identity, workspace and output directories, architecture token,
    signing-key path and passphrase, source-date value); the struct [Context]
    is declared outside package.go.  [ctx_Package] is
    [Configuration.Package]. *)
Record Context := {
  ctx_Package : Package;
  ctx_WorkspaceDir : string;
  ctx_OutDir : string;
  ctx_Arch : string;
  ctx_SigningKey : string;
  ctx_SigningPassphrase : string;
  ctx_SourceDateEpoch : Z }.

(** Modelled from the spec: the pipeline executor's context, of which
    [Emit] reads the build context only; declared outside package.go. *)
Record PipelineContext := { pl_Context : Context }.

(** [PackageContext], without its logger. *)
Record PackageContext := {
  pc_Context : Context;
  pc_Origin : Package;
  pc_PackageName : string;
  pc_InstalledSize : Z;
  pc_DataHash : string;
  pc_OutDir : string;
  pc_Dependencies : Dependencies }.

Definition set_InstalledSize (n : Z) (pc : PackageContext) : PackageContext :=
  {| pc_Context := pc_Context pc; pc_Origin := pc_Origin pc;
     pc_PackageName := pc_PackageName pc; pc_InstalledSize := n;
     pc_DataHash := pc_DataHash pc; pc_OutDir := pc_OutDir pc;
     pc_Dependencies := pc_Dependencies pc |}.

Definition set_DataHash (h : string) (pc : PackageContext) : PackageContext :=
  {| pc_Context := pc_Context pc; pc_Origin := pc_Origin pc;
     pc_PackageName := pc_PackageName pc; pc_InstalledSize := pc_InstalledSize pc;
     pc_DataHash := h; pc_OutDir := pc_OutDir pc;
     pc_Dependencies := pc_Dependencies pc |}.

Definition set_Dependencies (d : Dependencies) (pc : PackageContext) : PackageContext :=
  {| pc_Context := pc_Context pc; pc_Origin := pc_Origin pc;
     pc_PackageName := pc_PackageName pc; pc_InstalledSize := pc_InstalledSize pc;
     pc_DataHash := pc_DataHash pc; pc_OutDir := pc_OutDir pc;
     pc_Dependencies := d |}.

(** ** The file system as the walks see it *)

(** [fs.FileMode] is a [uint32]: nine permission bits and the type bits. *)
Module FileMode.
Definition ModeDir : Z := Z.shiftl 1 31.
Definition ModeSymlink : Z := Z.shiftl 1 27.
Definition ModeDevice : Z := Z.shiftl 1 26.
Definition ModeNamedPipe : Z := Z.shiftl 1 25.
Definition ModeSocket : Z := Z.shiftl 1 24.
Definition ModeCharDevice : Z := Z.shiftl 1 21.
Definition ModeIrregular : Z := Z.shiftl 1 19.
Definition ModeType : Z :=
  Z.lor ModeDir (Z.lor ModeSymlink (Z.lor ModeNamedPipe (Z.lor ModeSocket
    (Z.lor ModeDevice (Z.lor ModeCharDevice ModeIrregular))))).
(** 0777 *)
Definition ModePerm : Z := 511.
Definition IsRegular (m : Z) : bool := Z.land m ModeType =? 0.
Definition Perm (m : Z) : Z := Z.land m ModePerm.
End FileMode.

Record FileInfo := { fi_mode : Z; fi_size : Z }.

(** One call of the function handed to [fs.WalkDir]: the path, the error
    argument, and what [d.Info()] answers.  None of the three callbacks of the
    file returns [fs.SkipDir], so the calls [fs.WalkDir] makes are a prefix of
    a sequence fixed by the tree: it stops at the first call that returns an
    error. *)
Record Visit := { v_path : string; v_err : option error; v_info : result FileInfo }.

(** What [elf.Open] returned. *)
Record ElfFile := { ImportedLibraries : result (list string) }.

(** ** Archives *)

(** The options of [tarball.NewContext]. *)
Record TarContext := {
  tc_SourceDateEpoch : Z;
  tc_OverrideUIDGID : option (Z * Z);
  tc_OverrideUname : option string;
  tc_OverrideGname : option string;
  tc_UseChecksums : bool;
  tc_SkipClose : bool }.

(** The two kinds of [fs.FS] handed to the archive writer: the directory tree
    under a root, and a [memfs] holding (name, content, permission) files. *)
Inductive FS :=
| DirFS (root : string)
| MemFS (files : list (string * bytes * Z)).

(** ** Files *)

(** An open or closed file: its content, the offset of its handle, and whether
    the handle is open. *)
Record File := { f_name : string; f_data : bytes; f_pos : nat; f_open : bool }.

(** Temporary files are named by the system: a handle on one is its index in
    the list of temporary files, which [os.CreateTemp] extends.  Final paths
    end in [.apk] and temporary names in [.tar.gz], so the two kinds are kept
    apart. *)
Inductive FileRef :=
| TmpRef (i : nat)
| OutRef (path : string).

(** The files in the temporary directory, the files at final paths, and the
    directories that are known to be there, each under the path it was made
    with. *)
Record World := {
  w_tmp : list File;
  w_out : gmap string File;
  w_dirs : gset string }.

Inductive Syscall :=
| SysCreateTemp (pattern : string)
| SysSeek (r : FileRef)
| SysMkdirAll (path : string)
| SysCreate (path : string).

(** ** The environment: everything the file calls and does not define *)
Record Env := {
  (** [filepath.Join] *)
  filepath_Join : list string -> string;
  (** [types.Architecture.ToAPK] *)
  ToAPK : string -> string;
  (** the calls [fs.WalkDir] makes over the tree rooted at a directory *)
  WalkDir : string -> list Visit;
  (** [elf.Open] *)
  elf_Open : string -> result ElfFile;
  (** [sha256] and [sha1] of a byte string *)
  sha256_Sum : bytes -> bytes;
  sha1_Sum : bytes -> bytes;
  (** Modelled from the spec: [sign.RSASignSHA1Digest digest key passphrase],
      digest in, signature bytes out, or an error (internal/sign is outside
      package.go) *)
  RSASignSHA1Digest : bytes -> string -> string -> result bytes;
  (** an option rejected by [tarball.NewContext] *)
  tarball_option_err : TarContext -> option error;
  (** the chunks [tarball.WriteArchive] emits for a file system, and the
      error it ends with, if any *)
  tarball_archive : TarContext -> FS -> list bytes * option error;
  (** [memfs.WriteFile] refusing a path *)
  memfs_reject : string -> option error;
  (** a system call failing *)
  os_fault : Syscall -> option error;
  (** how many of the missing parents a failing [os.MkdirAll] had made *)
  os_mkdir_made : string -> nat;
  (** a write failing: how many bytes of it still reach the file, and the
      error *)
  os_write_fault : World -> FileRef -> bytes -> option (nat * error) }.

Local Open Scope go_scope.

(** ** Identity and paths of a package context *)

Definition Identity (pc : PackageContext) : string :=
  pc_PackageName pc +:+ "-" +:+ pkg_Version (pc_Origin pc) +:+ "-r"
    +:+ fmt_d (Z.of_N (pkg_Epoch (pc_Origin pc))).

Definition Filename (pc : PackageContext) : string :=
  pc_OutDir pc +:+ "/" +:+ Identity pc +:+ ".apk".

Definition WorkspaceSubdir (E : Env) (pc : PackageContext) : string :=
  filepath_Join E [ctx_WorkspaceDir (pc_Context pc); "melange-out"; pc_PackageName pc].

Definition SignatureName (pc : PackageContext) : string :=
  ".SIGN.RSA." +:+ filepath.Base (ctx_SigningKey (pc_Context pc)) +:+ ".pub".

(** ** The control template *)

Definition nl : string := String "010"%char EmptyString.

Definition license_lines (cs : list Copyright) : string :=
  String.concat EmptyString (map (fun c => nl +:+ "license = " +:+ License c) cs).

Definition depend_lines (ds : list string) : string :=
  String.concat EmptyString (map (fun d => nl +:+ "depend = " +:+ d) ds).

Definition provides_lines (ds : list string) : string :=
  String.concat EmptyString (map (fun d => nl +:+ "provides = " +:+ d) ds).

(** [controlTemplate] executed on a package context.  Each [{{-] removes the
    line break before it, so every [range] body contributes a line break
    followed by its line. *)
Definition controlTemplate (pc : PackageContext) : string :=
  nl +:+ "# Generated by melange." +:+ nl
  +:+ "pkgname = " +:+ pc_PackageName pc +:+ nl
  +:+ "pkgver = " +:+ pkg_Version (pc_Origin pc) +:+ "-r"
      +:+ fmt_d (Z.of_N (pkg_Epoch (pc_Origin pc))) +:+ nl
  +:+ "arch = x86_64" +:+ nl
  +:+ "size = " +:+ fmt_d (pc_InstalledSize pc) +:+ nl
  +:+ "pkgdesc = " +:+ pkg_Description (pc_Origin pc)
  +:+ license_lines (pkg_Copyright (pc_Origin pc))
  +:+ depend_lines (Runtime (pc_Dependencies pc))
  +:+ provides_lines (Provides (pc_Dependencies pc))
  +:+ nl +:+ "datahash = " +:+ pc_DataHash pc +:+ nl.

(** [GenerateControlData] writes the rendering to a buffer, which does not
    fail; the template refers to existing fields only. *)
Definition GenerateControlData (pc : PackageContext) : result bytes :=
  Ok (String.list_byte_of_string (controlTemplate pc)).

(** ** Walking the tree *)

(** [fs.WalkDir fsys "." fn]: call [fn] on each visit, stop at the first
    error. *)
Fixpoint walk {S} (fn : Visit -> M S unit) (visits : list Visit) : M S unit :=
  match visits with
  | [] => ret tt
  | v :: rest => fn v ;;; walk fn rest
  end.

(** [mode.Perm() & 0555 == 0555] *)
Definition exec_by_all (mode : Z) : bool :=
  Z.land (FileMode.Perm mode) 365 =? 365.

Definition add_Provides (x : string) (d : Dependencies) : Dependencies :=
  {| Runtime := Runtime d; Provides := Provides d ++ [x] |}.

Definition add_Runtime (xs : list string) (d : Dependencies) : Dependencies :=
  {| Runtime := Runtime d ++ xs; Provides := Provides d |}.

(** ** The dependency generators *)

(** The callback of [generateCmdProviders]. *)
Definition cmd_visit (pc : PackageContext) (v : Visit) : M Dependencies unit :=
  match v_err v with
  | Some e => fail e
  | None =>
      match v_info v with
      | Err e => fail e
      | Ok fi =>
          let mode := fi_mode fi in
          if negb (FileMode.IsRegular mode) then ret tt
          else if exec_by_all mode then
            if strings.Contains (v_path v) "bin" then
              let basename := filepath.Base (v_path v) in
              modify (add_Provides
                ("cmd:" +:+ basename +:+ "=" +:+ pkg_Version (pc_Origin pc) +:+ "-r"
                   +:+ fmt_d (Z.of_N (pkg_Epoch (pc_Origin pc)))))
            else ret tt
          else ret tt
      end
  end.

Definition generateCmdProviders (E : Env) (pc : PackageContext) : M Dependencies unit :=
  walk (cmd_visit pc) (WalkDir E (WorkspaceSubdir E pc)).

(** The version part of a shared-object provide. *)
Definition libver_of (basename : string) : string :=
  let parts := strings.Split basename ".so." in
  if (1 <? length parts)%nat then nth 1 parts EmptyString else "0".

(** The ELF part of the shared-object callback: any failure of [elf.Open] or
    of [ImportedLibraries] ends the callback without an error. *)
Definition so_imports (E : Env) (pc : PackageContext) (path : string)
  : M Dependencies unit :=
  match elf_Open E (filepath_Join E [WorkspaceSubdir E pc; path]) with
  | Err _ => ret tt
  | Ok ef =>
      match ImportedLibraries ef with
      | Err _ => ret tt
      | Ok libs => modify (add_Runtime (map (fun lib => "so:" +:+ lib) libs))
      end
  end.

(** The callback of [generateSharedObjectNameDeps]. *)
Definition so_visit (E : Env) (pc : PackageContext) (v : Visit) : M Dependencies unit :=
  match v_err v with
  | Some e => fail e
  | None =>
      match v_info v with
      | Err e => fail e
      | Ok fi =>
          let mode := fi_mode fi in
          if negb (FileMode.IsRegular mode) then ret tt
          else if exec_by_all mode then
            let basename := filepath.Base (v_path v) in
            (if strings.Contains basename ".so." then
               modify (add_Provides ("so:" +:+ basename +:+ "=" +:+ libver_of basename))
             else ret tt) ;;;
            so_imports E pc (v_path v)
          else ret tt
      end
  end.

Definition generateSharedObjectNameDeps (E : Env) (pc : PackageContext)
  : M Dependencies unit :=
  walk (so_visit E pc) (WalkDir E (WorkspaceSubdir E pc)).

(** The loop over the generators: the first error ends it. *)
Fixpoint run_generators (gens : list (PackageContext -> M Dependencies unit))
  (pc : PackageContext) : M Dependencies unit :=
  match gens with
  | [] => ret tt
  | gen :: rest => gen pc ;;; run_generators rest pc
  end.

(** [GenerateDependencies]: on an error of a generator the context is left as
    it was; otherwise both collections are replaced by the merged ones.  The
    slices are modelled by their values: the two slices stored at the end are
    the new ones [dedup] makes.  [dedup] also sorts its argument in place, and
    [append] returns its first argument when nothing was generated or its
    array has room, so the array behind the declared slices, which the
    [Package] or [Subpackage] the context was built from still holds, may be
    reordered; that array is not part of this model, which follows the context
    alone. *)
Definition GenerateDependencies (E : Env) : M PackageContext unit :=
  fun pc =>
    let generated := {| Runtime := []; Provides := [] |} in
    let generators := [generateSharedObjectNameDeps E; generateCmdProviders E] in
    match run_generators generators pc generated with
    | (Err e, _) => (Err e, pc)
    | (Ok _, generated) =>
        let newruntime := Runtime (pc_Dependencies pc) ++ Runtime generated in
        let newprovides := Provides (pc_Dependencies pc) ++ Provides generated in
        (Ok tt, set_Dependencies
                  {| Runtime := dedup newruntime; Provides := dedup newprovides |} pc)
    end.

(** ** The sizing walk of [EmitPackage] *)

(** [int64] addition wraps around. *)
Definition wrap64 (z : Z) : Z := (z + 2 ^ 63) mod 2 ^ 64 - 2 ^ 63.

Definition sizing_visit (v : Visit) : M PackageContext unit :=
  match v_err v with
  | Some e => fail e
  | None =>
      match v_info v with
      | Err e => fail e
      | Ok fi =>
          modify (fun pc => set_InstalledSize (wrap64 (pc_InstalledSize pc + fi_size fi)) pc)
      end
  end.

Definition sizing (E : Env) : M PackageContext unit :=
  fun pc => walk sizing_visit (WalkDir E (WorkspaceSubdir E pc)) pc.

(** ** Operations on files *)

Definition get_file (w : World) (r : FileRef) : option File :=
  match r with
  | TmpRef i => w_tmp w !! i
  | OutRef p => w_out w !! p
  end.

Definition put_file (r : FileRef) (f : File) (w : World) : World :=
  match r with
  | TmpRef i => {| w_tmp := <[i:=f]> (w_tmp w); w_out := w_out w; w_dirs := w_dirs w |}
  | OutRef p => {| w_tmp := w_tmp w; w_out := <[p:=f]> (w_out w); w_dirs := w_dirs w |}
  end.

(** Writing [p] at offset [pos] of a file holding [data]. *)
Definition write_at (pos : nat) (p data : bytes) : bytes :=
  take pos data ++ replicate (pos - length data) x00 ++ p ++ drop (pos + length p) data.

Definition written (f : File) (p : bytes) : File :=
  {| f_name := f_name f; f_data := write_at (f_pos f) p (f_data f);
     f_pos := f_pos f + length p; f_open := f_open f |}.

Definition rewound (f : File) : File :=
  {| f_name := f_name f; f_data := f_data f; f_pos := 0; f_open := f_open f |}.

Definition at_end (f : File) : File :=
  {| f_name := f_name f; f_data := f_data f;
     f_pos := f_pos f `max` length (f_data f); f_open := f_open f |}.

Definition closed (f : File) : File :=
  {| f_name := f_name f; f_data := f_data f; f_pos := f_pos f; f_open := false |}.

Definition fresh_file (name : string) : File :=
  {| f_name := name; f_data := []; f_pos := 0; f_open := true |}.

(** [os.CreateTemp] with an empty directory argument: a new, empty, open file in the temporary
    directory.  The file is named by its pattern: the random text that takes
    the place of the star plays no part. *)
Definition os_CreateTemp (E : Env) (pattern : string) : M World FileRef :=
  fun w =>
    match os_fault E (SysCreateTemp pattern) with
    | Some e => (Err e, w)
    | None =>
        (Ok (TmpRef (length (w_tmp w))),
         {| w_tmp := w_tmp w ++ [fresh_file pattern]; w_out := w_out w;
            w_dirs := w_dirs w |})
    end.

(** The [*PathError] of an operation on a closed file. *)
Definition closed_error (op name : string) : error :=
  op +:+ " " +:+ name +:+ ": file already closed".

(** The name of the file behind a handle. *)
Definition ref_name (w : World) (r : FileRef) : string :=
  match get_file w r with
  | Some f => f_name f
  | None => EmptyString
  end.

(** [f.Close()], as deferred: its error is dropped.  The file stays where it
    is. *)
Definition File_Close (r : FileRef) (w : World) : World :=
  match get_file w r with
  | Some f => put_file r (closed f) w
  | None => w
  end.

(** [f.Seek(0, io.SeekStart)] *)
Definition File_Seek_start (E : Env) (r : FileRef) : M World unit :=
  fun w =>
    match os_fault E (SysSeek r) with
    | Some e => (Err e, w)
    | None =>
        match get_file w r with
        | Some f =>
            if f_open f then (Ok tt, put_file r (rewound f) w)
            else (Err (closed_error "seek" (f_name f)), w)
        | None => (Err "invalid argument", w)
        end
    end.

(** [f.Write(p)]: the number of bytes written and the error. *)
Definition File_Write (E : Env) (r : FileRef) (p : bytes) (w : World)
  : (nat * option error) * World :=
  match get_file w r with
  | Some f =>
      if f_open f then
        match os_write_fault E w r p with
        | None => ((length p, None), put_file r (written f p) w)
        | Some (n, e) =>
            ((length (take n p), Some e), put_file r (written f (take n p)) w)
        end
      else ((0%nat, Some (closed_error "write" (f_name f))), w)
  | None => ((0%nat, Some "invalid argument"), w)
  end.

(** [io.Writer] *)
Record Writer (S : Type) := { Write : bytes -> S -> (nat * option error) * S }.
Arguments Write {S} _ _ _.

Definition file_Writer (E : Env) (r : FileRef) : Writer World :=
  {| Write := File_Write E r |}.

(** A running digest absorbs every write; its state is what it has absorbed. *)
Definition hash_Writer : Writer bytes :=
  {| Write := fun p h => ((length p, None), h ++ p) |}.

(** [io.MultiWriter w1 w2]: each write goes to [w1], then to [w2]; an error
    or a short write of either ends it. *)
Definition io_MultiWriter {S1 S2} (w1 : Writer S1) (w2 : Writer S2) : Writer (S1 * S2) :=
  {| Write := fun p s =>
       match Write w1 p (fst s) with
       | ((n, Some e), s1) => ((n, Some e), (s1, snd s))
       | ((n, None), s1) =>
           if negb (n =? length p)%nat then ((n, Some "short write"), (s1, snd s))
           else
             match Write w2 p (snd s) with
             | ((n, Some e), s2) => ((n, Some e), (s1, s2))
             | ((n, None), s2) =>
                 if negb (n =? length p)%nat then ((n, Some "short write"), (s1, s2))
                 else ((length p, None), (s1, s2))
             end
       end |}.

Fixpoint write_all {S} (dst : Writer S) (chunks : list bytes) (s : S) : option error * S :=
  match chunks with
  | [] => (None, s)
  | c :: rest =>
      match Write dst c s with
      | ((_, Some e), s') => (Some e, s')
      | ((_, None), s') => write_all dst rest s'
      end
  end.

(** [tarball.NewContext opts...] *)
Definition tarball_NewContext {S} (E : Env) (opts : TarContext) : M S TarContext :=
  match tarball_option_err E opts with
  | Some e => fail e
  | None => ret opts
  end.

(** [ctx.WriteArchive dst src]: the archive of [src] is written to [dst]
    chunk by chunk; a failed write, or a failure of the writer itself, is
    returned. *)
Definition WriteArchive {S} (E : Env) (ctx : TarContext) (dst : Writer S) (src : FS)
  : M S unit :=
  fun s =>
    match write_all dst (fst (tarball_archive E ctx src)) s with
    | (Some e, s') => (Err e, s')
    | (None, s') =>
        match snd (tarball_archive E ctx src) with
        | Some e => (Err e, s')
        | None => (Ok tt, s')
        end
    end.

(** [WriteArchive] into [io.MultiWriter(digest, file)] for a new digest; the
    value is what the digest has absorbed. *)
Definition WriteArchive_hashed (E : Env) (ctx : TarContext) (file : FileRef) (src : FS)
  : M World bytes :=
  fun w =>
    match WriteArchive E ctx (io_MultiWriter hash_Writer (file_Writer E file)) src ([], w) with
    | (Ok _, hw) => (Ok (fst hw), snd hw)
    | (Err e, hw) => (Err e, snd hw)
    end.

(** [memfs.New()] followed by one [WriteFile]. *)
Definition memfs_WriteFile {S} (E : Env) (path : string) (data : bytes) (perm : Z) : M S FS :=
  match memfs_reject E path with
  | Some e => fail e
  | None => ret (MemFS [(path, data, perm)])
  end.

(** [io.Copy dst src] between files: what [src] holds from its offset on goes
    to [dst].  The copy is [dst.ReadFrom(src)], which reports its errors as
    errors of writing [dst].  A fault while reading [src] is not modelled. *)
Definition io_Copy (E : Env) (dst src : FileRef) : M World unit :=
  fun w =>
    match get_file w src with
    | Some f =>
        if f_open f then
          match drop (f_pos f) (f_data f) with
          | [] => (Ok tt, w)
          | p =>
              match File_Write E dst p (put_file src (at_end f) w) with
              | ((_, Some e), w') => (Err e, w')
              | ((_, None), w') => (Ok tt, w')
              end
          end
        else (Err (closed_error "write" (ref_name w dst)), w)
    | None => (Err "invalid argument", w)
    end.

Fixpoint combine (E : Env) (out : FileRef) (inputs : list FileRef) : M World unit :=
  match inputs with
  | [] => ret tt
  | input :: rest => io_Copy E out input ;;; combine E out rest
  end.

(** The loops of [os.MkdirAll] scan the path from its end. *)
Fixpoint skip_while (f : ascii -> bool) (l : list ascii) : list ascii :=
  match l with
  | [] => []
  | c :: l' => if f c then skip_while f l' else l
  end.

(** The parent [os.MkdirAll] makes first: [path] up to the separator before
    its last element, trailing separators skipped; none when that is empty. *)
Definition MkdirAll_parent (path : string) : option string :=
  let r := rev (list_ascii_of_string path) in
  let r := skip_while filepath.is_sep r in
  let r := skip_while (fun c => negb (filepath.is_sep c)) r in
  match r with
  | _ :: (_ :: _) as parent => Some (string_of_list_ascii (rev parent))
  | _ => None
  end.

(** The directories [os.MkdirAll path] makes when they are missing, in the
    order it makes them: the parents, outermost first, then [path].  The
    recursion is on a shorter path each time. *)
Fixpoint MkdirAll_chain_from (fuel : nat) (path : string) : list string :=
  match fuel with
  | O => [path]
  | S fuel' =>
      match MkdirAll_parent path with
      | Some parent => MkdirAll_chain_from fuel' parent ++ [path]
      | None => [path]
      end
  end.

Definition MkdirAll_chain (path : string) : list string :=
  MkdirAll_chain_from (String.length path) path.

(** The world with the directories [dirs] made. *)
Definition add_dirs (dirs : list string) (w : World) : World :=
  {| w_tmp := w_tmp w; w_out := w_out w; w_dirs := list_to_set dirs ∪ w_dirs w |}.

(** [os.MkdirAll path 0755]: [path] and every missing parent; when it fails,
    [path] is not there, and the parents made before the failure stay. *)
Definition os_MkdirAll (E : Env) (path : string) : M World unit :=
  fun w =>
    match os_fault E (SysMkdirAll path) with
    | Some e =>
        (Err e, add_dirs (take (os_mkdir_made E path) (removelast (MkdirAll_chain path))) w)
    | None => (Ok tt, add_dirs (MkdirAll_chain path) w)
    end.

(** [os.Create path]: create or truncate. *)
Definition os_Create (E : Env) (path : string) : M World FileRef :=
  fun w =>
    match os_fault E (SysCreate path) with
    | Some e => (Err e, w)
    | None => (Ok (OutRef path), put_file (OutRef path) (fresh_file path) w)
    end.

(** ** [EmitPackage] *)

Record St := { st_pc : PackageContext; st_w : World }.

Definition onW {A} (m : M World A) : M St A :=
  zoom st_w (fun w s => {| st_pc := st_pc s; st_w := w |}) m.

Definition onPC {A} (m : M PackageContext A) : M St A :=
  zoom st_pc (fun pc s => {| st_pc := pc; st_w := st_w s |}) m.

Definition close (r : FileRef) (s : St) : St :=
  {| st_pc := st_pc s; st_w := File_Close r (st_w s) |}.

Definition of_result {S A} (r : result A) : M S A :=
  match r with Ok a => ret a | Err e => fail e end.

Definition data_options (pc : PackageContext) : TarContext :=
  {| tc_SourceDateEpoch := ctx_SourceDateEpoch (pc_Context pc);
     tc_OverrideUIDGID := Some (0, 0);
     tc_OverrideUname := Some "root"; tc_OverrideGname := Some "root";
     tc_UseChecksums := true; tc_SkipClose := false |}.

Definition control_options (pc : PackageContext) : TarContext :=
  {| tc_SourceDateEpoch := ctx_SourceDateEpoch (pc_Context pc);
     tc_OverrideUIDGID := Some (0, 0);
     tc_OverrideUname := Some "root"; tc_OverrideGname := Some "root";
     tc_UseChecksums := false; tc_SkipClose := true |}.

(** "build the final tarball": the end of [EmitPackage], reached with either
    list of parts. *)
Definition assemble (E : Env) (combinedParts : list FileRef) : M St unit :=
  let* pc := onPC get in
  wrap_err "unable to create output directory" (onW (os_MkdirAll E (pc_OutDir pc))) ;;;
  let* outFile := wrap_err "unable to create apk file" (onW (os_Create E (Filename pc))) in
  defer (close outFile)
    (wrap_err "unable to write apk file" (onW (combine E outFile combinedParts))).

(** 0644 *)
Definition perm_0644 : Z := 420.

Definition EmitPackage (E : Env) : M St unit :=
  let* dataTarGz :=
    wrap_err "unable to open temporary file for writing"
      (onW (os_CreateTemp E "melange-data-*.tar.gz")) in
  defer (close dataTarGz) (
  let* pc0 := onPC get in
  let* tarctx :=
    wrap_err "unable to build tarball context" (tarball_NewContext E (data_options pc0)) in
  let fsys := DirFS (WorkspaceSubdir E pc0) in
  wrap_err "unable to preprocess package data" (onPC (sizing E)) ;;;
  wrap_err "unable to build final dependencies set" (onPC (GenerateDependencies E)) ;;;
  let* dataDigest :=
    wrap_err "unable to write data tarball"
      (onW (WriteArchive_hashed E tarctx dataTarGz fsys)) in
  onPC (modify (set_DataHash (hex.EncodeToString (sha256_Sum E dataDigest)))) ;;;
  wrap_err "unable to rewind data tarball" (onW (File_Seek_start E dataTarGz)) ;;;
  let* pc := onPC get in
  let* multitarctx :=
    wrap_err "unable to build tarball context" (tarball_NewContext E (control_options pc)) in
  let* controlBuf :=
    wrap_err "unable to process control template" (of_result (GenerateControlData pc)) in
  let* controlFS :=
    wrap_err "unable to build control FS" (memfs_WriteFile E ".PKGINFO" controlBuf perm_0644) in
  let* controlTarGz :=
    wrap_err "unable to open temporary file for writing"
      (onW (os_CreateTemp E "melange-control-*.tar.gz")) in
  defer (close controlTarGz) (
  let* controlDigest :=
    wrap_err "unable to write control tarball"
      (onW (WriteArchive_hashed E multitarctx controlTarGz controlFS)) in
  wrap_err "unable to rewind control tarball" (onW (File_Seek_start E controlTarGz)) ;;;
  let combinedParts := [controlTarGz; dataTarGz] in
  if String.eqb (ctx_SigningKey (pc_Context pc)) EmptyString then assemble E combinedParts
  else
    let* signatureBuf :=
      wrap_err "unable to generate signature"
        (of_result (RSASignSHA1Digest E (sha1_Sum E controlDigest)
                      (ctx_SigningKey (pc_Context pc))
                      (ctx_SigningPassphrase (pc_Context pc)))) in
    let* signatureFS :=
      wrap_err "unable to build signature FS"
        (memfs_WriteFile E (SignatureName pc) signatureBuf perm_0644) in
    let* signatureTarGz :=
      wrap_err "unable to open temporary file for writing"
        (onW (os_CreateTemp E "melange-signature-*.tar.gz")) in
    defer (close signatureTarGz) (
    wrap_err "unable to write signature tarball"
      (onW (WriteArchive E multitarctx (file_Writer E signatureTarGz) signatureFS)) ;;;
    wrap_err "unable to rewind signature tarball" (onW (File_Seek_start E signatureTarGz)) ;;;
    assemble E (signatureTarGz :: combinedParts)))).

(** ** [Emit] *)

(** The package context [Subpackage.Emit] builds. *)
Definition Subpackage_context (E : Env) (spkg : Subpackage) (ctx : PipelineContext)
  : PackageContext :=
  {| pc_Context := pl_Context ctx;
     pc_Origin := ctx_Package (pl_Context ctx);
     pc_PackageName := sp_Name spkg;
     pc_InstalledSize := 0;
     pc_DataHash := EmptyString;
     pc_OutDir := filepath_Join E [ctx_OutDir (pl_Context ctx); ToAPK E (ctx_Arch (pl_Context ctx))];
     pc_Dependencies := sp_Dependencies spkg |}.

Definition Subpackage_Emit (E : Env) (spkg : Subpackage) (ctx : PipelineContext)
  : World -> result unit * St :=
  fun w => EmitPackage E {| st_pc := Subpackage_context E spkg ctx; st_w := w |}.

Definition Package_Emit (E : Env) (pkg : Package) (ctx : PipelineContext)
  : World -> result unit * St :=
  let fakesp := {| sp_Name := pkg_Name pkg; sp_Dependencies := pkg_Dependencies pkg |} in
  Subpackage_Emit E fakesp ctx.

(** ** Vocabulary of the statements *)

(** The error of the first visit that carries one: in the error argument of
    the callback, or from [d.Info()]. *)
Fixpoint first_walk_error (visits : list Visit) : option error :=
  match visits with
  | [] => None
  | v :: rest =>
      match v_err v, v_info v with
      | Some e, _ => Some e
      | None, Err e => Some e
      | None, Ok _ => first_walk_error rest
      end
  end.

(** The sizes of all the entries visited. *)
Fixpoint all_sizes (visits : list Visit) : Z :=
  match visits with
  | [] => 0
  | v :: rest =>
      match v_info v with
      | Ok fi => fi_size fi + all_sizes rest
      | Err _ => all_sizes rest
      end
  end.

(** The sizes of the regular files visited. *)
Fixpoint regular_sizes (visits : list Visit) : Z :=
  match visits with
  | [] => 0
  | v :: rest =>
      match v_info v with
      | Ok fi =>
          if FileMode.IsRegular (fi_mode fi) then fi_size fi + regular_sizes rest
          else regular_sizes rest
      | Err _ => regular_sizes rest
      end
  end.

Definition set_Context (c : Context) (pc : PackageContext) : PackageContext :=
  {| pc_Context := c; pc_Origin := pc_Origin pc;
     pc_PackageName := pc_PackageName pc; pc_InstalledSize := pc_InstalledSize pc;
     pc_DataHash := pc_DataHash pc; pc_OutDir := pc_OutDir pc;
     pc_Dependencies := pc_Dependencies pc |}.

(** The bytes of the three segments: what the archive writer emits for the
    built tree, for the rendered control record, and for a signature. *)
Definition data_segment (E : Env) (pc : PackageContext) : bytes :=
  concat (fst (tarball_archive E (data_options pc) (DirFS (WorkspaceSubdir E pc)))).

Definition control_segment (E : Env) (pc : PackageContext) : bytes :=
  concat (fst (tarball_archive E (control_options pc)
                 (MemFS [(".PKGINFO", String.list_byte_of_string (controlTemplate pc),
                          perm_0644)]))).

Definition signature_segment (E : Env) (pc : PackageContext) (sig : bytes) : bytes :=
  concat (fst (tarball_archive E (control_options pc)
                 (MemFS [(SignatureName pc, sig, perm_0644)]))).

(** The package context at the end of a successful emission: sized, with the
    merged dependencies and the digest of the data segment. *)
Definition emitted_context (E : Env) (pc : PackageContext) : PackageContext :=
  set_DataHash (hex.EncodeToString (sha256_Sum E (data_segment E pc)))
    (snd (GenerateDependencies E (snd (sizing E pc)))).

(** A temporary segment once the emission is over: read to its end, closed. *)
Definition spent (pattern : string) (data : bytes) : File :=
  {| f_name := pattern; f_data := data; f_pos := length data; f_open := false |}.

(** A file written at its end. *)
Definition appended (f : File) (p : bytes) : File :=
  {| f_name := f_name f; f_data := f_data f ++ p;
     f_pos := length (f_data f ++ p); f_open := f_open f |}.

(** The open flags of the temporary files, in order. *)
Definition flags (w : World) : list bool := f_open <$> w_tmp w.

(** A step that leaves the open flags of the temporary files and the final
    paths as they are, whatever its outcome. *)
Definition quiet {A} (m : M St A) : Prop :=
  forall s,
    flags (st_w (snd (m s))) = flags (st_w s) /\
    w_out (st_w (snd (m s))) = w_out (st_w s).

(** A computation after which the temporary files it has made are all still
    there and closed, and which, when it fails, has left the final paths alone
    unless the failure is that of writing the apk file. *)
Definition contained {A} (m : M St A) : Prop :=
  forall s,
    (exists k, flags (st_w (snd (m s))) = flags (st_w s) ++ replicate k false) /\
    (forall e, fst (m s) = Err e ->
       w_out (st_w (snd (m s))) = w_out (st_w s) \/
       strings.HasPrefix e "unable to write apk file: " = true).

(** A computation judged on all its outcomes: from a state where [Inv]
    holds, a success with value [a] ends in a state where [Good a] holds, a
    failure with error [e] in one where [Bad e] holds. *)
Definition judge {A} (Inv : St -> Prop) (Good : A -> St -> Prop)
    (Bad : error -> St -> Prop) (m : M St A) : Prop :=
  forall s, Inv s ->
    match m s with
    | (Ok a, s') => Good a s'
    | (Err e, s') => Bad e s'
    end.

(** The messages that [EmitPackage] puts in front of the errors it returns,
    in the order of the source. *)
Definition stage_messages : list string :=
  [ "unable to open temporary file for writing";
    "unable to build tarball context";
    "unable to preprocess package data";
    "unable to build final dependencies set";
    "unable to write data tarball";
    "unable to rewind data tarball";
    "unable to process control template";
    "unable to build control FS";
    "unable to write control tarball";
    "unable to rewind control tarball";
    "unable to generate signature";
    "unable to build signature FS";
    "unable to write signature tarball";
    "unable to rewind signature tarball";
    "unable to create output directory";
    "unable to create apk file";
    "unable to write apk file" ].

(** An error under one of these messages. *)
Definition staged (e : error) : Prop :=
  exists msg cause : string, msg ∈ stage_messages /\ e = wrap msg cause.

(** What names a package context: the package name, the output directory,
    and the version and epoch of the origin.  [Identity] and [Filename] are
    made of them, and no stage of the emission writes them. *)
Definition ident (pc : PackageContext) : string * string * string * N :=
  (pc_PackageName pc, pc_OutDir pc, pkg_Version (pc_Origin pc), pkg_Epoch (pc_Origin pc)).

(** Two worlds that differ at most in the temporary file of index [i]. *)
Definition tmp_only (i : nat) (w w' : World) : Prop :=
  w_out w' = w_out w /\ w_dirs w' = w_dirs w /\
  length (w_tmp w') = length (w_tmp w) /\
  forall j, j <> i -> w_tmp w' !! j = w_tmp w !! j.

(** The part of the world an emission for the context [pc0] may touch, seen
    from the world [w0] it starts in: the temporary files of [w0] are a prefix
    of the temporary files, the final paths other than the file name of [pc0]
    hold what they held, and the only directories that may have been added
    are the output directory of [pc0] and its parents. *)
Definition within (pc0 : PackageContext) (w0 : World) (s : St) : Prop :=
  ident (st_pc s) = ident pc0 /\
  take (length (w_tmp w0)) (w_tmp (st_w s)) = w_tmp w0 /\
  (forall q, q <> Filename pc0 -> w_out (st_w s) !! q = w_out w0 !! q) /\
  w_dirs (st_w s) ⊆ list_to_set (MkdirAll_chain (pc_OutDir pc0)) ∪ w_dirs w0.

(** A computation that keeps [Inv] on all its outcomes, and whose value
    satisfies [Fact] when it succeeds. *)
Definition preserves {A} (Inv : St -> Prop) (Fact : A -> Prop) (m : M St A) : Prop :=
  judge Inv (fun a s => Inv s /\ Fact a) (fun _ s => Inv s) m.

(** The state has the context [c0] and the final files and directories of [w0]. *)
Definition sealed (c0 : Context) (w0 : World) (s : St) : Prop :=
  pc_Context (st_pc s) = c0 /\ w_out (st_w s) = w_out w0 /\ w_dirs (st_w s) = w_dirs w0.

(** What a temporary file still holds from its offset on. *)
Definition unread (w : World) (i : nat) : bytes :=
  match w_tmp w !! i with
  | Some f => drop (f_pos f) (f_data f)
  | None => []
  end.

Definition with_WalkDir (visits : list Visit) (E : Env) : Env :=
  {| filepath_Join := filepath_Join E; ToAPK := ToAPK E;
     WalkDir := fun _ => visits; elf_Open := elf_Open E;
     sha256_Sum := sha256_Sum E; sha1_Sum := sha1_Sum E;
     RSASignSHA1Digest := RSASignSHA1Digest E;
     tarball_option_err := tarball_option_err E;
     tarball_archive := tarball_archive E;
     memfs_reject := memfs_reject E; os_fault := os_fault E;
     os_mkdir_made := os_mkdir_made E;
     os_write_fault := os_write_fault E |}.

(** The same environment with another signer. *)
Definition with_signer (sign : bytes -> string -> string -> result bytes) (E : Env) : Env :=
  {| filepath_Join := filepath_Join E; ToAPK := ToAPK E;
     WalkDir := WalkDir E; elf_Open := elf_Open E;
     sha256_Sum := sha256_Sum E; sha1_Sum := sha1_Sum E;
     RSASignSHA1Digest := sign;
     tarball_option_err := tarball_option_err E;
     tarball_archive := tarball_archive E;
     memfs_reject := memfs_reject E;
     os_fault := os_fault E; os_mkdir_made := os_mkdir_made E;
     os_write_fault := os_write_fault E |}.

(** ** A small build to run the definitions on *)
Module Demo.

(** 0755 *)
Definition rwxr_xr_x : Z := 493.

Definition dir_entry (path : string) : Visit :=
  {| v_path := path; v_err := None;
     v_info := Ok {| fi_mode := Z.lor FileMode.ModeDir rwxr_xr_x; fi_size := 4096 |} |}.

Definition exe_entry (path : string) (size : Z) : Visit :=
  {| v_path := path; v_err := None;
     v_info := Ok {| fi_mode := rwxr_xr_x; fi_size := size |} |}.

Definition tree : list Visit :=
  [ dir_entry "."; dir_entry "usr"; dir_entry "usr/bin";
    exe_entry "usr/bin/frobnicate" 100; exe_entry "usr/bin/run.sh" 20;
    dir_entry "usr/lib";
    exe_entry "usr/lib/libfoo.so" 7; exe_entry "usr/lib/libfoo.so.1.2" 50 ].

Definition bytes_of (s : string) : bytes := String.list_byte_of_string s.

(** A stand-in for the archive writer: one chunk per name and content. *)
Definition archive (ctx : TarContext) (src : FS) : list bytes * option error :=
  match src with
  | DirFS root => ([bytes_of "tar:"; bytes_of root], None)
  | MemFS files =>
      (flat_map (fun f => [bytes_of (fst (fst f)); snd (fst f)]) files, None)
  end.

(** A stand-in for a digest. *)
Definition digest (tag : byte) (b : bytes) : bytes := tag :: take 3 (rev b).

Definition elf (path : string) : result ElfFile :=
  if String.eqb path "/work/melange-out/frob/usr/bin/frobnicate" then
    Ok {| ImportedLibraries := Ok ["libc.so.6"; "libfoo.so.1"] |}
  else if String.eqb path "/work/melange-out/frob/usr/lib/libfoo.so.1.2" then
    Ok {| ImportedLibraries := Ok ["libc.so.6"] |}
  else Err "bad magic number".

(** The environment: [key_ok] says whether signing works, [out_room] bounds
    what a single write to a final path accepts. *)
Definition env (key_ok : bool) (out_room : option nat) : Env :=
  {| filepath_Join := String.concat "/";
     ToAPK := fun a =>
       if String.eqb a "amd64" then "x86_64"
       else if String.eqb a "arm64" then "aarch64" else a;
     WalkDir := fun _ => tree;
     elf_Open := elf;
     sha256_Sum := digest x02;
     sha1_Sum := digest x01;
     RSASignSHA1Digest := fun d key pass =>
       if key_ok then Ok (d ++ bytes_of key) else Err "unable to parse key";
     tarball_option_err := fun _ => None;
     tarball_archive := archive;
     memfs_reject := fun _ => None;
     os_fault := fun _ => None;
     os_mkdir_made := fun _ => 0%nat;
     os_write_fault := fun w r p =>
       match r, out_room with
       | OutRef _, Some n =>
           if (n <? length p)%nat then Some (n, "no space left on device") else None
       | _, _ => None
       end |}.

Definition package : Package :=
  {| pkg_Name := "frob"; pkg_Version := "1.0"; pkg_Epoch := 3;
     pkg_Description := "a frobnicator";
     pkg_Copyright := [{| License := "MIT" |}];
     pkg_Dependencies := {| Runtime := ["so:libc.so.6"]; Provides := [] |} |}.

Definition context (arch key : string) : PipelineContext :=
  {| pl_Context :=
       {| ctx_Package := package; ctx_WorkspaceDir := "/work"; ctx_OutDir := "/out";
          ctx_Arch := arch; ctx_SigningKey := key; ctx_SigningPassphrase := EmptyString;
          ctx_SourceDateEpoch := 0 |} |}.

Definition world : World := {| w_tmp := []; w_out := ∅; w_dirs := ∅ |}.

Definition pc (E : Env) (arch key : string) : PackageContext :=
  Subpackage_context E
    {| sp_Name := "frob"; sp_Dependencies := pkg_Dependencies package |}
    (context arch key).

(** The same tree when usr/bin cannot be read: [fs.WalkDir] calls the
    function on the directory, then once more with the error of reading it,
    and the function returns that error. *)
Definition broken_tree : list Visit :=
  [ dir_entry "."; dir_entry "usr"; dir_entry "usr/bin";
    {| v_path := "usr/bin"; v_err := Some "permission denied";
       v_info := v_info (dir_entry "usr/bin") |} ].

(** A tree with nothing executable in it: directories and a data file. *)
Definition plain_tree : list Visit :=
  [ dir_entry "."; dir_entry "share";
    {| v_path := "share/README"; v_err := None;
       v_info := Ok {| fi_mode := 420; fi_size := 12 |} |} ].

(** Two temporary files, the second read up to its first byte, and a new
    output file. *)
Definition parts_world : World :=
  {| w_tmp := [ {| f_name := "a"; f_data := [x01; x02]; f_pos := 0; f_open := true |};
                {| f_name := "b"; f_data := [x03; x04]; f_pos := 1; f_open := true |} ];
     w_out := {["/out/x.apk" := fresh_file "/out/x.apk"]};
     w_dirs := {["/out"]} |}.

Definition start (E : Env) (arch key : string) : St :=
  {| st_pc := pc E arch key; st_w := world |}.

End Demo.
(** * Properties *)

(** ** The order on strings *)

Lemma compare_refl (a : string) : String.compare a a = Eq.
Proof.
  induction a as [|c a IH]; simpl; [reflexivity|].
  unfold Ascii.compare. now rewrite N.compare_refl.
Qed.

Lemma compare_lt_trans (a b c : string) :
  String.compare a b = Lt -> String.compare b c = Lt -> String.compare a c = Lt.
Proof.
  revert b c. induction a as [|x a IH]; intros [|y b] [|z c]; simpl; try congruence.
  destruct (Ascii.compare x y) eqn:Hxy; try discriminate.
  - apply Ascii.compare_eq_iff in Hxy. subst y.
    destruct (Ascii.compare x z); try congruence. eauto.
  - intros _. destruct (Ascii.compare y z) eqn:Hyz; try discriminate.
    + apply Ascii.compare_eq_iff in Hyz. subst z. now rewrite Hxy.
    + intros _. unfold Ascii.compare in *.
      rewrite N.compare_lt_iff in *. 
      assert (H : (N_of_ascii x < N_of_ascii z)%N) by lia.
      apply N.compare_lt_iff in H. now rewrite H.
Qed.

Lemma str_le_lt_or_eq (a b : string) : str_le a b <-> str_lt a b \/ a = b.
Proof.
  unfold str_le, str_lt, String.leb, String.ltb. split.
  - destruct (String.compare a b) eqn:H; try discriminate; auto.
    right. now apply String.compare_eq_iff.
  - intros [H | ->]; [destruct (String.compare a b); congruence|].
    now rewrite compare_refl.
Qed.

Lemma str_lt_irrefl (a : string) : ~ str_lt a a.
Proof. unfold str_lt, String.ltb. now rewrite compare_refl. Qed.

Lemma str_lt_trans (a b c : string) : str_lt a b -> str_lt b c -> str_lt a c.
Proof.
  unfold str_lt, String.ltb. intros H1 H2.
  destruct (String.compare a b) eqn:Hab; try discriminate.
  destruct (String.compare b c) eqn:Hbc; try discriminate.
  now rewrite (compare_lt_trans a b c).
Qed.

#[global] Instance str_le_total : Total str_le.
Proof. intros a b. apply String.leb_total. Qed.

#[global] Instance str_le_trans : Transitive str_le.
Proof.
  intros a b c. rewrite !str_le_lt_or_eq.
  intros [H1 | ->] [H2 | ->]; eauto using str_lt_trans.
Qed.

(** ** [dedup] *)

Lemma dedup_loop_out (prev : string) (l out : list string) :
  dedup_loop prev l out = out ++ dedup_loop prev l [].
Proof.
  revert prev out. induction l as [|cur rest IH]; intros prev out; simpl.
  - now rewrite app_nil_r.
  - destruct (String.eqb cur prev); [apply IH|].
    rewrite (IH cur (out ++ [cur])), (IH cur [cur]). now rewrite <- app_assoc.
Qed.

Lemma dedup_loop_sorted (l : list string) :
  forall prev, Sorted str_le l -> HdRel str_le prev l ->
    StronglySorted str_lt (dedup_loop prev l []) /\
    Forall (str_lt prev) (dedup_loop prev l []).
Proof.
  induction l as [|cur rest IH]; intros prev Hs Hh; simpl.
  - split; constructor.
  - apply Sorted_inv in Hs as [Hs Hcr]. apply HdRel_inv in Hh.
    destruct (String.eqb_spec cur prev) as [-> | Hne].
    + now apply IH.
    + rewrite dedup_loop_out. simpl.
      destruct (IH cur Hs Hcr) as [IH1 IH2].
      assert (Hlt : str_lt prev cur).
      { apply str_le_lt_or_eq in Hh as [? | ?]; [assumption | congruence]. }
      split.
      * now constructor.
      * constructor; [assumption|].
        eapply Forall_impl; [exact IH2|]. intros x. now apply str_lt_trans.
Qed.

Lemma dedup_strictly_sorted (l : list string) : StronglySorted str_lt (dedup l).
Proof.
  unfold dedup, sort_Strings.
  assert (Hs : Sorted str_le (merge_sort str_le l)) by apply (Sorted_merge_sort _).
  destruct (merge_sort str_le l) as [|x m] eqn:Hm.
  - constructor.
  - apply dedup_loop_sorted; [assumption|].
    constructor. unfold str_le, String.leb. simpl. now destruct x.
Qed.

Lemma strictly_sorted_NoDup (l : list string) : StronglySorted str_lt l -> NoDup l.
Proof.
  induction 1 as [|x l Hs IH Hx]; constructor; [|assumption].
  intros Hin. rewrite Forall_forall in Hx. exact (str_lt_irrefl x (Hx x Hin)).
Qed.

Lemma strictly_sorted_Sorted (l : list string) : StronglySorted str_lt l -> Sorted str_le l.
Proof.
  intros H. apply StronglySorted_Sorted.
  induction H as [|x l Hs IH Hx]; constructor; [assumption|].
  eapply Forall_impl; [exact Hx|]. intros y Hy. apply str_le_lt_or_eq. now left.
Qed.

Lemma dedup_Sorted (l : list string) : Sorted str_le (dedup l).
Proof. apply strictly_sorted_Sorted, dedup_strictly_sorted. Qed.

Lemma dedup_NoDup (l : list string) : NoDup (dedup l).
Proof. apply strictly_sorted_NoDup, dedup_strictly_sorted. Qed.

Lemma str_le_empty (s : string) : str_le EmptyString s.
Proof. unfold str_le, String.leb. now destruct s. Qed.

Lemma dedup_loop_elem (l : list string) :
  forall prev, StronglySorted str_le l -> Forall (str_le prev) l ->
    forall x, x ∈ dedup_loop prev l [] <-> x ∈ l /\ x <> prev.
Proof.
  induction l as [|cur rest IH]; intros prev Hs Hp x; simpl.
  - rewrite !elem_of_nil. tauto.
  - apply StronglySorted_inv in Hs as [Hs Hcur].
    apply Forall_cons in Hp as [Hpc Hp].
    rewrite elem_of_cons.
    destruct (String.eqb_spec cur prev) as [-> | Hne].
    + rewrite (IH prev Hs Hp). tauto.
    + rewrite dedup_loop_out. simpl. rewrite elem_of_cons, (IH cur Hs Hcur).
      split.
      * intros [-> | [Hin Hx]]; [tauto|]. split; [tauto|].
        intros ->. apply Hne.
        rewrite Forall_forall in Hcur.
        apply String.leb_antisym; [apply Hcur, Hin | exact Hpc].
      * intros [[-> | Hin] Hx]; [tauto|].
        destruct (String.eqb_spec x cur); tauto.
Qed.

(** [dedup] keeps every entry of its input but the empty string, which the
    initial value of [prev] makes it drop. *)
Lemma dedup_elem (l : list string) (x : string) :
  x ∈ dedup l <-> x ∈ l /\ x <> EmptyString.
Proof.
  unfold dedup, sort_Strings.
  rewrite dedup_loop_elem.
  - now rewrite merge_sort_Permutation.
  - apply (StronglySorted_merge_sort _).
  - apply Forall_forall. intros y _. apply str_le_empty.
Qed.

(** The generators alone decide whether [GenerateDependencies] fails. *)
Lemma GenerateDependencies_unfold (E : Env) (pc : PackageContext) :
  GenerateDependencies E pc =
    match run_generators [generateSharedObjectNameDeps E; generateCmdProviders E] pc
            {| Runtime := []; Provides := [] |} with
    | (Err e, _) => (Err e, pc)
    | (Ok _, generated) =>
        (Ok tt, set_Dependencies
           {| Runtime := dedup (Runtime (pc_Dependencies pc) ++ Runtime generated);
              Provides := dedup (Provides (pc_Dependencies pc) ++ Provides generated) |} pc)
    end.
Proof. reflexivity. Qed.

(** C5. Whatever the declared and the generated entries are, the merge step
    of [GenerateDependencies] leaves [Runtime] and [Provides] in increasing
    byte order without any repeated entry (a failed generator leaves the
    context as it was); [dedup] itself does so on every list, and turns
    ["so:libc.so.6"; "so:libc.so.6"; "cmd:foo=1-r0"] into
    ["cmd:foo=1-r0"; "so:libc.so.6"]. *)
Theorem C5_merge_sorted_without_duplicates :
  (forall l : list string, Sorted str_le (dedup l) /\ NoDup (dedup l)) /\
  dedup ["so:libc.so.6"; "so:libc.so.6"; "cmd:foo=1-r0"]
    = ["cmd:foo=1-r0"; "so:libc.so.6"] /\
  (forall (E : Env) (pc : PackageContext),
     match GenerateDependencies E pc with
     | (Ok _, pc') =>
         Sorted str_le (Runtime (pc_Dependencies pc')) /\
         NoDup (Runtime (pc_Dependencies pc')) /\
         Sorted str_le (Provides (pc_Dependencies pc')) /\
         NoDup (Provides (pc_Dependencies pc'))
     | (Err _, pc') => pc' = pc
     end).
Proof.
  split; [|split].
  - intros l. split; [apply dedup_Sorted | apply dedup_NoDup].
  - vm_compute. reflexivity.
  - intros E pc. rewrite GenerateDependencies_unfold.
    destruct (run_generators _ pc _) as [[[]|e] generated]; simpl;
      auto using dedup_Sorted, dedup_NoDup.
Qed.

(** ** Facts about the string helpers *)

Lemma append_cons (x : ascii) (a b : string) : String x a +:+ b = String x (a +:+ b).
Proof. reflexivity. Qed.

Lemma append_nil_l (b : string) : EmptyString +:+ b = b.
Proof. reflexivity. Qed.

Lemma append_assoc (a b c : string) : (a +:+ b) +:+ c = a +:+ (b +:+ c).
Proof.
  induction a as [|x a IH]; [reflexivity|].
  rewrite !append_cons. now f_equal.
Qed.

Lemma HasPrefix_append (p s : string) : strings.HasPrefix (p +:+ s) p = true.
Proof.
  induction p as [|x p IH]; [reflexivity|].
  rewrite append_cons. simpl. now rewrite Ascii.eqb_refl.
Qed.

Lemma HasPrefix_inv (s p : string) :
  strings.HasPrefix s p = true -> s = p +:+ strings.slice_from (String.length p) s.
Proof.
  revert s. induction p as [|x p IH]; intros s H; simpl in *.
  - now destruct s.
  - destruct s as [|y s]; [discriminate|].
    destruct (Ascii.eqb_spec x y) as [-> | ]; [|discriminate].
    rewrite append_cons. f_equal. now apply IH.
Qed.

(** [Index] finds an occurrence: the text splits around it. *)
Lemma Index_Some (s sep : string) (m : nat) :
  strings.Index s sep = Some m ->
  s = strings.slice_to m s +:+ sep +:+ strings.slice_from (m + String.length sep) s.
Proof.
  revert m. induction s as [|c s IH]; intros m; simpl.
  - destruct (strings.HasPrefix EmptyString sep) eqn:Hp; [|discriminate].
    intros [= <-]. simpl. rewrite append_nil_l. now apply HasPrefix_inv in Hp.
  - destruct (strings.HasPrefix (String c s) sep) eqn:Hp.
    + intros [= <-]. simpl. rewrite append_nil_l. now apply HasPrefix_inv in Hp.
    + destruct (strings.Index s sep) as [k|] eqn:Hk; [|discriminate].
      intros [= <-]. simpl. rewrite append_cons. f_equal. now apply IH.
Qed.

Lemma Contains_middle (a b c : string) : strings.Contains (a +:+ b +:+ c) b = true.
Proof.
  unfold strings.Contains.
  induction a as [|x a IH].
  - rewrite append_nil_l.
    destruct (b +:+ c) eqn:Hbc; simpl; rewrite <- Hbc, HasPrefix_append; reflexivity.
  - rewrite append_cons. simpl.
    destruct (strings.HasPrefix _ b); [reflexivity|].
    destruct (strings.Index (a +:+ b +:+ c) b); [reflexivity | discriminate].
Qed.

Lemma Index_nonempty (s sep : string) (m : nat) :
  sep <> EmptyString -> strings.Index s sep = Some m -> (0 < String.length s)%nat.
Proof.
  intros Hsep. destruct s; simpl; [|lia].
  destruct sep; [congruence | discriminate].
Qed.

(** With a single occurrence of the separator, [Split] returns the two sides
    of [Cut]. *)
Lemma Split_single (s sep before after : string) :
  sep <> EmptyString ->
  strings.Cut s sep = Some (before, after) ->
  strings.Contains after sep = false ->
  strings.Split s sep = [before; after].
Proof.
  unfold strings.Cut, strings.Split, strings.Contains. intros Hsep Hcut Hno.
  destruct (strings.Index s sep) as [m|] eqn:Hm; [|discriminate].
  injection Hcut as <- <-.
  pose proof (Index_nonempty s sep m Hsep Hm) as Hlen.
  destruct (String.length s) as [|fuel]; [lia|]. simpl. rewrite Hm. f_equal.
  destruct fuel; simpl; [reflexivity|].
  destruct (strings.Index (strings.slice_from _ s) sep); [discriminate | reflexivity].
Qed.

Lemma length_append (a b : string) :
  String.length (a +:+ b) = (String.length a + String.length b)%nat.
Proof.
  induction a as [|x a IH]; [reflexivity|].
  rewrite append_cons. simpl. now rewrite IH.
Qed.

Lemma Index_rest_shorter (s sep : string) (m : nat) :
  sep <> EmptyString -> strings.Index s sep = Some m ->
  (String.length (strings.slice_from (m + String.length sep) s) < String.length s)%nat.
Proof.
  intros Hsep Hm. pose proof (Index_Some s sep m Hm) as Hs.
  apply (f_equal String.length) in Hs. rewrite !length_append in Hs.
  destruct sep; [congruence|]. simpl in *. lia.
Qed.

(** The bound of [genSplit] is never what stops it: any bound that is at least
    the length of the input gives the same parts. *)
Lemma genSplit_fuel (sep : string) :
  sep <> EmptyString ->
  forall (f1 f2 : nat) (s : string),
    (String.length s <= f1)%nat -> (String.length s <= f2)%nat ->
    strings.genSplit f1 s sep = strings.genSplit f2 s sep.
Proof.
  intros Hsep. induction f1 as [|f1 IH]; intros f2 s H1 H2.
  - destruct s; [|simpl in H1; lia].
    destruct f2; [reflexivity|]. simpl. destruct sep; [congruence | reflexivity].
  - destruct f2 as [|f2].
    + destruct s; [|simpl in H2; lia].
      simpl. destruct sep; [congruence | reflexivity].
    + simpl. destruct (strings.Index s sep) as [m|] eqn:Hm; [|reflexivity].
      pose proof (Index_rest_shorter s sep m Hsep Hm).
      f_equal. apply IH; lia.
Qed.

(** ** The dependency generators *)

(** The ELF part of the shared-object callback never fails and touches
    [Runtime] only. *)
Lemma so_imports_ok (E : Env) (pc : PackageContext) (path : string) (g : Dependencies) :
  fst (so_imports E pc path g) = Ok tt /\
  Provides (snd (so_imports E pc path g)) = Provides g.
Proof.
  unfold so_imports.
  destruct (elf_Open E _) as [ef|e]; [|now split].
  destruct (ImportedLibraries ef) as [libs|e]; now split.
Qed.

Lemma libver_of_single (basename before after : string) :
  strings.Cut basename ".so." = Some (before, after) ->
  strings.Contains after ".so." = false ->
  libver_of basename = after.
Proof.
  intros Hcut Hno. unfold libver_of.
  rewrite (Split_single basename ".so." before after); [reflexivity| |assumption..].
  discriminate.
Qed.

Lemma genSplit_cons (fuel : nat) (s sep : string) :
  exists rest, strings.genSplit fuel s sep =
    match fuel, strings.Index s sep with
    | S _, Some m => strings.slice_to m s
    | _, _ => s
    end :: rest.
Proof.
  destruct fuel as [|fuel]; simpl; [now exists []|].
  destruct (strings.Index s sep); now eexists.
Qed.


(** ** What the generators keep *)

Lemma cmd_visit_keeps (pc : PackageContext) (v : Visit) (g : Dependencies) (x : string) :
  x ∈ Provides g -> x ∈ Provides (snd (cmd_visit pc v g)).
Proof.
  unfold cmd_visit.
  destruct (v_err v); [trivial|].
  destruct (v_info v) as [fi|e]; [|trivial]. cbv zeta.
  destruct (negb _); [trivial|].
  destruct (exec_by_all _); [|trivial].
  destruct (strings.Contains _ "bin"); [|trivial].
  simpl. intros H. apply elem_of_app. now left.
Qed.


Lemma walk_keeps (fn : Visit -> M Dependencies unit) (visits : list Visit) :
  (forall v g x, x ∈ Provides g -> x ∈ Provides (snd (fn v g))) ->
  forall g x, x ∈ Provides g -> x ∈ Provides (snd (walk fn visits g)).
Proof.
  intros Hfn. induction visits as [|v rest IH]; intros g x Hx; [exact Hx|].
  simpl. unfold bind. specialize (Hfn v g x Hx).
  destruct (fn v g) as [[[]|e] g1]; cbn [snd] in *; auto.
Qed.

(** An entry a callback appends on a visit is among the [Provides] of a
    walk that succeeds. *)
Lemma walk_provides (fn : Visit -> M Dependencies unit) (visits : list Visit)
    (v : Visit) (entry : string) :
  (forall v g x, x ∈ Provides g -> x ∈ Provides (snd (fn v g))) ->
  (forall g, entry ∈ Provides (snd (fn v g))) ->
  v ∈ visits ->
  forall g, fst (walk fn visits g) = Ok tt -> entry ∈ Provides (snd (walk fn visits g)).
Proof.
  intros Hkeep Hv. induction visits as [|v' rest IH]; intros Hin g.
  - now apply elem_of_nil in Hin.
  - simpl. unfold bind. apply elem_of_cons in Hin as [<- | Hin].
    + specialize (Hv g). destruct (fn v g) as [[[]|e] g1]; cbn [fst snd] in *;
        [|discriminate]. intros _. now apply walk_keeps.
    + destruct (fn v' g) as [[[]|e] g1]; cbn [fst snd]; [|discriminate].
      now apply IH.
Qed.

(** The two generators in turn, then the merge: an entry of the generated
    [Provides] is in the merged collection. *)
Lemma GenerateDependencies_provides (E : Env) (pc : PackageContext) (entry : string) :
  entry <> EmptyString ->
  (forall g, fst (generateSharedObjectNameDeps E pc g) = Ok tt ->
             entry ∈ Provides (snd (generateSharedObjectNameDeps E pc g))) \/
  (forall g, fst (generateCmdProviders E pc g) = Ok tt ->
             entry ∈ Provides (snd (generateCmdProviders E pc g))) ->
  fst (GenerateDependencies E pc) = Ok tt ->
  entry ∈ Provides (pc_Dependencies (snd (GenerateDependencies E pc))).
Proof.
  intros Hne Hgen. rewrite GenerateDependencies_unfold. simpl. unfold bind.
  destruct (generateSharedObjectNameDeps E pc _) as [[[]|e] g1] eqn:H1;
    [|discriminate].
  destruct (generateCmdProviders E pc g1) as [[[]|e] g2] eqn:H2; [|discriminate].
  simpl. intros _. apply dedup_elem. split; [|exact Hne].
  apply elem_of_app. right.
  destruct Hgen as [Hso | Hcmd].
  - specialize (Hso {| Runtime := []; Provides := [] |}). rewrite H1 in Hso.
    specialize (Hso eq_refl). simpl in Hso.
    pose proof (walk_keeps (cmd_visit pc) (WalkDir E (WorkspaceSubdir E pc))
                  (cmd_visit_keeps pc) g1 entry Hso) as H.
    unfold generateCmdProviders in H2. now rewrite H2 in H.
  - specialize (Hcmd g1). rewrite H2 in Hcmd. now apply Hcmd.
Qed.




(** C9. For a regular file with all of 0555 set whose path contains "bin",
    the command callback appends "cmd:<basename>=<version>-r<epoch>" to
    [Provides], changes nothing else, and returns no error; if the file is in
    the tree and [GenerateDependencies] succeeds, the entry is in the final
    [Provides]. *)
Theorem C9_cmd_provide (E : Env) (pc : PackageContext) (v : Visit) (fi : FileInfo) :
  v_err v = None -> v_info v = Ok fi ->
  FileMode.IsRegular (fi_mode fi) = true -> exec_by_all (fi_mode fi) = true ->
  strings.Contains (v_path v) "bin" = true ->
  let entry :=
    "cmd:" +:+ filepath.Base (v_path v) +:+ "=" +:+ pkg_Version (pc_Origin pc)
      +:+ "-r" +:+ fmt_d (Z.of_N (pkg_Epoch (pc_Origin pc))) in
  (forall generated,
     cmd_visit pc v generated =
       (Ok tt, {| Runtime := Runtime generated;
                  Provides := Provides generated ++ [entry] |})) /\
  (v ∈ WalkDir E (WorkspaceSubdir E pc) ->
   fst (GenerateDependencies E pc) = Ok tt ->
   entry ∈ Provides (pc_Dependencies (snd (GenerateDependencies E pc)))).
Proof.
  intros Herr Hinfo Hreg Hexec Hbin entry.
  assert (Hvisit : forall generated,
            cmd_visit pc v generated =
              (Ok tt, {| Runtime := Runtime generated;
                         Provides := Provides generated ++ [entry] |})).
  { intros generated.
    unfold cmd_visit. rewrite Herr, Hinfo. cbv zeta. rewrite Hreg, Hexec, Hbin.
    reflexivity. }
  split; [exact Hvisit|].
  intros Hin Hok.
  apply GenerateDependencies_provides; [discriminate| |exact Hok].
  right. intros g. unfold generateCmdProviders.
  apply (walk_provides _ _ v); [apply cmd_visit_keeps| |exact Hin].
  intros g'. rewrite Hvisit. simpl. apply elem_of_app. right.
  apply list_elem_of_singleton. reflexivity.
Qed.

(** C9, the example: usr/bin/frobnicate, version 1.0, epoch 3. *)
Lemma C9_witness_frobnicate :
  let E := Demo.env true None in
  let pc := Demo.pc E "amd64" EmptyString in
  cmd_visit pc (Demo.exe_entry "usr/bin/frobnicate" 100) {| Runtime := []; Provides := [] |}
    = (Ok tt, {| Runtime := []; Provides := ["cmd:frobnicate=1.0-r3"] |}) /\
  "cmd:frobnicate=1.0-r3" ∈ Provides (pc_Dependencies (snd (GenerateDependencies E pc))).
Proof.
  intros E pc.
  destruct (C9_cmd_provide E pc (Demo.exe_entry "usr/bin/frobnicate" 100)
              {| fi_mode := Demo.rwxr_xr_x; fi_size := 100 |}) as [H1 H2];
    try reflexivity.
  split.
  - apply H1.
  - apply H2; [|reflexivity]. apply list_elem_of_In. simpl. tauto.
Defined.

Lemma so_visit_ok (E : Env) (pc : PackageContext) (v : Visit) (fi : FileInfo)
    (g : Dependencies) :
  v_err v = None -> v_info v = Ok fi -> fst (so_visit E pc v g) = Ok tt.
Proof.
  intros Herr Hinfo. unfold so_visit. rewrite Herr, Hinfo. cbv zeta.
  destruct (negb _); [reflexivity|].
  destruct (exec_by_all _); [|reflexivity].
  unfold bind.
  destruct (strings.Contains _ ".so."); simpl;
    match goal with |- context [so_imports E pc ?p ?g'] =>
      destruct (so_imports_ok E pc p g') as [H _];
      destruct (so_imports E pc p g') as [r g''] end;
    exact H.
Qed.

Lemma cmd_visit_ok (pc : PackageContext) (v : Visit) (fi : FileInfo) (g : Dependencies) :
  v_err v = None -> v_info v = Ok fi -> fst (cmd_visit pc v g) = Ok tt.
Proof.
  intros Herr Hinfo. unfold cmd_visit. rewrite Herr, Hinfo. cbv zeta.
  destruct (negb _); [reflexivity|].
  destruct (exec_by_all _); [|reflexivity].
  destruct (strings.Contains _ "bin"); reflexivity.
Qed.

(** A walk of either generator fails exactly with the first walk error. *)
Lemma walk_so_outcome (E : Env) (pc : PackageContext) (visits : list Visit) :
  forall g, fst (walk (so_visit E pc) visits g) =
              match first_walk_error visits with Some e => Err e | None => Ok tt end.
Proof.
  induction visits as [|v rest IH]; intros g; [reflexivity|].
  simpl. unfold bind.
  destruct (v_err v) as [e|] eqn:Herr.
  { unfold so_visit. now rewrite Herr. }
  destruct (v_info v) as [fi|e] eqn:Hinfo.
  - pose proof (so_visit_ok E pc v fi g Herr Hinfo) as Hok.
    destruct (so_visit E pc v g) as [[[]|e] g']; [apply IH | discriminate].
  - unfold so_visit. now rewrite Herr, Hinfo.
Qed.

Lemma walk_cmd_outcome (pc : PackageContext) (visits : list Visit) :
  forall g, fst (walk (cmd_visit pc) visits g) =
              match first_walk_error visits with Some e => Err e | None => Ok tt end.
Proof.
  induction visits as [|v rest IH]; intros g; [reflexivity|].
  simpl. unfold bind.
  destruct (v_err v) as [e|] eqn:Herr.
  { unfold cmd_visit. now rewrite Herr. }
  destruct (v_info v) as [fi|e] eqn:Hinfo.
  - pose proof (cmd_visit_ok pc v fi g Herr Hinfo) as Hok.
    destruct (cmd_visit pc v g) as [[[]|e] g']; [apply IH | discriminate].
  - unfold cmd_visit. now rewrite Herr, Hinfo.
Qed.

Lemma GenerateDependencies_outcome (E : Env) (pc : PackageContext) :
  fst (GenerateDependencies E pc) =
    match first_walk_error (WalkDir E (WorkspaceSubdir E pc)) with
    | Some e => Err e
    | None => Ok tt
    end.
Proof.
  rewrite GenerateDependencies_unfold. simpl. unfold bind.
  unfold generateSharedObjectNameDeps at 1.
  pose proof (walk_so_outcome E pc (WalkDir E (WorkspaceSubdir E pc))
                {| Runtime := []; Provides := [] |}) as Hso.
  destruct (walk (so_visit E pc) _ _) as [[[]|e] g1]; simpl in Hso.
  - unfold generateCmdProviders.
    pose proof (walk_cmd_outcome pc (WalkDir E (WorkspaceSubdir E pc)) g1) as Hcmd.
    destruct (walk (cmd_visit pc) _ _) as [[[]|e] g2]; simpl in Hcmd.
    + simpl. destruct (first_walk_error _); [discriminate | reflexivity].
    + simpl. exact Hcmd.
  - simpl. exact Hso.
Qed.

(** C8. A regular executable file that [elf.Open] rejects adds nothing to
    [Runtime] and makes the callback return no error; the pipeline fails
    exactly when the walk reports an error, with that error and the context
    left as it was, and otherwise succeeds whatever [elf.Open] says. *)
Theorem C8_non_elf_skipped_walk_error_fatal (E : Env) (pc : PackageContext) :
  (forall (v : Visit) (fi : FileInfo) (g : Dependencies) (e : error),
     v_err v = None -> v_info v = Ok fi ->
     FileMode.IsRegular (fi_mode fi) = true -> exec_by_all (fi_mode fi) = true ->
     elf_Open E (filepath_Join E [WorkspaceSubdir E pc; v_path v]) = Err e ->
     fst (so_visit E pc v g) = Ok tt /\
     Runtime (snd (so_visit E pc v g)) = Runtime g) /\
  (first_walk_error (WalkDir E (WorkspaceSubdir E pc)) = None ->
     fst (GenerateDependencies E pc) = Ok tt) /\
  (forall e : error,
     first_walk_error (WalkDir E (WorkspaceSubdir E pc)) = Some e ->
     GenerateDependencies E pc = (Err e, pc)).
Proof.
  split; [|split].
  - intros v fi g e Herr Hinfo Hreg Hexec Helf.
    split; [now apply (so_visit_ok E pc v fi)|].
    unfold so_visit. rewrite Herr, Hinfo. cbv zeta. rewrite Hreg, Hexec. simpl.
    unfold bind, so_imports. rewrite Helf.
    destruct (strings.Contains _ ".so."); reflexivity.
  - intros H. now rewrite GenerateDependencies_outcome, H.
  - intros e H. pose proof (GenerateDependencies_outcome E pc) as Hfst.
    rewrite H in Hfst. rewrite GenerateDependencies_unfold in *.
    destruct (run_generators _ pc _) as [[[]|e'] g]; simpl in *; congruence.
Qed.

(** C8 on the demo tree: the shell script usr/bin/run.sh is skipped, the
    pipeline succeeds, and it fails on the tree with an unreadable directory. *)
Lemma C8_witness :
  let E := Demo.env true None in
  let pc := Demo.pc E "amd64" EmptyString in
  let none := {| Runtime := []; Provides := [] |} in
  (fst (so_visit E pc (Demo.exe_entry "usr/bin/run.sh" 20) none) = Ok tt /\
   Runtime (snd (so_visit E pc (Demo.exe_entry "usr/bin/run.sh" 20) none)) = []) /\
  fst (GenerateDependencies E pc) = Ok tt /\
  GenerateDependencies (with_WalkDir Demo.broken_tree E) pc
    = (Err "permission denied", pc).
Proof.
  intros E pc none. split; [|split].
  - apply (proj1 (C8_non_elf_skipped_walk_error_fatal E pc)
             (Demo.exe_entry "usr/bin/run.sh" 20)
             {| fi_mode := Demo.rwxr_xr_x; fi_size := 20 |} none "bad magic number");
      reflexivity.
  - apply (proj1 (proj2 (C8_non_elf_skipped_walk_error_fatal E pc))). reflexivity.
  - apply (proj2 (proj2 (C8_non_elf_skipped_walk_error_fatal
                           (with_WalkDir Demo.broken_tree E) pc))).
    reflexivity.
Defined.

(** ** Sizing *)

Lemma wrap64_add_l (a b : Z) : wrap64 (wrap64 a + b) = wrap64 (a + b).
Proof.
  unfold wrap64. f_equal.
  replace ((a + 2 ^ 63) mod 2 ^ 64 - 2 ^ 63 + b + 2 ^ 63)
    with ((a + 2 ^ 63) mod 2 ^ 64 + b) by lia.
  rewrite Zplus_mod_idemp_l. f_equal. lia.
Qed.

Lemma wrap64_small (a : Z) : - 2 ^ 63 <= a < 2 ^ 63 -> wrap64 a = a.
Proof. intros H. unfold wrap64. rewrite Z.mod_small; lia. Qed.

Lemma sizing_visit_ok (v : Visit) (pc pc' : PackageContext) :
  sizing_visit v pc = (Ok tt, pc') ->
  exists fi, v_info v = Ok fi /\
    pc' = set_InstalledSize (wrap64 (pc_InstalledSize pc + fi_size fi)) pc.
Proof.
  unfold sizing_visit, fail, modify.
  destruct (v_err v); [discriminate|].
  destruct (v_info v) as [fi|e]; [|discriminate].
  intros [= <-]. now exists fi.
Qed.

Lemma walk_sizing (visits : list Visit) :
  forall pc, fst (walk sizing_visit visits pc) = Ok tt ->
    snd (walk sizing_visit visits pc) =
      set_InstalledSize (wrap64 (wrap64 (pc_InstalledSize pc) + all_sizes visits)) pc
    \/ visits = [] /\ snd (walk sizing_visit visits pc) = pc.
Proof.
  induction visits as [|v rest IH]; intros pc; simpl; [now right|].
  intros H. left. revert H. unfold bind.
  destruct (sizing_visit v pc) as [[[]|e] pc1] eqn:Hv; [|discriminate].
  apply sizing_visit_ok in Hv as (fi & Hfi & ->). rewrite Hfi.
  intros H.
  destruct (IH _ H) as [-> | [-> ->]]; simpl.
  - unfold set_InstalledSize. simpl. f_equal.
    rewrite !wrap64_add_l. f_equal. lia.
  - unfold set_InstalledSize. simpl. f_equal.
    rewrite !wrap64_add_l. f_equal. lia.
Qed.

(** C2 (amended). When the sizing walk succeeds, the counter (an [int64]) is
    its initial value plus the sizes of all the entries the walk visits,
    directories and other non-regular entries included, wrapping as [int64]
    addition does; nothing else of the context changes. *)
Theorem C2_sizing_adds_every_entry (E : Env) (pc : PackageContext) :
  - 2 ^ 63 <= pc_InstalledSize pc < 2 ^ 63 ->
  fst (sizing E pc) = Ok tt ->
  snd (sizing E pc) =
    set_InstalledSize
      (wrap64 (pc_InstalledSize pc + all_sizes (WalkDir E (WorkspaceSubdir E pc)))) pc.
Proof.
  intros Hrange H. unfold sizing in *.
  destruct (walk_sizing _ pc H) as [-> | [Hnil ->]].
  - now rewrite wrap64_add_l.
  - rewrite Hnil. simpl. rewrite Z.add_0_r, wrap64_small by assumption.
    now destruct pc.
Qed.

(** C2 on the demo tree, from a counter at zero: 4 directories of 4096 bytes
    and files of 100, 20, 7 and 50 bytes give 16561. *)
Lemma C2_witness :
  let E := Demo.env true None in
  pc_InstalledSize (snd (sizing E (Demo.pc E "amd64" EmptyString))) = 16561.
Proof.
  intros E. rewrite (C2_sizing_adds_every_entry E (Demo.pc E "amd64" EmptyString));
    [reflexivity | simpl; lia | reflexivity].
Defined.

(** C2, as stated, fails: on the demo tree the regular files hold 177 bytes
    and the counter ends at 16561. *)
Lemma C2_counterexample :
  let E := Demo.env true None in
  let pc := Demo.pc E "amd64" EmptyString in
  fst (sizing E pc) = Ok tt /\
  regular_sizes (WalkDir E (WorkspaceSubdir E pc)) = 177 /\
  pc_InstalledSize (snd (sizing E pc)) <>
    regular_sizes (WalkDir E (WorkspaceSubdir E pc)).
Proof. vm_compute. repeat split; discriminate. Qed.

(** ** The control record *)

Lemma controlTemplate_arch_line (pc : PackageContext) :
  controlTemplate pc =
    (nl +:+ "# Generated by melange." +:+ nl
       +:+ "pkgname = " +:+ pc_PackageName pc +:+ nl
       +:+ "pkgver = " +:+ pkg_Version (pc_Origin pc) +:+ "-r"
       +:+ fmt_d (Z.of_N (pkg_Epoch (pc_Origin pc))))
    +:+ (nl +:+ "arch = x86_64" +:+ nl)
    +:+ ("size = " +:+ fmt_d (pc_InstalledSize pc) +:+ nl
       +:+ "pkgdesc = " +:+ pkg_Description (pc_Origin pc)
       +:+ license_lines (pkg_Copyright (pc_Origin pc))
       +:+ depend_lines (Runtime (pc_Dependencies pc))
       +:+ provides_lines (Provides (pc_Dependencies pc))
       +:+ nl +:+ "datahash = " +:+ pc_DataHash pc +:+ nl).
Proof. unfold controlTemplate. rewrite !append_assoc. reflexivity. Qed.

(** ** Files and worlds *)

Lemma get_put_same (w : World) (r : FileRef) (f f' : File) :
  get_file w r = Some f -> get_file (put_file r f' w) r = Some f'.
Proof.
  destruct r as [i|p]; simpl; intros H.
  - apply list_lookup_insert_eq. now apply lookup_lt_Some in H.
  - apply lookup_insert_eq.
Qed.

Lemma put_put (w : World) (r : FileRef) (f f' : File) :
  put_file r f' (put_file r f w) = put_file r f' w.
Proof.
  destruct r as [i|p]; unfold put_file; simpl; f_equal.
  - apply list_insert_insert_eq.
  - apply insert_insert_eq.
Qed.

Lemma put_get (w : World) (r : FileRef) (f : File) :
  get_file w r = Some f -> put_file r f w = w.
Proof.
  destruct w as [T O D]. destruct r as [i|p]; unfold put_file; simpl; intros H; f_equal.
  - now apply list_insert_id.
  - now apply insert_id.
Qed.

Lemma written_at_end (f : File) (p : bytes) :
  f_pos f = length (f_data f) -> written f p = appended f p.
Proof.
  intros H. unfold written, appended, write_at. rewrite H. f_equal.
  - rewrite firstn_all, Nat.sub_diag. simpl.
    rewrite drop_ge by lia. now rewrite app_nil_r.
  - now rewrite length_app.
Qed.

Lemma appended_nil (f : File) : f_pos f = length (f_data f) -> appended f [] = f.
Proof.
  destruct f as [n d p o]. unfold appended. simpl. intros ->.
  now rewrite app_nil_r.
Qed.

Lemma appended_appended (f : File) (p q : bytes) :
  appended (appended f p) q = appended f (p ++ q).
Proof. unfold appended. simpl. now rewrite app_assoc. Qed.

(** A successful run of the writes through [io.MultiWriter(digest, file)]:
    the digest and the file have received the same bytes, all of them. *)
Lemma write_all_hashed_ok (E : Env) (r : FileRef) (chunks : list bytes) :
  forall (h : bytes) (w : World) (f : File) (hw : bytes * World),
    get_file w r = Some f -> f_open f = true -> f_pos f = length (f_data f) ->
    write_all (io_MultiWriter hash_Writer (file_Writer E r)) chunks (h, w) = (None, hw) ->
    hw = (h ++ concat chunks, put_file r (appended f (concat chunks)) w).
Proof.
  induction chunks as [|c rest IH]; intros h w f hw Hget Hopen Hend; simpl.
  - intros [= <-]. rewrite app_nil_r, appended_nil, put_get; auto.
  - rewrite Nat.eqb_refl. simpl. unfold File_Write. rewrite Hget, Hopen.
    destruct (os_write_fault E w r c) as [[n e]|]; simpl; [discriminate|].
    rewrite Nat.eqb_refl. simpl. intros H.
    rewrite written_at_end in H by assumption.
    apply (IH _ _ (appended f c)) in H;
      [|now apply (get_put_same w r f)|assumption|reflexivity].
    rewrite H, put_put, appended_appended. now rewrite <- app_assoc.
Qed.

Lemma WriteArchive_hashed_ok (E : Env) (ctx : TarContext) (r : FileRef) (src : FS)
    (w w' : World) (f : File) (h : bytes) :
  get_file w r = Some f -> f_open f = true -> f_pos f = length (f_data f) ->
  WriteArchive_hashed E ctx r src w = (Ok h, w') ->
  h = concat (fst (tarball_archive E ctx src)) /\
  w' = put_file r (appended f (concat (fst (tarball_archive E ctx src)))) w.
Proof.
  intros Hget Hopen Hend. unfold WriteArchive_hashed, WriteArchive.
  destruct (write_all _ _ _) as [[e|] hw] eqn:Hw; [discriminate|].
  apply (write_all_hashed_ok E r _ _ _ f) in Hw; try assumption. subst hw.
  destruct (snd (tarball_archive E ctx src)); [discriminate|].
  simpl. intros [= <- <-]. now split.
Qed.

Lemma write_all_file_ok (E : Env) (r : FileRef) (chunks : list bytes) :
  forall (w w' : World) (f : File),
    get_file w r = Some f -> f_open f = true -> f_pos f = length (f_data f) ->
    write_all (file_Writer E r) chunks w = (None, w') ->
    w' = put_file r (appended f (concat chunks)) w.
Proof.
  induction chunks as [|c rest IH]; intros w w' f Hget Hopen Hend; simpl.
  - intros [= <-]. rewrite appended_nil, put_get; auto.
  - unfold File_Write. rewrite Hget, Hopen.
    destruct (os_write_fault E w r c) as [[n e]|]; simpl; [discriminate|].
    intros H. rewrite written_at_end in H by assumption.
    apply (IH _ _ (appended f c)) in H;
      [|now apply (get_put_same w r f)|assumption|reflexivity].
    now rewrite H, put_put, appended_appended.
Qed.

Lemma WriteArchive_file_ok (E : Env) (ctx : TarContext) (r : FileRef) (src : FS)
    (w w' : World) (f : File) :
  get_file w r = Some f -> f_open f = true -> f_pos f = length (f_data f) ->
  WriteArchive E ctx (file_Writer E r) src w = (Ok tt, w') ->
  w' = put_file r (appended f (concat (fst (tarball_archive E ctx src)))) w.
Proof.
  intros Hget Hopen Hend. unfold WriteArchive.
  destruct (write_all _ _ _) as [[e|] w1] eqn:Hw; [discriminate|].
  apply (write_all_file_ok E r _ _ _ f) in Hw; try assumption. subst w1.
  destruct (snd (tarball_archive E ctx src)); [discriminate|].
  now intros [= <-].
Qed.

Lemma drop_nil_length {A} (n : nat) (l : list A) : drop n l = [] -> (length l <= n)%nat.
Proof.
  intros H. apply (f_equal length) in H. rewrite length_drop in H. simpl in H. lia.
Qed.

Lemma at_end_done (f : File) : (length (f_data f) <= f_pos f)%nat -> at_end f = f.
Proof.
  destruct f as [n d p o]. unfold at_end. simpl. intros H. f_equal. lia.
Qed.

(** A successful copy from a temporary file to a final path: what the source
    holds from its offset on is appended to the destination. *)
Lemma io_Copy_ok (E : Env) (p : string) (i : nat) (w w' : World) (fs fd : File) :
  get_file w (TmpRef i) = Some fs ->
  get_file w (OutRef p) = Some fd -> f_open fd = true -> f_pos fd = length (f_data fd) ->
  io_Copy E (OutRef p) (TmpRef i) w = (Ok tt, w') ->
  w' = put_file (OutRef p) (appended fd (drop (f_pos fs) (f_data fs)))
         (put_file (TmpRef i) (at_end fs) w).
Proof.
  intros Hs Hd Hopen Hend. unfold io_Copy. rewrite Hs.
  destruct (f_open fs); [|discriminate].
  destruct (drop (f_pos fs) (f_data fs)) as [|b q] eqn:Hdrop.
  - intros [= <-]. apply drop_nil_length in Hdrop.
    rewrite at_end_done, appended_nil by assumption.
    now rewrite (put_get w (TmpRef i)), put_get.
  - unfold File_Write.
    replace (get_file (put_file (TmpRef i) (at_end fs) w) (OutRef p)) with (Some fd)
      by (symmetry; exact Hd).
    rewrite Hopen.
    destruct (os_write_fault E _ (OutRef p) (b :: q)) as [[n e]|]; [discriminate|].
    intros [= <-]. now rewrite written_at_end.
Qed.

(** ** Stepping through a successful run *)

Lemma bind_ok {S A B} (m : M S A) (k : A -> M S B) (s s' : S) (b : B) :
  bind m k s = (Ok b, s') -> exists a s1, m s = (Ok a, s1) /\ k a s1 = (Ok b, s').
Proof.
  unfold bind. destruct (m s) as [[a|e] s1]; [|discriminate]. eauto.
Qed.

Lemma wrap_err_ok {S A} (msg : string) (m : M S A) (s s' : S) (a : A) :
  wrap_err msg m s = (Ok a, s') -> m s = (Ok a, s').
Proof.
  unfold wrap_err. destruct (m s) as [[a'|e] s1]; [|discriminate]. now intros [= <- <-].
Qed.

Lemma defer_inv {S A} (c : S -> S) (body : M S A) (s s' : S) (r : result A) :
  defer c body s = (r, s') -> exists s1, body s = (r, s1) /\ s' = c s1.
Proof.
  unfold defer. destruct (body s) as [r1 s1]. intros [= <- <-]. eauto.
Qed.

Lemma onW_inv {A} (m : M World A) (s s' : St) (r : result A) :
  onW m s = (r, s') ->
  exists w', m (st_w s) = (r, w') /\ s' = {| st_pc := st_pc s; st_w := w' |}.
Proof.
  unfold onW, zoom. destruct (m (st_w s)) as [r1 w1]. intros [= <- <-]. eauto.
Qed.

Lemma onPC_inv {A} (m : M PackageContext A) (s s' : St) (r : result A) :
  onPC m s = (r, s') ->
  exists pc', m (st_pc s) = (r, pc') /\ s' = {| st_pc := pc'; st_w := st_w s |}.
Proof.
  unfold onPC, zoom. destruct (m (st_pc s)) as [r1 pc1]. intros [= <- <-]. eauto.
Qed.

Lemma os_CreateTemp_ok (E : Env) (pattern : string) (w w' : World) (r : FileRef) :
  os_CreateTemp E pattern w = (Ok r, w') ->
  r = TmpRef (length (w_tmp w)) /\
  w' = {| w_tmp := w_tmp w ++ [fresh_file pattern]; w_out := w_out w; w_dirs := w_dirs w |}.
Proof.
  unfold os_CreateTemp. destruct (os_fault E _); [discriminate|].
  intros [= <- <-]. now split.
Qed.

Lemma File_Seek_start_ok (E : Env) (r : FileRef) (w w' : World) (f : File) :
  get_file w r = Some f ->
  File_Seek_start E r w = (Ok tt, w') -> w' = put_file r (rewound f) w.
Proof.
  intros Hget. unfold File_Seek_start. destruct (os_fault E _); [discriminate|].
  rewrite Hget. destruct (f_open f); [|discriminate]. now intros [= <-].
Qed.

Lemma tarball_NewContext_ok {S} (E : Env) (opts ctx : TarContext) (s s' : S) :
  tarball_NewContext E opts s = (Ok ctx, s') -> ctx = opts /\ s' = s.
Proof.
  unfold tarball_NewContext. destruct (tarball_option_err E opts); [discriminate|].
  now intros [= <- <-].
Qed.

Lemma memfs_WriteFile_ok {S} (E : Env) (path : string) (data : bytes) (perm : Z)
    (fsys : FS) (s s' : S) :
  memfs_WriteFile E path data perm s = (Ok fsys, s') ->
  fsys = MemFS [(path, data, perm)] /\ s' = s.
Proof.
  unfold memfs_WriteFile. destruct (memfs_reject E path); [discriminate|].
  now intros [= <- <-].
Qed.

Lemma of_result_ok {S A} (r : result A) (a : A) (s s' : S) :
  of_result r s = (Ok a, s') -> r = Ok a /\ s' = s.
Proof. destruct r; [|discriminate]. now intros [= <- <-]. Qed.

Lemma os_MkdirAll_ok (E : Env) (path : string) (w w' : World) :
  os_MkdirAll E path w = (Ok tt, w') ->
  w' = {| w_tmp := w_tmp w; w_out := w_out w; w_dirs := list_to_set (MkdirAll_chain path) ∪ w_dirs w |}.
Proof.
  unfold os_MkdirAll. destruct (os_fault E _); [discriminate|]. now intros [= <-].
Qed.

Lemma os_Create_ok (E : Env) (path : string) (w w' : World) (r : FileRef) :
  os_Create E path w = (Ok r, w') ->
  r = OutRef path /\ w' = put_file (OutRef path) (fresh_file path) w.
Proof.
  unfold os_Create. destruct (os_fault E _); [discriminate|]. now intros [= <- <-].
Qed.

Lemma get_tmp (T l : list File) (O : gmap string File) (D : gset string) (k : nat) :
  get_file {| w_tmp := T ++ l; w_out := O; w_dirs := D |} (TmpRef (length T + k)) = l !! k.
Proof. simpl. rewrite lookup_app_r by lia. f_equal. lia. Qed.

Lemma put_tmp (T l : list File) (O : gmap string File) (D : gset string) (k : nat)
    (f : File) :
  put_file (TmpRef (length T + k)) f {| w_tmp := T ++ l; w_out := O; w_dirs := D |}
  = {| w_tmp := T ++ <[k:=f]> l; w_out := O; w_dirs := D |}.
Proof. unfold put_file. simpl. now rewrite insert_app_r. Qed.

Lemma close_tmp (T l : list File) (O : gmap string File) (D : gset string) (k : nat)
    (f : File) :
  l !! k = Some f ->
  File_Close (TmpRef (length T + k)) {| w_tmp := T ++ l; w_out := O; w_dirs := D |}
  = {| w_tmp := T ++ <[k:=closed f]> l; w_out := O; w_dirs := D |}.
Proof. intros H. unfold File_Close. now rewrite get_tmp, H, put_tmp. Qed.

Ltac okW H1 w1 := apply wrap_err_ok, onW_inv in H1 as (w1 & H1 & ->); simpl in H1.
Ltac okPC H1 p1 := apply wrap_err_ok, onPC_inv in H1 as (p1 & H1 & ->); simpl in H1.


Lemma copy_step (E : Env) (p : string) (T l : list File) (O : gmap string File)
    (D : gset string) (k : nat) (fs fo : File) (w' : World) :
  l !! k = Some fs -> f_pos fs = 0%nat ->
  O !! p = Some fo -> f_open fo = true -> f_pos fo = length (f_data fo) ->
  io_Copy E (OutRef p) (TmpRef (length T + k))
    {| w_tmp := T ++ l; w_out := O; w_dirs := D |} = (Ok tt, w') ->
  w' = {| w_tmp := T ++ <[k:=at_end fs]> l;
          w_out := <[p:=appended fo (f_data fs)]> O; w_dirs := D |}.
Proof.
  intros Hs H0 Ho Hopen Hend H.
  eapply io_Copy_ok in H; [|rewrite get_tmp; exact Hs|exact Ho|assumption..].
  subst w'. rewrite H0, put_tmp. reflexivity.
Qed.

Lemma close_out (p : string) (T : list File) (O : gmap string File) (D : gset string)
    (f : File) :
  File_Close (OutRef p) {| w_tmp := T; w_out := <[p:=f]> O; w_dirs := D |}
  = {| w_tmp := T; w_out := <[p:=closed f]> O; w_dirs := D |}.
Proof.
  unfold File_Close. simpl. rewrite lookup_insert_eq. unfold put_file. simpl.
  now rewrite insert_insert_eq.
Qed.

Ltac copy_one H w2 :=
  let H1 := fresh "Hcopy" in
  apply bind_ok in H as ([] & w2 & H1 & H);
  eapply copy_step in H1;
    [|simpl; reflexivity|try assumption; reflexivity|apply lookup_insert_eq
     |reflexivity|simpl; try rewrite length_app; reflexivity];
  subst w2; rewrite insert_insert_eq in H; simpl in H.

(** The end of a successful emission, with the parts [control; data]. *)
Lemma assemble_two_ok (E : Env) (pc : PackageContext) (T : list File)
    (O : gmap string File) (D : gset string) (fd fc : File) (s' : St) :
  f_pos fd = 0%nat -> f_pos fc = 0%nat ->
  assemble E [TmpRef (length T + 1); TmpRef (length T + 0)]
    {| st_pc := pc; st_w := {| w_tmp := T ++ [fd; fc]; w_out := O; w_dirs := D |} |}
    = (Ok tt, s') ->
  s' = {| st_pc := pc;
          st_w := {| w_tmp := T ++ [at_end fd; at_end fc];
                     w_out := <[Filename pc := spent (Filename pc) (f_data fc ++ f_data fd)]> O;
                     w_dirs := list_to_set (MkdirAll_chain (pc_OutDir pc)) ∪ D |} |}.
Proof.
  intros Hd Hc. unfold assemble. intros H.
  apply bind_ok in H as (pc1 & s1 & H1 & H).
  apply onPC_inv in H1 as (pc1' & H1 & ->). injection H1 as <- <-. simpl in H.
  apply bind_ok in H as ([] & s1 & H1 & H). okW H1 w1.
  apply os_MkdirAll_ok in H1 as ->. simpl in H.
  apply bind_ok in H as (outFile & s1 & H1 & H). okW H1 w1.
  apply os_Create_ok in H1 as [-> ->].
  apply defer_inv in H as (s1 & H & ->). okW H w1.
  unfold put_file in H.
  copy_one H w2. copy_one H w2.
  injection H as <-.
  unfold close. simpl. rewrite close_out. reflexivity.
Qed.

(** The same with the parts [signature; control; data]. *)
Lemma assemble_three_ok (E : Env) (pc : PackageContext) (T : list File)
    (O : gmap string File) (D : gset string) (fd fc fs : File) (s' : St) :
  f_pos fd = 0%nat -> f_pos fc = 0%nat -> f_pos fs = 0%nat ->
  assemble E [TmpRef (length T + 2); TmpRef (length T + 1); TmpRef (length T + 0)]
    {| st_pc := pc; st_w := {| w_tmp := T ++ [fd; fc; fs]; w_out := O; w_dirs := D |} |}
    = (Ok tt, s') ->
  s' = {| st_pc := pc;
          st_w := {| w_tmp := T ++ [at_end fd; at_end fc; at_end fs];
                     w_out := <[Filename pc :=
                                 spent (Filename pc) (f_data fs ++ f_data fc ++ f_data fd)]> O;
                     w_dirs := list_to_set (MkdirAll_chain (pc_OutDir pc)) ∪ D |} |}.
Proof.
  intros Hd Hc Hs. unfold assemble. intros H.
  apply bind_ok in H as (pc1 & s1 & H1 & H).
  apply onPC_inv in H1 as (pc1' & H1 & ->). injection H1 as <- <-. simpl in H.
  apply bind_ok in H as ([] & s1 & H1 & H). okW H1 w1.
  apply os_MkdirAll_ok in H1 as ->. simpl in H.
  apply bind_ok in H as (outFile & s1 & H1 & H). okW H1 w1.
  apply os_Create_ok in H1 as [-> ->].
  apply defer_inv in H as (s1 & H & ->). okW H w1.
  unfold put_file in H.
  copy_one H w2. copy_one H w2. copy_one H w2.
  injection H as <-.
  unfold close. simpl. rewrite close_out. unfold closed, spent. simpl.
  rewrite <- !app_assoc. reflexivity.
Qed.

Lemma pair_snd {A B} (x : A * B) (a : A) (b : B) : x = (a, b) -> b = snd x.
Proof. now intros ->. Qed.

(** The world a successful emission leaves behind. *)
Lemma EmitPackage_ok (E : Env) (pc0 : PackageContext) (T : list File)
    (O : gmap string File) (D : gset string) (s' : St) :
  EmitPackage E {| st_pc := pc0; st_w := {| w_tmp := T; w_out := O; w_dirs := D |} |}
    = (Ok tt, s') ->
  let pc := emitted_context E pc0 in
  let dat := data_segment E pc0 in
  let ctl := control_segment E pc in
  let key := ctx_SigningKey (pc_Context pc) in
  (key = EmptyString /\
   s' = {| st_pc := pc;
           st_w := {| w_tmp := T ++ [spent "melange-data-*.tar.gz" dat;
                                     spent "melange-control-*.tar.gz" ctl];
                      w_out := <[Filename pc := spent (Filename pc) (ctl ++ dat)]> O;
                      w_dirs := list_to_set (MkdirAll_chain (pc_OutDir pc)) ∪ D |} |})
  \/
  (key <> EmptyString /\
   exists sig : bytes,
     RSASignSHA1Digest E (sha1_Sum E ctl) key (ctx_SigningPassphrase (pc_Context pc)) = Ok sig /\
     s' = {| st_pc := pc;
             st_w := {| w_tmp := T ++ [spent "melange-data-*.tar.gz" dat;
                                       spent "melange-control-*.tar.gz" ctl;
                                       spent "melange-signature-*.tar.gz"
                                         (signature_segment E pc sig)];
                        w_out := <[Filename pc :=
                                    spent (Filename pc)
                                      (signature_segment E pc sig ++ ctl ++ dat)]> O;
                        w_dirs := list_to_set (MkdirAll_chain (pc_OutDir pc)) ∪ D |} |}).
Proof.
  intros H pc dat ctl key.
  assert (Hpc : pc = emitted_context E pc0) by reflexivity.
  assert (Hkeyeq : key = ctx_SigningKey (pc_Context pc)) by reflexivity.
  clearbody pc key. subst ctl dat.
  unfold emitted_context in Hpc.
  unfold EmitPackage in H.
  apply bind_ok in H as (dataTarGz & s1 & H1 & H). okW H1 w1.
  apply os_CreateTemp_ok in H1 as [-> ->]. simpl in H.
  apply defer_inv in H as (s1 & H & ->).
  apply bind_ok in H as (pc0' & s2 & H1 & H).
  apply onPC_inv in H1 as (? & H1 & ->). injection H1 as <- <-. simpl in H.
  apply bind_ok in H as (tarctx & s2 & H1 & H).
  apply wrap_err_ok, tarball_NewContext_ok in H1 as [-> ->].
  apply bind_ok in H as ([] & s2 & H1 & H). okPC H1 pc1.
  apply pair_snd in H1. simpl in H.
  apply bind_ok in H as ([] & s2 & H2 & H). okPC H2 pc2.
  apply pair_snd in H2. simpl in H. subst pc1 pc2.
  apply bind_ok in H as (dataDigest & s2 & H3 & H). okW H3 w3.
  replace (length T) with (length T + 0)%nat in H3, H |- * by lia.
  eapply WriteArchive_hashed_ok in H3;
    [|rewrite get_tmp; reflexivity|reflexivity|reflexivity].
  destruct H3 as [-> ->]. rewrite put_tmp in H. simpl in H.
  fold (data_segment E pc0) in H.
  apply bind_ok in H as ([] & s2 & H3 & H).
  apply onPC_inv in H3 as (? & H3 & ->). injection H3 as <-. simpl in H.
  rewrite <- Hpc in H. clear Hpc.
  apply bind_ok in H as ([] & s2 & H3 & H). okW H3 w3.
  eapply File_Seek_start_ok in H3; [|rewrite get_tmp; reflexivity].
  subst w3. rewrite put_tmp in H. simpl in H.
  apply bind_ok in H as (pc' & s2 & H3 & H).
  apply onPC_inv in H3 as (? & H3 & ->). injection H3 as <- <-. simpl in H.
  apply bind_ok in H as (multitarctx & s2 & H3 & H).
  apply wrap_err_ok, tarball_NewContext_ok in H3 as [-> ->].
  apply bind_ok in H as (controlBuf & s2 & H3 & H).
  apply wrap_err_ok in H3. injection H3 as <- <-.
  apply bind_ok in H as (controlFS & s2 & H3 & H).
  apply wrap_err_ok, memfs_WriteFile_ok in H3 as [-> ->].
  apply bind_ok in H as (controlTarGz & s2 & H3 & H). okW H3 w3.
  apply os_CreateTemp_ok in H3 as [-> ->]. simpl in H.
  rewrite length_app, <- app_assoc in H. simpl in H.
  apply defer_inv in H as (s2 & H & ->).
  apply bind_ok in H as (controlDigest & s3 & H3 & H). okW H3 w3.
  eapply WriteArchive_hashed_ok in H3;
    [|rewrite get_tmp; reflexivity|reflexivity|reflexivity].
  destruct H3 as [-> ->]. rewrite put_tmp in H. simpl in H.
  fold (control_segment E pc) in H.
  apply bind_ok in H as ([] & s3 & H3 & H). okW H3 w3.
  eapply File_Seek_start_ok in H3; [|rewrite get_tmp; reflexivity].
  subst w3. rewrite put_tmp in H. simpl in H.
  rewrite <- Hkeyeq in H.
  destruct (String.eqb_spec key EmptyString) as [Hkey|Hkey].
  - left. split; [assumption|].
    apply assemble_two_ok in H; [|reflexivity..]. subst s2.
    unfold close. simpl.
    erewrite (close_tmp T _ _ _ 1) by reflexivity.
    erewrite (close_tmp T _ _ _ 0) by reflexivity.
    reflexivity.
  - right. split; [assumption|].
    apply bind_ok in H as (signatureBuf & s3 & H3 & H).
    apply wrap_err_ok, of_result_ok in H3 as [Hsig ->].
    exists signatureBuf. split; [exact Hsig|].
    apply bind_ok in H as (signatureFS & s3 & H3 & H).
    apply wrap_err_ok, memfs_WriteFile_ok in H3 as [-> ->].
    apply bind_ok in H as (signatureTarGz & s3 & H3 & H). okW H3 w3.
    apply os_CreateTemp_ok in H3 as [-> ->]. simpl in H.
    rewrite length_app, <- app_assoc in H. simpl in H.
    apply defer_inv in H as (s3 & H & ->).
    apply bind_ok in H as ([] & s4 & H3 & H). okW H3 w3.
    eapply WriteArchive_file_ok in H3;
      [|rewrite get_tmp; reflexivity|reflexivity|reflexivity].
    subst w3. rewrite put_tmp in H. simpl in H.
    fold (signature_segment E pc signatureBuf) in H.
    apply bind_ok in H as ([] & s4 & H3 & H). okW H3 w3.
    eapply File_Seek_start_ok in H3; [|rewrite get_tmp; reflexivity].
    subst w3. rewrite put_tmp in H. simpl in H.
    apply assemble_three_ok in H; [|reflexivity..]. subst s3.
    unfold close. simpl.
    erewrite (close_tmp T _ _ _ 2) by reflexivity.
    erewrite (close_tmp T _ _ _ 1) by reflexivity.
    erewrite (close_tmp T _ _ _ 0) by reflexivity.
    reflexivity.
Qed.

(** ** What an emission leaves of the package context *)

Lemma walk_sizing_frame (visits : list Visit) :
  forall pc, let pc' := snd (walk sizing_visit visits pc) in
    pc_Context pc' = pc_Context pc /\ pc_Origin pc' = pc_Origin pc /\
    pc_PackageName pc' = pc_PackageName pc /\ pc_OutDir pc' = pc_OutDir pc.
Proof.
  induction visits as [|v rest IH]; intros pc; simpl; [auto|].
  unfold bind, sizing_visit, fail, modify.
  destruct (v_err v); [simpl; auto|].
  destruct (v_info v) as [fi|e]; [|simpl; auto].
  destruct (IH (set_InstalledSize (wrap64 (pc_InstalledSize pc + fi_size fi)) pc))
    as (H1 & H2 & H3 & H4).
  simpl in *. auto.
Qed.

Lemma emitted_context_frame (E : Env) (pc : PackageContext) :
  pc_Context (emitted_context E pc) = pc_Context pc /\
  pc_Origin (emitted_context E pc) = pc_Origin pc /\
  pc_PackageName (emitted_context E pc) = pc_PackageName pc /\
  pc_OutDir (emitted_context E pc) = pc_OutDir pc.
Proof.
  unfold emitted_context. simpl.
  destruct (walk_sizing_frame (WalkDir E (WorkspaceSubdir E pc)) pc) as (H1 & H2 & H3 & H4).
  fold (sizing E pc) in H1, H2, H3, H4.
  rewrite GenerateDependencies_unfold.
  destruct (run_generators _ _ _) as [[[]|e] g]; simpl; auto.
Qed.

Lemma Filename_emitted (E : Env) (pc : PackageContext) :
  Filename (emitted_context E pc) = Filename pc.
Proof.
  destruct (emitted_context_frame E pc) as (H1 & H2 & H3 & H4).
  unfold Filename, Identity. now rewrite H2, H3, H4.
Qed.

Lemma EmitPackage_run (E : Env) (s : St) :
  fst (EmitPackage E s) = Ok tt ->
  EmitPackage E {| st_pc := st_pc s;
                   st_w := {| w_tmp := w_tmp (st_w s); w_out := w_out (st_w s);
                              w_dirs := w_dirs (st_w s) |} |}
    = (Ok tt, snd (EmitPackage E s)).
Proof.
  destruct s as [pc [T O D]]. simpl.
  destruct (EmitPackage E _) as [r s']. simpl. now intros ->.
Qed.

(** ** The archive a successful emission writes *)

Lemma lookup_tail {A} (T l : list A) (k : nat) : (T ++ l) !! (length T + k)%nat = l !! k.
Proof. rewrite lookup_app_r by lia. f_equal. lia. Qed.

(** C3. When [EmitPackage] succeeds, the file at the final path holds, from
    its first byte to its last, the whole content of the control temporary
    file followed by the whole content of the data temporary file when no
    signing key is configured, and the whole content of the signature
    temporary file before these two when one is; the three files hold the
    signature, control and data segments, and no other temporary file is
    made. *)
Theorem C3_output_is_segments_in_order (E : Env) (s : St) :
  fst (EmitPackage E s) = Ok tt ->
  let s' := snd (EmitPackage E s) in
  let tmp := w_tmp (st_w s') in
  let n := length (w_tmp (st_w s)) in
  exists fd fc fo : File,
    tmp !! n = Some fd /\ f_data fd = data_segment E (st_pc s) /\
    tmp !! (n + 1)%nat = Some fc /\ f_data fc = control_segment E (st_pc s') /\
    w_out (st_w s') !! Filename (st_pc s) = Some fo /\
    if String.eqb (ctx_SigningKey (pc_Context (st_pc s))) EmptyString then
      length tmp = (n + 2)%nat /\
      f_data fo = f_data fc ++ f_data fd
    else
      exists (fs : File) (sig : bytes),
        tmp !! (n + 2)%nat = Some fs /\
        f_data fs = signature_segment E (st_pc s') sig /\
        length tmp = (n + 3)%nat /\
        f_data fo = f_data fs ++ f_data fc ++ f_data fd.
Proof.
  intros Hok s' tmp n. subst tmp s'.
  apply EmitPackage_run, EmitPackage_ok in Hok.
  destruct (emitted_context_frame E (st_pc s)) as (Hctx & _).
  rewrite Hctx, Filename_emitted in Hok.
  destruct Hok as [[Hkey ->] | [Hkey (sig & Hsig & ->)]]; simpl.
  - exists (spent "melange-data-*.tar.gz" (data_segment E (st_pc s))),
      (spent "melange-control-*.tar.gz" (control_segment E (emitted_context E (st_pc s)))),
      (spent (Filename (st_pc s))
         (control_segment E (emitted_context E (st_pc s)) ++ data_segment E (st_pc s))).
    subst n. rewrite Hkey. simpl.
    rewrite <- (Nat.add_0_r (length (w_tmp (st_w s)))) at 1.
    rewrite !lookup_tail, lookup_insert_eq, length_app. simpl. repeat split; lia.
  - exists (spent "melange-data-*.tar.gz" (data_segment E (st_pc s))),
      (spent "melange-control-*.tar.gz" (control_segment E (emitted_context E (st_pc s)))),
      (spent (Filename (st_pc s))
         (signature_segment E (emitted_context E (st_pc s)) sig ++
          control_segment E (emitted_context E (st_pc s)) ++ data_segment E (st_pc s))).
    subst n. apply String.eqb_neq in Hkey. rewrite Hkey.
    rewrite <- (Nat.add_0_r (length (w_tmp (st_w s)))) at 1.
    rewrite !lookup_tail, lookup_insert_eq, length_app. simpl.
    repeat split; try reflexivity.
    exists (spent "melange-signature-*.tar.gz"
              (signature_segment E (emitted_context E (st_pc s)) sig)), sig.
    repeat split; lia.
Qed.

(** C3 on the demo build: unsigned, the apk file is the control file followed
    by the data file; signed with keys/melange.rsa, the signature file comes
    first. *)
Lemma C3_witness :
  let E := Demo.env true None in
  let unsigned := st_w (snd (EmitPackage E (Demo.start E "amd64" EmptyString))) in
  let signed := st_w (snd (EmitPackage E (Demo.start E "amd64" "keys/melange.rsa"))) in
  (exists fd fc fo : File,
     w_tmp unsigned !! 0%nat = Some fd /\ w_tmp unsigned !! 1%nat = Some fc /\
     w_out unsigned !! "/out/x86_64/frob-1.0-r3.apk" = Some fo /\
     length (w_tmp unsigned) = 2%nat /\
     f_data fo = f_data fc ++ f_data fd) /\
  (exists fd fc fs fo : File,
     w_tmp signed !! 0%nat = Some fd /\ w_tmp signed !! 1%nat = Some fc /\
     w_tmp signed !! 2%nat = Some fs /\
     w_out signed !! "/out/x86_64/frob-1.0-r3.apk" = Some fo /\
     f_data fo = f_data fs ++ f_data fc ++ f_data fd).
Proof.
  intros E unsigned signed. split.
  - destruct (C3_output_is_segments_in_order E (Demo.start E "amd64" EmptyString))
      as (fd & fc & fo & H1 & _ & H2 & _ & H3 & H4 & H5); [vm_compute; reflexivity|].
    exists fd, fc, fo. repeat split; assumption.
  - destruct (C3_output_is_segments_in_order E (Demo.start E "amd64" "keys/melange.rsa"))
      as (fd & fc & fo & H1 & _ & H2 & _ & H3 & fs & sig & H4 & _ & _ & H5);
      [vm_compute; reflexivity|].
    exists fd, fc, fs, fo. repeat split; assumption.
Defined.

Lemma controlTemplate_datahash (pc : PackageContext) :
  exists head : string,
    controlTemplate pc = head +:+ "datahash = " +:+ pc_DataHash pc +:+ nl.
Proof.
  eexists. unfold controlTemplate. rewrite <- !append_assoc. reflexivity.
Qed.

(** C4. When [EmitPackage] succeeds, the [DataHash] of the context is the hex
    form of the SHA-256 digest of exactly the bytes the data temporary file
    holds; the control temporary file holds the archive of the single file
    .PKGINFO whose content is the control record rendered from that context,
    and the record ends with the line "datahash = <that digest>". *)
Theorem C4_datahash_is_digest_of_data_segment (E : Env) (s : St) :
  fst (EmitPackage E s) = Ok tt ->
  let s' := snd (EmitPackage E s) in
  let n := length (w_tmp (st_w s)) in
  exists (fd fc : File) (head : string),
    w_tmp (st_w s') !! n = Some fd /\
    w_tmp (st_w s') !! (n + 1)%nat = Some fc /\
    pc_DataHash (st_pc s') = hex.EncodeToString (sha256_Sum E (f_data fd)) /\
    f_data fc =
      concat (fst (tarball_archive E (control_options (st_pc s'))
                     (MemFS [(".PKGINFO",
                              String.list_byte_of_string (controlTemplate (st_pc s')),
                              perm_0644)]))) /\
    controlTemplate (st_pc s') =
      head +:+ "datahash = " +:+ hex.EncodeToString (sha256_Sum E (f_data fd)) +:+ nl.
Proof.
  intros Hok s' n. subst s'.
  apply EmitPackage_run, EmitPackage_ok in Hok.
  assert (Hhash : pc_DataHash (emitted_context E (st_pc s)) =
                  hex.EncodeToString (sha256_Sum E (data_segment E (st_pc s))))
    by reflexivity.
  destruct (controlTemplate_datahash (emitted_context E (st_pc s))) as [head Hhead].
  rewrite Hhash in Hhead.
  exists (spent "melange-data-*.tar.gz" (data_segment E (st_pc s))),
    (spent "melange-control-*.tar.gz" (control_segment E (emitted_context E (st_pc s)))),
    head.
  subst n. rewrite <- (Nat.add_0_r (length (w_tmp (st_w s)))) at 1.
  destruct Hok as [[Hkey ->] | [Hkey (sig & Hsig & ->)]]; simpl;
    rewrite !lookup_tail; simpl; repeat split; assumption.
Qed.

(** C4 on the demo build. *)
Lemma C4_witness :
  let E := Demo.env true None in
  let s' := snd (EmitPackage E (Demo.start E "amd64" EmptyString)) in
  exists (fd : File) (head : string),
    w_tmp (st_w s') !! 0%nat = Some fd /\
    controlTemplate (st_pc s') =
      head +:+ "datahash = " +:+ hex.EncodeToString (sha256_Sum E (f_data fd)) +:+ nl.
Proof.
  intros E s'.
  destruct (C4_datahash_is_digest_of_data_segment E (Demo.start E "amd64" EmptyString))
    as (fd & fc & head & H1 & _ & _ & _ & H2); [vm_compute; reflexivity|].
  exists fd, head. split; [exact H1 | exact H2].
Defined.

(** C10. Every rendered control record carries the line "arch = x86_64" and
    does not depend on the build context, hence not on the configured
    architecture, while [Emit] derives the output directory from [ToAPK] of
    the configured architecture.  So for every emission that succeeds,
    whatever the architecture: the control temporary file holds the archive of
    the single file .PKGINFO whose content is the record rendered from the
    final context, that record has the line "arch = x86_64", and the apk file,
    which contains the bytes of the control file, is at
    <OutDir>/<ToAPK of the architecture>/<identity>.apk. *)
Theorem C10_control_arch_is_x86_64 :
  (forall pc : PackageContext,
     strings.Contains (controlTemplate pc) (nl +:+ "arch = x86_64" +:+ nl) = true) /\
  (forall (pc : PackageContext) (c : Context),
     controlTemplate (set_Context c pc) = controlTemplate pc) /\
  (forall (E : Env) (spkg : Subpackage) (ctx : PipelineContext),
     pc_OutDir (Subpackage_context E spkg ctx) =
       filepath_Join E [ctx_OutDir (pl_Context ctx); ToAPK E (ctx_Arch (pl_Context ctx))] /\
     Filename (Subpackage_context E spkg ctx) =
       filepath_Join E [ctx_OutDir (pl_Context ctx); ToAPK E (ctx_Arch (pl_Context ctx))]
         +:+ "/" +:+ Identity (Subpackage_context E spkg ctx) +:+ ".apk") /\
  (forall (E : Env) (spkg : Subpackage) (ctx : PipelineContext) (w : World),
     fst (Subpackage_Emit E spkg ctx w) = Ok tt ->
     let s' := snd (Subpackage_Emit E spkg ctx w) in
     let dir :=
       filepath_Join E [ctx_OutDir (pl_Context ctx); ToAPK E (ctx_Arch (pl_Context ctx))] in
     exists (fc fo : File) (before after : bytes),
       w_tmp (st_w s') !! (length (w_tmp w) + 1)%nat = Some fc /\
       f_data fc =
         concat (fst (tarball_archive E (control_options (st_pc s'))
                        (MemFS [(".PKGINFO",
                                 String.list_byte_of_string (controlTemplate (st_pc s')),
                                 perm_0644)]))) /\
       strings.Contains (controlTemplate (st_pc s')) (nl +:+ "arch = x86_64" +:+ nl) = true /\
       w_out (st_w s') !! (dir +:+ "/" +:+ Identity (Subpackage_context E spkg ctx) +:+ ".apk")
         = Some fo /\
       f_data fo = before ++ f_data fc ++ after).
Proof.
  split; [|split; [|split]].
  - intros pc. rewrite controlTemplate_arch_line. apply Contains_middle.
  - reflexivity.
  - intros E spkg ctx. split; reflexivity.
  - intros E spkg ctx w Hok s' dir. subst s' dir. unfold Subpackage_Emit in *.
    set (pc0 := Subpackage_context E spkg ctx) in *.
    change (filepath_Join E [ctx_OutDir (pl_Context ctx); ToAPK E (ctx_Arch (pl_Context ctx))]
              +:+ "/" +:+ Identity pc0 +:+ ".apk") with (Filename pc0).
    apply EmitPackage_run, EmitPackage_ok in Hok. cbn [st_pc st_w] in Hok.
    rewrite Filename_emitted in Hok.
    exists (spent "melange-control-*.tar.gz" (control_segment E (emitted_context E pc0))).
    destruct Hok as [[Hkey ->] | [Hkey (sig & Hsig & ->)]]; cbn [st_pc st_w w_tmp w_out].
    + exists (spent (Filename pc0)
                (control_segment E (emitted_context E pc0) ++ data_segment E pc0)),
        [], (data_segment E pc0).
      rewrite lookup_tail, lookup_insert_eq. split; [reflexivity|]. split; [reflexivity|].
      split; [rewrite controlTemplate_arch_line; apply Contains_middle|].
      split; reflexivity.
    + exists (spent (Filename pc0)
                (signature_segment E (emitted_context E pc0) sig ++
                 control_segment E (emitted_context E pc0) ++ data_segment E pc0)),
        (signature_segment E (emitted_context E pc0) sig), (data_segment E pc0).
      rewrite lookup_tail, lookup_insert_eq. split; [reflexivity|]. split; [reflexivity|].
      split; [rewrite controlTemplate_arch_line; apply Contains_middle|].
      split; reflexivity.
Qed.

(** C10 on the demo build for arm64: the apk file goes to /out/aarch64, and
    the record in it says "arch = x86_64" and has no "arch = aarch64" line. *)
Lemma C10_witness :
  let E := Demo.env true None in
  let s' := snd (Subpackage_Emit E
                   {| sp_Name := "frob"; sp_Dependencies := pkg_Dependencies Demo.package |}
                   (Demo.context "arm64" EmptyString) Demo.world) in
  (exists fo : File, w_out (st_w s') !! "/out/aarch64/frob-1.0-r3.apk" = Some fo) /\
  strings.Contains (controlTemplate (st_pc s')) (nl +:+ "arch = x86_64" +:+ nl) = true /\
  strings.Contains (controlTemplate (st_pc s')) (nl +:+ "arch = aarch64" +:+ nl) = false.
Proof.
  intros E s'.
  destruct (proj2 (proj2 (proj2 C10_control_arch_is_x86_64)) E
              {| sp_Name := "frob"; sp_Dependencies := pkg_Dependencies Demo.package |}
              (Demo.context "arm64" EmptyString) Demo.world)
    as (fc & fo & before & after & _ & _ & Harch & Hout & _); [vm_compute; reflexivity|].
  split; [exists fo; exact Hout|]. split; [exact Harch|]. vm_compute. reflexivity.
Defined.

(** ** Base names *)

Lemma append_nil_r (a : string) : a +:+ EmptyString = a.
Proof. induction a as [|x a IH]; [reflexivity|]. rewrite append_cons. now f_equal. Qed.

Lemma strip_trailing_append (a b : string) :
  filepath.strip_trailing b <> EmptyString ->
  filepath.strip_trailing (a +:+ b) = a +:+ filepath.strip_trailing b.
Proof.
  intros Hb. induction a as [|x a IH]; [reflexivity|].
  rewrite !append_cons. simpl. rewrite IH.
  destruct (a +:+ filepath.strip_trailing b) eqn:Hab; [|reflexivity].
  destruct a; [|discriminate]. rewrite append_nil_l in Hab. contradiction.
Qed.

Lemma last_element_append (a b : string) :
  forall acc, filepath.last_element acc (a +:+ b)
                = filepath.last_element (filepath.last_element acc a) b.
Proof.
  induction a as [|x a IH]; intros acc; [reflexivity|].
  rewrite append_cons. simpl. destruct (filepath.is_sep x); apply IH.
Qed.

Lemma last_element_nonempty (s : string) :
  forall acc, s <> EmptyString -> filepath.strip_trailing s = s ->
    filepath.last_element acc s <> EmptyString.
Proof.
  induction s as [|c s IH]; intros acc Hne Hstrip; [congruence|].
  simpl in Hstrip. destruct s as [|d s].
  - simpl in *. destruct (filepath.is_sep c); [discriminate|].
    destruct acc; discriminate.
  - destruct (filepath.strip_trailing (String d s)) as [|e r] eqn:Hr.
    + destruct (filepath.is_sep c); discriminate.
    + injection Hstrip as Hstrip. 
      change (filepath.last_element acc (String c (String d s)))
        with (if filepath.is_sep c then filepath.last_element EmptyString (String d s)
              else filepath.last_element (acc +:+ String c EmptyString) (String d s)).
      destruct (filepath.is_sep c); apply IH; congruence.
Qed.

(** For a key path without a trailing slash, the base name of <key>.pub is
    the base name of <key> followed by ".pub". *)
Lemma Base_pub (key : string) :
  key <> EmptyString -> filepath.strip_trailing key = key ->
  filepath.Base (key +:+ ".pub") = filepath.Base key +:+ ".pub".
Proof.
  intros Hne Hstrip.
  pose proof (last_element_nonempty key EmptyString Hne Hstrip) as Hlast.
  unfold filepath.Base.
  destruct (key +:+ ".pub") eqn:Hk; [destruct key; [congruence|discriminate]|].
  rewrite <- Hk. clear Hk.
  rewrite strip_trailing_append by discriminate.
  rewrite last_element_append, Hstrip.
  destruct key as [|c key]; [congruence|].
  destruct (filepath.last_element EmptyString (String c key)) as [|x l]; [congruence|].
  change (filepath.strip_trailing ".pub") with ".pub".
  change (filepath.last_element (String x l) ".pub")
    with ((((String x l +:+ ".") +:+ "p") +:+ "u") +:+ "b").
  rewrite !append_assoc. reflexivity.
Qed.

(** C7. When a signing key is configured and [EmitPackage] succeeds, the
    signature temporary file holds the archive of a file system with exactly
    one file, named ".SIGN.RSA.<base name of the key path>.pub", whose content
    is what [RSASignSHA1Digest] returned for the SHA-1 digest of the bytes of
    the control temporary file; for a key path without a trailing slash the
    name is ".SIGN.RSA." followed by the base name of the public-key file
    <key path>.pub. *)
Theorem C7_signature_segment_single_entry (E : Env) (s : St) :
  fst (EmitPackage E s) = Ok tt ->
  ctx_SigningKey (pc_Context (st_pc s)) <> EmptyString ->
  let s' := snd (EmitPackage E s) in
  let n := length (w_tmp (st_w s)) in
  let key := ctx_SigningKey (pc_Context (st_pc s)) in
  exists (fc fs : File) (sig : bytes),
    w_tmp (st_w s') !! (n + 1)%nat = Some fc /\
    w_tmp (st_w s') !! (n + 2)%nat = Some fs /\
    RSASignSHA1Digest E (sha1_Sum E (f_data fc)) key
      (ctx_SigningPassphrase (pc_Context (st_pc s))) = Ok sig /\
    f_data fs =
      concat (fst (tarball_archive E (control_options (st_pc s'))
                     (MemFS [(".SIGN.RSA." +:+ filepath.Base key +:+ ".pub", sig,
                              perm_0644)]))) /\
    (filepath.strip_trailing key = key ->
     ".SIGN.RSA." +:+ filepath.Base key +:+ ".pub"
       = ".SIGN.RSA." +:+ filepath.Base (key +:+ ".pub")).
Proof.
  intros Hok Hkey s' n key. subst s' key.
  apply EmitPackage_run, EmitPackage_ok in Hok.
  destruct (emitted_context_frame E (st_pc s)) as (Hctx & _).
  rewrite Hctx in Hok.
  destruct Hok as [[Hkey' _] | [_ (sig & Hsig & ->)]]; [contradiction|].
  exists (spent "melange-control-*.tar.gz" (control_segment E (emitted_context E (st_pc s)))),
    (spent "melange-signature-*.tar.gz"
       (signature_segment E (emitted_context E (st_pc s)) sig)), sig.
  subst n. simpl. rewrite !lookup_tail. simpl. repeat split; [exact Hsig| |].
  - unfold signature_segment, SignatureName. now rewrite Hctx.
  - intros Hstrip. now rewrite Base_pub.
Qed.

(** C7 on the demo build signed with keys/melange.rsa. *)
Lemma C7_witness :
  let E := Demo.env true None in
  let s' := snd (EmitPackage E (Demo.start E "amd64" "keys/melange.rsa")) in
  exists (fs : File) (sig : bytes),
    w_tmp (st_w s') !! 2%nat = Some fs /\
    f_data fs =
      concat (fst (tarball_archive E (control_options (st_pc s'))
                     (MemFS [(".SIGN.RSA.melange.rsa.pub", sig, perm_0644)]))).
Proof.
  intros E s'.
  destruct (C7_signature_segment_single_entry E (Demo.start E "amd64" "keys/melange.rsa"))
    as (fc & fs & sig & _ & H1 & _ & H2 & _); [vm_compute; reflexivity|discriminate|].
  exists fs, sig. split; [exact H1 | exact H2].
Defined.

(** ** Every exit path *)

Lemma flags_put (w : World) (r : FileRef) (f f' : File) :
  get_file w r = Some f -> f_open f' = f_open f -> flags (put_file r f' w) = flags w.
Proof.
  destruct r as [i|p]; simpl; intros Hget Hopen; [|reflexivity].
  unfold flags. simpl. rewrite list_fmap_insert. apply list_insert_id.
  rewrite list_lookup_fmap, Hget. simpl. now rewrite Hopen.
Qed.

Lemma out_put_tmp (w : World) (i : nat) (f : File) :
  w_out (put_file (TmpRef i) f w) = w_out w.
Proof. reflexivity. Qed.

Lemma File_Write_flags (E : Env) (r : FileRef) (p : bytes) (w : World) :
  flags (snd (File_Write E r p w)) = flags w.
Proof.
  unfold File_Write. destruct (get_file w r) as [f|] eqn:Hget; [|reflexivity].
  destruct (f_open f); [|reflexivity].
  destruct (os_write_fault E w r p) as [[n e]|]; simpl; now apply (flags_put w r f).
Qed.

Lemma File_Write_out (E : Env) (i : nat) (p : bytes) (w : World) :
  w_out (snd (File_Write E (TmpRef i) p w)) = w_out w.
Proof.
  unfold File_Write. destruct (get_file w (TmpRef i)) as [f|]; [|reflexivity].
  destruct (f_open f); [|reflexivity].
  destruct (os_write_fault E w (TmpRef i) p) as [[n e]|]; reflexivity.
Qed.

Lemma write_all_file_still (E : Env) (i : nat) (chunks : list bytes) :
  forall w, let w' := snd (write_all (file_Writer E (TmpRef i)) chunks w) in
    flags w' = flags w /\ w_out w' = w_out w.
Proof.
  induction chunks as [|c rest IH]; intros w; simpl; [auto|].
  pose proof (File_Write_flags E (TmpRef i) c w) as Hf.
  pose proof (File_Write_out E i c w) as Ho.
  destruct (File_Write E (TmpRef i) c w) as [[n [e|]] w1]; simpl in *; [auto|].
  destruct (IH w1) as [IH1 IH2]. split; congruence.
Qed.

Lemma write_all_hashed_still (E : Env) (i : nat) (chunks : list bytes) :
  forall h w,
    let hw := snd (write_all (io_MultiWriter hash_Writer (file_Writer E (TmpRef i)))
                     chunks (h, w)) in
    flags (snd hw) = flags w /\ w_out (snd hw) = w_out w.
Proof.
  induction chunks as [|c rest IH]; intros h w; simpl; [auto|].
  rewrite Nat.eqb_refl. simpl.
  pose proof (File_Write_flags E (TmpRef i) c w) as Hf.
  pose proof (File_Write_out E i c w) as Ho.
  destruct (File_Write E (TmpRef i) c w) as [[n [e|]] w1]; simpl in *; [auto|].
  destruct (negb (n =? length c)%nat); simpl; [auto|].
  destruct (IH (h ++ c) w1) as [IH1 IH2]. split; congruence.
Qed.

Lemma quiet_onW {A} (m : M World A) :
  (forall w, flags (snd (m w)) = flags w /\ w_out (snd (m w)) = w_out w) ->
  quiet (onW m).
Proof.
  intros H s. unfold onW, zoom. specialize (H (st_w s)).
  destruct (m (st_w s)) as [r w']. exact H.
Qed.

Lemma quiet_onPC {A} (m : M PackageContext A) : quiet (onPC m).
Proof.
  intros s. unfold onPC, zoom. destruct (m (st_pc s)) as [r pc']. now split.
Qed.

Lemma quiet_wrap_err {A} (msg : string) (m : M St A) : quiet m -> quiet (wrap_err msg m).
Proof.
  intros H s. specialize (H s). unfold wrap_err.
  destruct (m s) as [[a|e] s']; exact H.
Qed.

Lemma quiet_NewContext (E : Env) (opts : TarContext) :
  quiet (tarball_NewContext (S := St) E opts).
Proof.
  intros s. unfold tarball_NewContext. destruct (tarball_option_err E opts); now split.
Qed.

Lemma quiet_memfs (E : Env) (path : string) (data : bytes) (perm : Z) :
  quiet (memfs_WriteFile (S := St) E path data perm).
Proof.
  intros s. unfold memfs_WriteFile. destruct (memfs_reject E path); now split.
Qed.

Lemma quiet_of_result {A} (r : result A) : quiet (of_result (S := St) r).
Proof. intros s. destruct r; now split. Qed.

Lemma quiet_hashed (E : Env) (ctx : TarContext) (i : nat) (src : FS) :
  quiet (onW (WriteArchive_hashed E ctx (TmpRef i) src)).
Proof.
  apply quiet_onW. intros w. unfold WriteArchive_hashed, WriteArchive.
  pose proof (write_all_hashed_still E i (fst (tarball_archive E ctx src)) [] w) as H.
  destruct (write_all _ _ _) as [[e|] hw]; simpl in *; [exact H|].
  destruct (snd (tarball_archive E ctx src)); exact H.
Qed.

Lemma quiet_archive (E : Env) (ctx : TarContext) (i : nat) (src : FS) :
  quiet (onW (WriteArchive E ctx (file_Writer E (TmpRef i)) src)).
Proof.
  apply quiet_onW. intros w. unfold WriteArchive.
  pose proof (write_all_file_still E i (fst (tarball_archive E ctx src)) w) as H.
  destruct (write_all _ _ _) as [[e|] w']; simpl in *; [exact H|].
  destruct (snd (tarball_archive E ctx src)); exact H.
Qed.

Lemma quiet_Seek (E : Env) (i : nat) : quiet (onW (File_Seek_start E (TmpRef i))).
Proof.
  apply quiet_onW. intros w. unfold File_Seek_start.
  destruct (os_fault E _); [now split|].
  destruct (get_file w (TmpRef i)) as [f|] eqn:Hget; [|now split].
  destruct (f_open f); [|now split].
  split; [now apply (flags_put w _ f) | reflexivity].
Qed.

Lemma flags_close_tmp (i : nat) (w : World) :
  flags (File_Close (TmpRef i) w) = <[i:=false]> (flags w).
Proof.
  unfold File_Close. destruct (get_file w (TmpRef i)) as [f|] eqn:Hget.
  - unfold flags. simpl. now rewrite list_fmap_insert.
  - simpl in Hget. apply lookup_ge_None in Hget.
    rewrite list_insert_ge; [reflexivity|]. unfold flags. now rewrite length_fmap.
Qed.

Lemma out_close_tmp (i : nat) (w : World) : w_out (File_Close (TmpRef i) w) = w_out w.
Proof.
  unfold File_Close. destruct (get_file w (TmpRef i)); reflexivity.
Qed.

Lemma flags_close (r : FileRef) (w : World) (p : string) :
  r = OutRef p -> flags (File_Close r w) = flags w.
Proof.
  intros ->. unfold File_Close. destruct (get_file w (OutRef p)); reflexivity.
Qed.

Lemma contained_quiet_then {A B} (m : M St A) (k : A -> M St B) :
  quiet m -> (forall a, contained (k a)) -> contained (bind m k).
Proof.
  intros Hm Hk s. unfold bind. destruct (Hm s) as [Hf Ho].
  destruct (m s) as [[a|e] s1]; simpl in *.
  - destruct (Hk a s1) as [[n Hn] He]. split.
    + exists n. now rewrite Hn, Hf.
    + intros e H. rewrite <- Ho. now apply He.
  - split; [exists 0%nat; now rewrite app_nil_r|]. intros e' _. now left.
Qed.

Lemma contained_if {A} (c : bool) (a b : M St A) :
  contained a -> contained b -> contained (if c then a else b).
Proof. now destruct c. Qed.

(** A temporary file made and closed by [defer]: one more closed file at the
    end. *)
Lemma contained_scoped {A} (E : Env) (msg pattern : string) (body : FileRef -> M St A) :
  (forall i, contained (body (TmpRef i))) ->
  contained (bind (wrap_err msg (onW (os_CreateTemp E pattern)))
               (fun h => defer (close h) (body h))).
Proof.
  intros Hbody s. unfold bind, wrap_err, onW, zoom, os_CreateTemp.
  destruct (os_fault E _) as [e|]; simpl.
  { split; [exists 0%nat; now rewrite app_nil_r|]. intros e' _. now left. }
  unfold defer.
  match goal with |- context [body (TmpRef ?i) ?s1] =>
    destruct (Hbody i s1) as [[n Hn] He]; destruct (body (TmpRef i) s1) as [r s2] end.
  cbn [fst snd st_w st_pc w_out w_tmp close] in *. split.
  - exists (S n). rewrite flags_close_tmp, Hn. unfold flags at 1 2.
    cbn [w_tmp]. rewrite fmap_app, <- app_assoc.
    replace (length (w_tmp (st_w s))) with (length (f_open <$> w_tmp (st_w s)) + 0)%nat
      by (rewrite length_fmap; lia).
    now rewrite insert_app_r.
  - intros e H. rewrite out_close_tmp. now apply He.
Qed.

Lemma io_Copy_flags (E : Env) (dst src : FileRef) (w : World) :
  flags (snd (io_Copy E dst src w)) = flags w.
Proof.
  unfold io_Copy. destruct (get_file w src) as [f|] eqn:Hget; [|reflexivity].
  destruct (f_open f); [|reflexivity].
  destruct (drop (f_pos f) (f_data f)) as [|b q]; [reflexivity|].
  pose proof (File_Write_flags E dst (b :: q) (put_file src (at_end f) w)) as H.
  rewrite (flags_put w src f) in H by (assumption || reflexivity).
  destruct (File_Write E dst (b :: q) _) as [[n [e|]] w']; exact H.
Qed.

Lemma combine_flags (E : Env) (out : FileRef) (inputs : list FileRef) :
  forall w, flags (snd (combine E out inputs w)) = flags w.
Proof.
  induction inputs as [|input rest IH]; intros w; [reflexivity|].
  simpl. unfold bind. pose proof (io_Copy_flags E out input w) as H.
  destruct (io_Copy E out input w) as [[[]|e] w1]; cbn [snd] in *; [|exact H].
  now rewrite IH.
Qed.

Lemma quiet_MkdirAll (E : Env) (path : string) : quiet (onW (os_MkdirAll E path)).
Proof.
  apply quiet_onW. intros w. unfold os_MkdirAll. destruct (os_fault E _); now split.
Qed.

Lemma wrap_HasPrefix (msg : string) (e : error) :
  strings.HasPrefix (wrap msg e) (msg +:+ ": ") = true.
Proof. unfold wrap. rewrite <- append_assoc. apply HasPrefix_append. Qed.

(** The end of [EmitPackage]: no temporary file is made or reopened, and
    only a failed copy can leave something new at the final path. *)
Lemma contained_assemble (E : Env) (parts : list FileRef) : contained (assemble E parts).
Proof.
  unfold assemble.
  apply contained_quiet_then; [apply quiet_onPC | intros pc].
  apply contained_quiet_then; [apply quiet_wrap_err, quiet_MkdirAll | intros _].
  intros s. unfold bind, wrap_err, onW, zoom, os_Create, defer.
  destruct (os_fault E _) as [e|]; cbn [fst snd st_w st_pc].
  { split; [exists 0%nat; now rewrite app_nil_r|]. intros e' _. now left. }
  pose proof (combine_flags E (OutRef (Filename pc)) parts
                (put_file (OutRef (Filename pc)) (fresh_file (Filename pc)) (st_w s))) as Hf.
  destruct (combine E _ parts _) as [[[]|e] w1]; cbn [fst snd st_w st_pc close] in *.
  - split; [|discriminate].
    exists 0%nat. rewrite app_nil_r, (flags_close _ _ (Filename pc)) by reflexivity.
    exact Hf.
  - split.
    + exists 0%nat. rewrite app_nil_r, (flags_close _ _ (Filename pc)) by reflexivity.
      exact Hf.
    + intros e' [= <-]. right.
      apply (wrap_HasPrefix "unable to write apk file" e).
Qed.

Ltac quiet_solve :=
  repeat first
    [ apply quiet_wrap_err | apply quiet_onPC | apply quiet_NewContext
    | apply quiet_memfs | apply quiet_of_result | apply quiet_hashed
    | apply quiet_archive | apply quiet_Seek ].

Ltac contained_step :=
  cbv zeta;
  first
    [ apply contained_scoped; intros ?
    | apply contained_if
    | apply contained_assemble
    | apply contained_quiet_then; [solve [quiet_solve] | intros ?] ].

Lemma contained_EmitPackage (E : Env) : contained (EmitPackage E).
Proof. unfold EmitPackage. repeat contained_step. Qed.

(** C6 (amended). On every exit path of [EmitPackage], success or failure,
    the temporary files that existed before are still there with their
    handles as they were, and the temporary files the emission has made are
    still there too, each with its handle closed: none is removed.  When the
    emission fails, the final paths hold what they held before, unless the
    failure is that of copying the segments into the apk file. *)
Theorem C6_exit_paths_close_handles_keep_files (E : Env) (s : St) :
  (exists k : nat,
     flags (st_w (snd (EmitPackage E s))) = flags (st_w s) ++ replicate k false) /\
  (forall e : error,
     fst (EmitPackage E s) = Err e ->
     w_out (st_w (snd (EmitPackage E s))) = w_out (st_w s) \/
     strings.HasPrefix e "unable to write apk file: " = true).
Proof. exact (contained_EmitPackage E s). Qed.

(** C6 on the demo build when the key cannot be read: the emission fails at
    signing, nothing is at the final path, and the data and control temporary
    files are closed and still there. *)
Lemma C6_witness :
  let E := Demo.env false None in
  let s := Demo.start E "amd64" "keys/melange.rsa" in
  fst (EmitPackage E s) = Err "unable to generate signature: unable to parse key" /\
  flags (st_w (snd (EmitPackage E s))) = [false; false] /\
  w_out (st_w (snd (EmitPackage E s))) = w_out (st_w s).
Proof.
  intros E s.
  assert (Hfail : fst (EmitPackage E s)
                  = Err "unable to generate signature: unable to parse key")
    by (vm_compute; reflexivity).
  split; [exact Hfail|]. split; [vm_compute; reflexivity|].
  destruct (proj2 (C6_exit_paths_close_handles_keep_files E s) _ Hfail) as [H|H];
    [exact H | vm_compute in H; discriminate H].
Defined.

(** C6, as stated, fails: on the demo build with room for five bytes at the
    final path, the emission fails while copying, the final path holds a file
    of five bytes, and both temporary files are still in the temporary
    directory. *)
Lemma C6_counterexample :
  let E := Demo.env true (Some 5%nat) in
  let s := Demo.start E "amd64" EmptyString in
  let s' := snd (EmitPackage E s) in
  fst (EmitPackage E s) = Err "unable to write apk file: no space left on device" /\
  w_out (st_w s) !! "/out/x86_64/frob-1.0-r3.apk" = None /\
  (f_data <$> w_out (st_w s') !! "/out/x86_64/frob-1.0-r3.apk")
    = Some (take 5 (control_segment E (st_pc s'))) /\
  w_tmp (st_w s) = [] /\
  f_name <$> w_tmp (st_w s') = ["melange-data-*.tar.gz"; "melange-control-*.tar.gz"].
Proof. vm_compute. repeat split. Qed.

(** * Further properties *)

(** ** [dedup] beyond sortedness *)

#[global] Instance str_le_antisym : AntiSymm (=) str_le.
Proof. intros a b. apply String.leb_antisym. Qed.

Lemma sort_Strings_perm (l1 l2 : list string) :
  l1 ≡ₚ l2 -> sort_Strings l1 = sort_Strings l2.
Proof.
  intros H. unfold sort_Strings.
  apply (StronglySorted_unique str_le);
    [apply (StronglySorted_merge_sort _)..|].
  now rewrite !merge_sort_Permutation.
Qed.

Lemma sort_Strings_sorted (l : list string) :
  StronglySorted str_le l -> sort_Strings l = l.
Proof.
  intros H. unfold sort_Strings.
  apply (StronglySorted_unique str_le);
    [apply (StronglySorted_merge_sort _)|exact H|apply merge_sort_Permutation].
Qed.

Lemma dedup_loop_strict (l : list string) :
  forall prev, StronglySorted str_lt l -> Forall (str_lt prev) l ->
    dedup_loop prev l [] = l.
Proof.
  induction l as [|cur rest IH]; intros prev Hs Hp; [reflexivity|].
  apply StronglySorted_inv in Hs as [Hs Hcur].
  apply Forall_cons in Hp as [Hpc Hp]. simpl.
  destruct (String.eqb_spec cur prev) as [-> | Hne].
  - now apply str_lt_irrefl in Hpc.
  - rewrite dedup_loop_out. simpl. f_equal. now apply IH.
Qed.

Lemma strictly_sorted_le (l : list string) :
  StronglySorted str_lt l -> StronglySorted str_le l.
Proof.
  induction 1 as [|x l Hs IH Hx]; constructor; [assumption|].
  eapply Forall_impl; [exact Hx|]. intros y Hy. apply str_le_lt_or_eq. now left.
Qed.

(** X1. [dedup] keeps every entry of its input except the empty string, and
    returns nothing that was not in its input. *)
Theorem X1_dedup_keeps_all_but_empty (l : list string) (x : string) :
  x ∈ dedup l <-> x ∈ l /\ x <> EmptyString.
Proof. apply dedup_elem. Qed.

Lemma dedup_perm (l1 l2 : list string) : l1 ≡ₚ l2 -> dedup l1 = dedup l2.
Proof. intros H. unfold dedup. now rewrite (sort_Strings_perm l1 l2). Qed.

(** X2. The result of [dedup] does not depend on the order of its input. *)
Theorem X2_dedup_order_insensitive (l1 l2 : list string) :
  l1 ≡ₚ l2 -> dedup l1 = dedup l2.
Proof. apply dedup_perm. Qed.

Lemma X2_witness :
  dedup ["so:b"; "cmd:a"; "so:b"] = dedup ["so:b"; "so:b"; "cmd:a"].
Proof.
  apply X2_dedup_order_insensitive. apply perm_skip, perm_swap.
Defined.

(** X3. [dedup] is idempotent: its result is sorted, free of repetitions and
    of the empty string, and such a list is returned as it is. *)
Theorem X3_dedup_idempotent (l : list string) : dedup (dedup l) = dedup l.
Proof.
  pose proof (dedup_strictly_sorted l) as Hs.
  assert (Hne : Forall (str_lt EmptyString) (dedup l)).
  { apply Forall_forall. intros x Hx. apply dedup_elem in Hx as [_ Hx].
    destruct (proj1 (str_le_lt_or_eq EmptyString x) (str_le_empty x)); congruence. }
  unfold dedup at 1.
  rewrite sort_Strings_sorted by now apply strictly_sorted_le.
  now apply dedup_loop_strict.
Qed.

(** ** The generators as appenders *)

Lemma deps_app_nil (g : Dependencies) :
  g = {| Runtime := Runtime g ++ []; Provides := Provides g ++ [] |}.
Proof. destruct g. simpl. now rewrite !app_nil_r. Qed.

(** What a callback does to the accumulator does not depend on what is
    already in it: it appends fixed lists and returns a fixed outcome. *)
Lemma so_visit_shape (E : Env) (pc : PackageContext) (v : Visit) :
  exists (r : result unit) (R P : list string),
    (forall g, so_visit E pc v g =
                 (r, {| Runtime := Runtime g ++ R; Provides := Provides g ++ P |})) /\
    Forall (fun x => strings.HasPrefix x "so:" = true) R /\
    Forall (fun x => strings.HasPrefix x "so:" = true) P.
Proof.
  unfold so_visit.
  destruct (v_err v) as [e|].
  { exists (Err e), [], []. split; [intros g; unfold fail; f_equal; apply deps_app_nil|auto]. }
  destruct (v_info v) as [fi|e].
  2:{ exists (Err e), [], []. split; [intros g; unfold fail; f_equal; apply deps_app_nil|auto]. }
  cbv zeta.
  destruct (negb _).
  { exists (Ok tt), [], []. split; [intros g; unfold ret; f_equal; apply deps_app_nil|auto]. }
  destruct (exec_by_all _).
  2:{ exists (Ok tt), [], []. split; [intros g; unfold ret; f_equal; apply deps_app_nil|auto]. }
  unfold bind, so_imports, modify, ret, add_Provides, add_Runtime.
  destruct (elf_Open E _) as [ef|e]; [destruct (ImportedLibraries ef) as [libs|e]|];
    destruct (strings.Contains _ ".so.").
  - eexists (Ok tt), (map (fun lib => "so:" +:+ lib) libs), [_].
    split; [intros g; reflexivity|]. split; [|repeat constructor].
    apply Forall_forall. intros x Hx. apply list_elem_of_In, in_map_iff in Hx as (lib & <- & _).
    reflexivity.
  - exists (Ok tt), (map (fun lib => "so:" +:+ lib) libs), [].
    split; [intros g; simpl; now rewrite app_nil_r|]. split; [|constructor].
    apply Forall_forall. intros x Hx. apply list_elem_of_In, in_map_iff in Hx as (lib & <- & _).
    reflexivity.
  - eexists (Ok tt), [], [_]. split; [intros g; simpl; rewrite app_nil_r; reflexivity|].
    split; repeat constructor.
  - exists (Ok tt), [], []. split; [intros g; simpl; f_equal; apply deps_app_nil|].
    split; constructor.
  - eexists (Ok tt), [], [_]. split; [intros g; simpl; rewrite app_nil_r; reflexivity|].
    split; repeat constructor.
  - exists (Ok tt), [], []. split; [intros g; simpl; f_equal; apply deps_app_nil|].
    split; constructor.
Qed.

Lemma cmd_visit_shape (pc : PackageContext) (v : Visit) :
  exists (r : result unit) (P : list string),
    (forall g, cmd_visit pc v g =
                 (r, {| Runtime := Runtime g; Provides := Provides g ++ P |})) /\
    Forall (fun x => strings.HasPrefix x "cmd:" = true) P.
Proof.
  assert (Hid : forall g : Dependencies,
            g = {| Runtime := Runtime g; Provides := Provides g ++ [] |}).
  { intros []. simpl. now rewrite app_nil_r. }
  unfold cmd_visit.
  destruct (v_err v) as [e|].
  { exists (Err e), []. split; [intros g; unfold fail; f_equal; apply Hid|auto]. }
  destruct (v_info v) as [fi|e].
  2:{ exists (Err e), []. split; [intros g; unfold fail; f_equal; apply Hid|auto]. }
  cbv zeta.
  destruct (negb _).
  { exists (Ok tt), []. split; [intros g; unfold ret; f_equal; apply Hid|auto]. }
  destruct (exec_by_all _).
  2:{ exists (Ok tt), []. split; [intros g; unfold ret; f_equal; apply Hid|auto]. }
  destruct (strings.Contains _ "bin").
  - eexists (Ok tt), [_]. split; [intros g; reflexivity | repeat constructor].
  - exists (Ok tt), []. split; [intros g; unfold ret; f_equal; apply Hid|auto].
Qed.

Lemma walk_so_shape (E : Env) (pc : PackageContext) (visits : list Visit) :
  exists (r : result unit) (R P : list string),
    (forall g, walk (so_visit E pc) visits g =
                 (r, {| Runtime := Runtime g ++ R; Provides := Provides g ++ P |})) /\
    Forall (fun x => strings.HasPrefix x "so:" = true) R /\
    Forall (fun x => strings.HasPrefix x "so:" = true) P.
Proof.
  induction visits as [|v rest (r' & R' & P' & IH & HR' & HP')].
  - exists (Ok tt), [], []. split; [intros g; simpl; unfold ret; f_equal; apply deps_app_nil|auto].
  - destruct (so_visit_shape E pc v) as (r & R & P & Hv & HR & HP).
    destruct r as [[]|e].
    + exists r', (R ++ R'), (P ++ P'). split; [|split; now apply Forall_app].
      intros g. simpl. unfold bind. rewrite Hv, IH. simpl. now rewrite !app_assoc.
    + exists (Err e), R, P. split; [|now split].
      intros g. simpl. unfold bind. now rewrite Hv.
Qed.

Lemma walk_cmd_shape (pc : PackageContext) (visits : list Visit) :
  exists (r : result unit) (P : list string),
    (forall g, walk (cmd_visit pc) visits g =
                 (r, {| Runtime := Runtime g; Provides := Provides g ++ P |})) /\
    Forall (fun x => strings.HasPrefix x "cmd:" = true) P.
Proof.
  induction visits as [|v rest (r' & P' & IH & HP')].
  - exists (Ok tt), []. split; [|auto].
    intros []. simpl. unfold ret. now rewrite app_nil_r.
  - destruct (cmd_visit_shape pc v) as (r & P & Hv & HP).
    destruct r as [[]|e].
    + exists r', (P ++ P'). split; [|now apply Forall_app].
      intros g. simpl. unfold bind. rewrite Hv, IH. simpl. now rewrite !app_assoc.
    + exists (Err e), P. split; [|assumption].
      intros g. simpl. unfold bind. now rewrite Hv.
Qed.

(** X4. Whatever their outcome, the generators only append: the shared-object
    generator adds entries that start with "so:" at the end of [Runtime] and
    of [Provides], the command generator adds entries that start with "cmd:"
    at the end of [Provides] and leaves [Runtime] alone; what was accumulated
    before stays in place. *)
Theorem X4_generators_only_append (E : Env) (pc : PackageContext) (g : Dependencies) :
  (exists R P : list string,
     snd (generateSharedObjectNameDeps E pc g) =
       {| Runtime := Runtime g ++ R; Provides := Provides g ++ P |} /\
     Forall (fun x => strings.HasPrefix x "so:" = true) R /\
     Forall (fun x => strings.HasPrefix x "so:" = true) P) /\
  (exists P : list string,
     snd (generateCmdProviders E pc g) =
       {| Runtime := Runtime g; Provides := Provides g ++ P |} /\
     Forall (fun x => strings.HasPrefix x "cmd:" = true) P).
Proof.
  split.
  - destruct (walk_so_shape E pc (WalkDir E (WorkspaceSubdir E pc)))
      as (r & R & P & H & HR & HP).
    exists R, P. unfold generateSharedObjectNameDeps. now rewrite H.
  - destruct (walk_cmd_shape pc (WalkDir E (WorkspaceSubdir E pc))) as (r & P & H & HP).
    exists P. unfold generateCmdProviders. now rewrite H.
Qed.

(** The two generators in the order of [GenerateDependencies], from an empty
    accumulator. *)
Lemma run_generators_shape (E : Env) (pc : PackageContext) :
  exists (r : result unit) (R P1 P2 : list string),
    (forall g,
       run_generators [generateSharedObjectNameDeps E; generateCmdProviders E] pc g =
         (r, {| Runtime := Runtime g ++ R; Provides := Provides g ++ P1 ++ P2 |})) /\
    Forall (fun x => strings.HasPrefix x "so:" = true) R /\
    Forall (fun x => strings.HasPrefix x "so:" = true) P1 /\
    Forall (fun x => strings.HasPrefix x "cmd:" = true) P2.
Proof.
  destruct (walk_so_shape E pc (WalkDir E (WorkspaceSubdir E pc)))
    as (r1 & R & P1 & H1 & HR & HP1).
  destruct (walk_cmd_shape pc (WalkDir E (WorkspaceSubdir E pc))) as (r2 & P2 & H2 & HP2).
  destruct r1 as [[]|e].
  - exists r2, R, P1, P2. split; [|auto].
    intros g. simpl. unfold bind, generateSharedObjectNameDeps, generateCmdProviders.
    rewrite H1, H2. simpl. destruct r2 as [[]|e]; now rewrite app_assoc.
  - exists (Err e), R, P1, []. split; [|auto].
    intros g. simpl. unfold bind, generateSharedObjectNameDeps.
    rewrite H1. now rewrite app_nil_r.
Qed.

(** X5. When [GenerateDependencies] succeeds, every final [Runtime] entry was
    declared or starts with "so:", every final [Provides] entry was declared
    or starts with "so:" or "cmd:", and every declared entry other than the
    empty string is still there. *)
Theorem X5_final_dependencies_provenance (E : Env) (pc : PackageContext) :
  match GenerateDependencies E pc with
  | (Ok _, pc') =>
      (forall x, x ∈ Runtime (pc_Dependencies pc') ->
         x ∈ Runtime (pc_Dependencies pc) \/ strings.HasPrefix x "so:" = true) /\
      (forall x, x ∈ Provides (pc_Dependencies pc') ->
         x ∈ Provides (pc_Dependencies pc) \/ strings.HasPrefix x "so:" = true \/
         strings.HasPrefix x "cmd:" = true) /\
      (forall x, x <> EmptyString -> x ∈ Runtime (pc_Dependencies pc) ->
         x ∈ Runtime (pc_Dependencies pc')) /\
      (forall x, x <> EmptyString -> x ∈ Provides (pc_Dependencies pc) ->
         x ∈ Provides (pc_Dependencies pc'))
  | (Err _, _) => True
  end.
Proof.
  rewrite GenerateDependencies_unfold.
  destruct (run_generators_shape E pc) as (r & R & P1 & P2 & H & HR & HP1 & HP2).
  rewrite H. destruct r as [[]|e]; [|exact I]. simpl.
  rewrite Forall_forall in HR, HP1, HP2.
  repeat split; intros x.
  - rewrite dedup_elem, elem_of_app. intros [[Hx|Hx] _]; [now left|right; now apply HR].
  - rewrite dedup_elem, !elem_of_app.
    intros [[Hx|[Hx|Hx]] _];
      [now left|right; left; now apply HP1|right; right; now apply HP2].
  - intros Hne Hx. apply dedup_elem. split; [|exact Hne]. apply elem_of_app. now left.
  - intros Hne Hx. apply dedup_elem. split; [|exact Hne]. apply elem_of_app. now left.
Qed.

Lemma walk_so_nothing (E : Env) (pc : PackageContext) (visits : list Visit) :
  first_walk_error visits = None ->
  (forall v fi, v ∈ visits -> v_info v = Ok fi ->
     FileMode.IsRegular (fi_mode fi) && exec_by_all (fi_mode fi) = false) ->
  forall g, walk (so_visit E pc) visits g = (Ok tt, g).
Proof.
  induction visits as [|v rest IH]; intros Herr Hplain g; [reflexivity|].
  simpl in Herr. simpl. unfold bind.
  destruct (v_err v) as [e|] eqn:He; [discriminate|].
  destruct (v_info v) as [fi|e] eqn:Hi; [|discriminate].
  assert (Hv : so_visit E pc v g = (Ok tt, g)).
  { unfold so_visit. rewrite He, Hi. cbv zeta.
    specialize (Hplain v fi (list_elem_of_here _ _) Hi).
    destruct (FileMode.IsRegular _); [|reflexivity]. simpl in *. now rewrite Hplain. }
  rewrite Hv. apply IH; [exact Herr|].
  intros v' fi' Hin. apply Hplain. now apply list_elem_of_further.
Qed.

Lemma walk_cmd_nothing (pc : PackageContext) (visits : list Visit) :
  first_walk_error visits = None ->
  (forall v fi, v ∈ visits -> v_info v = Ok fi ->
     FileMode.IsRegular (fi_mode fi) && exec_by_all (fi_mode fi) = false) ->
  forall g, walk (cmd_visit pc) visits g = (Ok tt, g).
Proof.
  induction visits as [|v rest IH]; intros Herr Hplain g; [reflexivity|].
  simpl in Herr. simpl. unfold bind.
  destruct (v_err v) as [e|] eqn:He; [discriminate|].
  destruct (v_info v) as [fi|e] eqn:Hi; [|discriminate].
  assert (Hv : cmd_visit pc v g = (Ok tt, g)).
  { unfold cmd_visit. rewrite He, Hi. cbv zeta.
    specialize (Hplain v fi (list_elem_of_here _ _) Hi).
    destruct (FileMode.IsRegular _); [|reflexivity]. simpl in *. now rewrite Hplain. }
  rewrite Hv. apply IH; [exact Herr|].
  intros v' fi' Hin. apply Hplain. now apply list_elem_of_further.
Qed.

(** X6. On a tree that is walked without error and holds no regular file with
    all of 0555 set, [GenerateDependencies] succeeds and the collections it
    stores in the context are the declared ones, sorted and without
    repetition: nothing is inferred. *)
Theorem X6_nothing_executable_nothing_inferred (E : Env) (pc : PackageContext) :
  first_walk_error (WalkDir E (WorkspaceSubdir E pc)) = None ->
  (forall v fi, v ∈ WalkDir E (WorkspaceSubdir E pc) -> v_info v = Ok fi ->
     FileMode.IsRegular (fi_mode fi) && exec_by_all (fi_mode fi) = false) ->
  fst (GenerateDependencies E pc) = Ok tt /\
  pc_Dependencies (snd (GenerateDependencies E pc)) =
    {| Runtime := dedup (Runtime (pc_Dependencies pc));
       Provides := dedup (Provides (pc_Dependencies pc)) |}.
Proof.
  intros Herr Hplain. rewrite GenerateDependencies_unfold. simpl. unfold bind.
  unfold generateSharedObjectNameDeps, generateCmdProviders.
  rewrite (walk_so_nothing E pc _ Herr Hplain), (walk_cmd_nothing pc _ Herr Hplain).
  simpl. now rewrite !app_nil_r.
Qed.

Lemma X6_witness :
  let E := with_WalkDir Demo.plain_tree (Demo.env true None) in
  fst (GenerateDependencies E (Demo.pc E "amd64" EmptyString)) = Ok tt /\
  pc_Dependencies (snd (GenerateDependencies E (Demo.pc E "amd64" EmptyString))) =
    {| Runtime := ["so:libc.so.6"]; Provides := [] |}.
Proof.
  intros E.
  apply (X6_nothing_executable_nothing_inferred E (Demo.pc E "amd64" EmptyString));
    [reflexivity|].
  intros v fi Hin Hinfo. apply list_elem_of_In in Hin. simpl in Hin.
  destruct Hin as [<-|[<-|[<-|[]]]]; injection Hinfo as <-; reflexivity.
Defined.

(** X7. The order of the two generators does not matter: run in either
    order they fail or succeed alike, and when they succeed they leave the
    same [Runtime] and the same [Provides] entries, so that the merge gives
    the same collections. *)
Theorem X7_generator_order_irrelevant (E : Env) (pc : PackageContext) (g : Dependencies) :
  let so_first :=
    run_generators [generateSharedObjectNameDeps E; generateCmdProviders E] pc g in
  let cmd_first :=
    run_generators [generateCmdProviders E; generateSharedObjectNameDeps E] pc g in
  fst so_first = fst cmd_first /\
  (fst so_first = Ok tt ->
   Runtime (snd so_first) = Runtime (snd cmd_first) /\
   Provides (snd so_first) ≡ₚ Provides (snd cmd_first) /\
   forall declared,
     dedup (declared ++ Provides (snd so_first)) =
     dedup (declared ++ Provides (snd cmd_first))).
Proof.
  intros so_first cmd_first. subst so_first cmd_first. simpl. unfold bind.
  unfold generateSharedObjectNameDeps, generateCmdProviders.
  pose proof (walk_so_outcome E pc (WalkDir E (WorkspaceSubdir E pc))) as Hso.
  pose proof (walk_cmd_outcome pc (WalkDir E (WorkspaceSubdir E pc))) as Hcmd.
  destruct (walk_so_shape E pc (WalkDir E (WorkspaceSubdir E pc)))
    as (r1 & R & P1 & H1 & _).
  destruct (walk_cmd_shape pc (WalkDir E (WorkspaceSubdir E pc))) as (r2 & P2 & H2 & _).
  specialize (Hso g). specialize (Hcmd g). rewrite H1 in Hso. rewrite H2 in Hcmd.
  simpl in Hso, Hcmd. rewrite !H1, !H2.
  destruct (first_walk_error _) as [e|]; subst r1 r2; simpl.
  - split; [reflexivity | discriminate].
  - rewrite ?H1, ?H2. simpl. split; [reflexivity|]. intros _.
    assert (Hperm : (Provides g ++ P1) ++ P2 ≡ₚ (Provides g ++ P2) ++ P1).
    { rewrite <- !app_assoc. apply Permutation_app_head, Permutation_app_comm. }
    split; [reflexivity|]. split; [exact Hperm|].
    intros declared. apply dedup_perm. now rewrite Hperm.
Qed.

Lemma X7_witness :
  let E := Demo.env true None in
  let pc := Demo.pc E "amd64" EmptyString in
  let none := {| Runtime := []; Provides := [] |} in
  dedup (Provides (snd (run_generators
           [generateSharedObjectNameDeps E; generateCmdProviders E] pc none))) =
  dedup (Provides (snd (run_generators
           [generateCmdProviders E; generateSharedObjectNameDeps E] pc none))).
Proof.
  intros E pc none.
  destruct (X7_generator_order_irrelevant E pc none) as [_ H].
  destruct (H eq_refl) as (_ & _ & Hd). exact (Hd []).
Defined.

(** ** The version of a shared-object provide *)

(** X8. Under the guard of the shared-object generator (the base name contains
    ".so."), [strings.Split] returns at least two parts, so the default "0" is
    never taken; the version is the text after the first ".so.", cut at the
    next ".so." when there is one. *)
Theorem X8_libver_is_second_part (basename : string) :
  strings.Contains basename ".so." = true ->
  (1 < length (strings.Split basename ".so."))%nat /\
  exists before after : string,
    strings.Cut basename ".so." = Some (before, after) /\
    libver_of basename =
      match strings.Cut after ".so." with
      | Some (version, _) => version
      | None => after
      end.
Proof.
  intros Hc. unfold strings.Contains in Hc.
  destruct (strings.Index basename ".so.") as [m|] eqn:Hm; [|discriminate].
  assert (Hsep : ".so." <> EmptyString) by discriminate.
  pose proof (Index_nonempty _ _ _ Hsep Hm) as Hlen.
  pose proof (Index_rest_shorter _ _ _ Hsep Hm) as Hshort.
  unfold libver_of, strings.Split, strings.Cut. rewrite Hm.
  destruct (String.length basename) as [|fuel] eqn:Hl; [lia|].
  cbn [strings.genSplit]. rewrite Hm.
  set (after := strings.slice_from (m + String.length ".so.") basename) in *.
  rewrite (genSplit_fuel ".so." Hsep fuel (String.length after) after) by lia.
  destruct (genSplit_cons (String.length after) after ".so.") as [rest Hrest].
  rewrite Hrest. cbn [length nth]. split; [lia|].
  exists (strings.slice_to m basename), after. split; [reflexivity|].
  replace (1 <? S (S (length rest)))%nat with true by (symmetry; apply Nat.ltb_lt; lia).
  destruct (strings.Index after ".so.") as [m'|] eqn:Hm'.
  - pose proof (Index_nonempty _ _ _ Hsep Hm').
    destruct (String.length after); [lia | reflexivity].
  - destruct (String.length after); reflexivity.
Qed.

Lemma X8_witness :
  libver_of "libfoo.so.1.so.2" = "1" /\
  (1 < length (strings.Split "libfoo.so.1.so.2" ".so."))%nat.
Proof.
  destruct (X8_libver_is_second_part "libfoo.so.1.so.2" eq_refl)
    as [Hlen (before & after & Hcut & Hver)].
  split; [|exact Hlen].
  vm_compute in Hcut. injection Hcut as <- <-. exact Hver.
Defined.

(** ** Which modes the generators act on *)

(** The bits set in a non-negative constant below [2 ^ K] are among the first
    [K]. *)
Lemma true_bits (c n : Z) (K : nat) :
  0 <= c < 2 ^ Z.of_nat K -> 0 <= n -> Z.testbit c n = true ->
  List.In n (List.filter (Z.testbit c) (List.map Z.of_nat (List.seq 0 K))).
Proof.
  intros Hc Hn Hbit.
  assert (Hlt : n < Z.of_nat K).
  { destruct (Z.lt_ge_cases n (Z.of_nat K)) as [|Hge]; [assumption|].
    destruct (Z.eq_dec c 0) as [-> | Hc0]; [now rewrite Z.bits_0 in Hbit|].
    rewrite Z.bits_above_log2 in Hbit; [discriminate|lia|].
    assert (Z.log2 c < Z.of_nat K) by (apply Z.log2_lt_pow2; lia). lia. }
  apply List.filter_In. split; [|exact Hbit].
  apply List.in_map_iff. exists (Z.to_nat n). split; [lia|].
  apply List.in_seq. lia.
Qed.

Lemma land_eq_iff (m c : Z) (K : nat) :
  0 <= c < 2 ^ Z.of_nat K ->
  (Z.land m c = c <->
   List.Forall (fun i => Z.testbit m i = true)
     (List.filter (Z.testbit c) (List.map Z.of_nat (List.seq 0 K)))).
Proof.
  intros Hc. split.
  - intros H. apply List.Forall_forall. intros i Hi.
    apply List.filter_In in Hi as [_ Hi].
    apply (f_equal (fun z => Z.testbit z i)) in H.
    rewrite Z.land_spec, Hi, andb_true_r in H. exact H.
  - intros H. rewrite List.Forall_forall in H.
    apply Z.bits_inj'. intros n Hn. rewrite Z.land_spec.
    destruct (Z.testbit c n) eqn:Hbit; [|apply andb_false_r].
    rewrite (H n); [reflexivity|]. now apply true_bits.
Qed.

Lemma land_zero_iff (m c : Z) (K : nat) :
  0 <= c < 2 ^ Z.of_nat K ->
  (Z.land m c = 0 <->
   List.Forall (fun i => Z.testbit m i = false)
     (List.filter (Z.testbit c) (List.map Z.of_nat (List.seq 0 K)))).
Proof.
  intros Hc. split.
  - intros H. apply List.Forall_forall. intros i Hi.
    apply List.filter_In in Hi as [_ Hi].
    apply (f_equal (fun z => Z.testbit z i)) in H.
    rewrite Z.land_spec, Hi, andb_true_r, Z.bits_0 in H. exact H.
  - intros H. rewrite List.Forall_forall in H.
    apply Z.bits_inj'. intros n Hn. rewrite Z.land_spec, Z.bits_0.
    destruct (Z.testbit c n) eqn:Hbit; [|apply andb_false_r].
    rewrite (H n); [reflexivity|]. now apply true_bits.
Qed.

(** X9. A mode passes both tests of the generators, [IsRegular] and
    [Perm() & 0555 == 0555], exactly when none of its seven type bits
    (directory, symlink, device, named pipe, socket, character device,
    irregular) is set and its read and execute bits for user, group and others
    are all set; the write, setuid, setgid and sticky bits play no part. *)
Theorem X9_scanned_mode_bits (m : Z) :
  FileMode.IsRegular m && exec_by_all m = true <->
  (Z.testbit m 31 = false /\ Z.testbit m 27 = false /\ Z.testbit m 26 = false /\
   Z.testbit m 25 = false /\ Z.testbit m 24 = false /\ Z.testbit m 21 = false /\
   Z.testbit m 19 = false) /\
  (Z.testbit m 8 = true /\ Z.testbit m 6 = true /\ Z.testbit m 5 = true /\
   Z.testbit m 3 = true /\ Z.testbit m 2 = true /\ Z.testbit m 0 = true).
Proof.
  unfold FileMode.IsRegular, exec_by_all, FileMode.Perm.
  rewrite andb_true_iff, !Z.eqb_eq.
  rewrite (land_zero_iff m FileMode.ModeType 32) by (vm_compute; split; congruence).
  rewrite <- Z.land_assoc.
  change (Z.land FileMode.ModePerm 365) with 365.
  rewrite (land_eq_iff m 365 9) by (vm_compute; split; congruence).
  vm_compute List.filter. rewrite !List.Forall_cons_iff.
  pose proof (List.Forall_nil (fun i => Z.testbit m i = true)).
  pose proof (List.Forall_nil (fun i => Z.testbit m i = false)).
  tauto.
Qed.

(** ** The name of the signature file *)

Lemma Contains_sep_cons (c : ascii) (s : string) :
  strings.Contains (String c s) "/" = filepath.is_sep c || strings.Contains s "/".
Proof.
  unfold strings.Contains, filepath.is_sep.
  cbn [strings.Index strings.HasPrefix].
  rewrite (Ascii.eqb_sym "/" c).
  destruct (Ascii.eqb c "/"); [now destruct s|].
  cbn [orb]. now destruct (strings.Index s "/").
Qed.

Lemma Contains_sep_append (a b : string) :
  strings.Contains (a +:+ b) "/" = strings.Contains a "/" || strings.Contains b "/".
Proof.
  induction a as [|c a IH]; [reflexivity|].
  rewrite append_cons, !Contains_sep_cons, IH. apply orb_assoc.
Qed.

Lemma last_element_no_sep (s : string) :
  forall acc, strings.Contains acc "/" = false ->
    strings.Contains (filepath.last_element acc s) "/" = false.
Proof.
  induction s as [|c s IH]; intros acc Hacc; [exact Hacc|].
  simpl. destruct (filepath.is_sep c) eqn:Hc; apply IH; [reflexivity|].
  rewrite Contains_sep_append, Hacc, Contains_sep_cons, Hc. reflexivity.
Qed.

Lemma strip_trailing_idem (s : string) :
  filepath.strip_trailing (filepath.strip_trailing s) = filepath.strip_trailing s.
Proof.
  induction s as [|d s IH]; [reflexivity|].
  cbn [filepath.strip_trailing].
  destruct (filepath.strip_trailing s) as [|a r] eqn:Hs.
  - destruct (filepath.is_sep d) eqn:Hd; [reflexivity|].
    cbn [filepath.strip_trailing]. now rewrite Hd.
  - change (filepath.strip_trailing (String d (String a r)))
      with (match filepath.strip_trailing (String a r) with
            | EmptyString => if filepath.is_sep d then EmptyString else String d EmptyString
            | r' => String d r'
            end).
    now rewrite IH.
Qed.

(** X10. The signature file is named ".SIGN.RSA.<element>.pub": when the key
    path has a character other than a slash, the name is a single path
    element (no slash in it); a key path made of slashes only gives
    ".SIGN.RSA./.pub". *)
Theorem X10_signature_name_is_one_element (pc : PackageContext) :
  let key := ctx_SigningKey (pc_Context pc) in
  (filepath.strip_trailing key <> EmptyString ->
   strings.Contains (SignatureName pc) "/" = false) /\
  (key <> EmptyString -> filepath.strip_trailing key = EmptyString ->
   SignatureName pc = ".SIGN.RSA./.pub").
Proof.
  intros key. unfold SignatureName. fold key. split.
  - intros Hstrip. rewrite !Contains_sep_append.
    assert (Hbase : strings.Contains (filepath.Base key) "/" = false);
      [|now rewrite Hbase].
    unfold filepath.Base. destruct key as [|c k]; [reflexivity|].
    pose proof (last_element_no_sep (filepath.strip_trailing (String c k)) EmptyString
                  eq_refl) as Hlast.
    pose proof (last_element_nonempty (filepath.strip_trailing (String c k)) EmptyString
                  Hstrip (strip_trailing_idem _)) as Hne.
    destruct (filepath.last_element _ _) as [|x l]; [congruence | exact Hlast].
  - intros Hne Hstrip. unfold filepath.Base.
    destruct key as [|c k]; [congruence|]. now rewrite Hstrip.
Qed.

Lemma X10_witness :
  strings.Contains
    (SignatureName (Demo.pc (Demo.env true None) "amd64" "keys/melange.rsa")) "/" = false /\
  SignatureName (Demo.pc (Demo.env true None) "amd64" "//") = ".SIGN.RSA./.pub".
Proof.
  split.
  - apply (proj1 (X10_signature_name_is_one_element
                    (Demo.pc (Demo.env true None) "amd64" "keys/melange.rsa"))).
    discriminate.
  - apply (proj2 (X10_signature_name_is_one_element
                    (Demo.pc (Demo.env true None) "amd64" "//")));
      [discriminate | reflexivity].
Defined.

(** ** Judging [EmitPackage] on all its outcomes *)

Lemma judge_bind {A B} (Inv : St -> Prop) (Mid : A -> St -> Prop)
    (Good : B -> St -> Prop) (Bad : error -> St -> Prop) (m : M St A) (k : A -> M St B) :
  judge Inv Mid Bad m -> (forall a, judge (Mid a) Good Bad (k a)) ->
  judge Inv Good Bad (bind m k).
Proof.
  intros Hm Hk s Hs. unfold bind. specialize (Hm s Hs).
  destruct (m s) as [[a|e] s1]; [exact (Hk a s1 Hm) | exact Hm].
Qed.

Lemma judge_wrap_err {A} (Inv : St -> Prop) (Good : A -> St -> Prop)
    (Bad : error -> St -> Prop) (msg : string) (m : M St A) :
  judge Inv Good (fun e => Bad (wrap msg e)) m -> judge Inv Good Bad (wrap_err msg m).
Proof.
  intros Hm s Hs. unfold wrap_err. specialize (Hm s Hs).
  destruct (m s) as [[a|e] s1]; exact Hm.
Qed.

Lemma judge_defer {A} (Inv : St -> Prop) (Good : A -> St -> Prop)
    (Bad : error -> St -> Prop) (c : St -> St) (body : M St A) :
  judge Inv (fun a s => Good a (c s)) (fun e s => Bad e (c s)) body ->
  judge Inv Good Bad (defer c body).
Proof.
  intros Hm s Hs. unfold defer. specialize (Hm s Hs).
  destruct (body s) as [[a|e] s1]; exact Hm.
Qed.

Lemma judge_if {A} (Inv : St -> Prop) (Good : A -> St -> Prop)
    (Bad : error -> St -> Prop) (c : bool) (a b : M St A) :
  (c = true -> judge Inv Good Bad a) -> (c = false -> judge Inv Good Bad b) ->
  judge Inv Good Bad (if c then a else b).
Proof. destruct c; auto. Qed.

Lemma judge_weaken {A} (Inv Inv' : St -> Prop) (Good Good' : A -> St -> Prop)
    (Bad Bad' : error -> St -> Prop) (m : M St A) :
  judge Inv' Good' Bad' m ->
  (forall s, Inv s -> Inv' s) -> (forall a s, Good' a s -> Good a s) ->
  (forall e s, Bad' e s -> Bad e s) ->
  judge Inv Good Bad m.
Proof.
  intros Hm HI HG HB s Hs. specialize (Hm s (HI s Hs)).
  destruct (m s) as [[a|e] s1]; auto.
Qed.

(** The context read by [get] is the one of the state. *)
Lemma judge_get (Inv : St -> Prop) (Bad : error -> St -> Prop) :
  judge Inv (fun pc s => Inv s /\ pc = st_pc s) Bad (onPC get).
Proof. intros s Hs. unfold onPC, zoom, get. simpl. destruct s. simpl. auto. Qed.

(** ** No error is returned bare *)

Lemma staged_wrap (msg cause : string) : msg ∈ stage_messages -> staged (wrap msg cause).
Proof. intros H. now exists msg, cause. Qed.

(** A step wrapped with a message of the list fails with a staged error. *)
Lemma judge_staged_step {A} (msg : string) (m : M St A) :
  msg ∈ stage_messages ->
  judge (fun _ => True) (fun _ _ => True) (fun e _ => staged e) (wrap_err msg m).
Proof.
  intros Hmsg s _. unfold wrap_err. destruct (m s) as [[a|e] s1]; [exact I|].
  now apply staged_wrap.
Qed.

Lemma judge_staged_modify (f : PackageContext -> PackageContext) :
  judge (fun _ => True) (fun _ _ => True) (fun e _ => staged e) (onPC (modify f)).
Proof. intros s _. exact I. Qed.

Lemma judge_staged_get :
  judge (fun _ => True) (fun _ _ => True) (fun e _ => staged e) (onPC get).
Proof. intros s _. exact I. Qed.

Ltac in_stages := apply list_elem_of_In; simpl; tauto.

Ltac staged_step :=
  cbv zeta;
  first
    [ apply judge_defer
    | apply judge_if; intros _
    | apply judge_staged_step; in_stages
    | apply (judge_bind _ (fun _ _ => True));
        [ first [ apply judge_staged_step; in_stages
                | apply judge_staged_modify
                | apply judge_staged_get ]
        | intros ? ] ].

Lemma assemble_staged (E : Env) (parts : list FileRef) :
  judge (fun _ => True) (fun _ _ => True) (fun e _ => staged e) (assemble E parts).
Proof. unfold assemble. repeat staged_step. Qed.

Lemma EmitPackage_staged (E : Env) :
  judge (fun _ => True) (fun _ _ => True) (fun e _ => staged e) (EmitPackage E).
Proof.
  unfold EmitPackage.
  repeat first [ apply assemble_staged | staged_step ].
Qed.

(** X11. [EmitPackage] returns no error bare: every error it returns is one of
    the seventeen messages of the source followed by a colon, a space and
    some text.  Which of the messages it is, and what the text is, is not
    stated here. *)
Theorem X11_errors_carry_a_message (E : Env) (s : St) (e : error) :
  fst (EmitPackage E s) = Err e ->
  exists msg cause : string, msg ∈ stage_messages /\ e = wrap msg cause.
Proof.
  intros H. pose proof (EmitPackage_staged E s I) as Hj.
  destruct (EmitPackage E s) as [[[]|e'] s']; [discriminate|].
  injection H as ->. exact Hj.
Qed.

Lemma X11_witness :
  exists msg cause : string,
    msg ∈ stage_messages /\
    "unable to generate signature: unable to parse key" = wrap msg cause.
Proof.
  apply (X11_errors_carry_a_message (Demo.env false None)
           (Demo.start (Demo.env false None) "amd64" "keys/melange.rsa")).
  vm_compute. reflexivity.
Defined.

(** ** What each operation may touch *)

Lemma tmp_only_refl (i : nat) (w : World) : tmp_only i w w.
Proof. repeat split. Qed.

Lemma tmp_only_trans (i : nat) (w1 w2 w3 : World) :
  tmp_only i w1 w2 -> tmp_only i w2 w3 -> tmp_only i w1 w3.
Proof.
  intros (A1 & A2 & A3 & A4) (B1 & B2 & B3 & B4).
  repeat split; try congruence. intros j Hj. now rewrite B4, A4.
Qed.

Lemma tmp_only_put (i : nat) (f : File) (w : World) :
  tmp_only i w (put_file (TmpRef i) f w).
Proof.
  repeat split; simpl; [apply length_insert|].
  intros j Hj. now apply list_lookup_insert_ne.
Qed.

Lemma File_Write_tmp_only (E : Env) (i : nat) (p : bytes) (w : World) :
  tmp_only i w (snd (File_Write E (TmpRef i) p w)).
Proof.
  unfold File_Write. destruct (get_file w (TmpRef i)) as [f|]; [|apply tmp_only_refl].
  destruct (f_open f); [|apply tmp_only_refl].
  destruct (os_write_fault E w (TmpRef i) p) as [[n e]|]; apply tmp_only_put.
Qed.

Lemma write_all_file_tmp_only (E : Env) (i : nat) (chunks : list bytes) :
  forall w, tmp_only i w (snd (write_all (file_Writer E (TmpRef i)) chunks w)).
Proof.
  induction chunks as [|c rest IH]; intros w; [apply tmp_only_refl|].
  simpl. pose proof (File_Write_tmp_only E i c w) as H.
  destruct (File_Write E (TmpRef i) c w) as [[n [e|]] w1]; simpl in *; [exact H|].
  eapply tmp_only_trans; [exact H | apply IH].
Qed.

Lemma write_all_hashed_tmp_only (E : Env) (i : nat) (chunks : list bytes) :
  forall h w,
    tmp_only i w
      (snd (snd (write_all (io_MultiWriter hash_Writer (file_Writer E (TmpRef i)))
                   chunks (h, w)))).
Proof.
  induction chunks as [|c rest IH]; intros h w; [apply tmp_only_refl|].
  simpl. rewrite Nat.eqb_refl. simpl.
  pose proof (File_Write_tmp_only E i c w) as H.
  destruct (File_Write E (TmpRef i) c w) as [[n [e|]] w1]; simpl in *; [exact H|].
  destruct (negb (n =? length c)%nat); simpl; [exact H|].
  eapply tmp_only_trans; [exact H | apply IH].
Qed.

Lemma WriteArchive_hashed_tmp_only (E : Env) (ctx : TarContext) (i : nat) (src : FS)
    (w : World) :
  tmp_only i w (snd (WriteArchive_hashed E ctx (TmpRef i) src w)).
Proof.
  unfold WriteArchive_hashed, WriteArchive.
  pose proof (write_all_hashed_tmp_only E i (fst (tarball_archive E ctx src)) [] w) as H.
  destruct (write_all _ _ _) as [[e|] hw]; simpl in *; [exact H|].
  destruct (snd (tarball_archive E ctx src)); exact H.
Qed.

Lemma WriteArchive_file_tmp_only (E : Env) (ctx : TarContext) (i : nat) (src : FS)
    (w : World) :
  tmp_only i w (snd (WriteArchive E ctx (file_Writer E (TmpRef i)) src w)).
Proof.
  unfold WriteArchive.
  pose proof (write_all_file_tmp_only E i (fst (tarball_archive E ctx src)) w) as H.
  destruct (write_all _ _ _) as [[e|] w']; simpl in *; [exact H|].
  destruct (snd (tarball_archive E ctx src)); exact H.
Qed.

Lemma Seek_tmp_only (E : Env) (i : nat) (w : World) :
  tmp_only i w (snd (File_Seek_start E (TmpRef i) w)).
Proof.
  unfold File_Seek_start. destruct (os_fault E _); [apply tmp_only_refl|].
  destruct (get_file w (TmpRef i)) as [f|]; [|apply tmp_only_refl].
  destruct (f_open f); [apply tmp_only_put | apply tmp_only_refl].
Qed.

Lemma Close_tmp_only (i : nat) (w : World) : tmp_only i w (File_Close (TmpRef i) w).
Proof.
  unfold File_Close. destruct (get_file w (TmpRef i)); [apply tmp_only_put|apply tmp_only_refl].
Qed.

(** A change to a temporary file made later leaves the earlier ones as they
    are. *)
Lemma tmp_only_take (n i : nat) (w w' : World) :
  tmp_only i w w' -> (n <= i)%nat -> take n (w_tmp w') = take n (w_tmp w).
Proof.
  intros (_ & _ & Hlen & Hother) Hn. apply list_eq. intros j.
  destruct (decide (j < n)%nat) as [Hj|Hj].
  - rewrite !lookup_take_lt by assumption. apply Hother. lia.
  - rewrite !lookup_take_ge by lia. reflexivity.
Qed.

(** The stages that write the context keep what names it, and the build
    context it reads the key from. *)
Lemma sizing_ident (E : Env) (pc : PackageContext) : ident (snd (sizing E pc)) = ident pc.
Proof.
  destruct (walk_sizing_frame (WalkDir E (WorkspaceSubdir E pc)) pc) as (H1 & H2 & H3 & H4).
  unfold ident, sizing. now rewrite H2, H3, H4.
Qed.

Lemma sizing_Context (E : Env) (pc : PackageContext) :
  pc_Context (snd (sizing E pc)) = pc_Context pc.
Proof. apply (walk_sizing_frame (WalkDir E (WorkspaceSubdir E pc)) pc). Qed.

Lemma GenerateDependencies_Context (E : Env) (pc : PackageContext) :
  pc_Context (snd (GenerateDependencies E pc)) = pc_Context pc.
Proof.
  rewrite GenerateDependencies_unfold.
  destruct (run_generators _ _ _) as [[[]|e] g]; reflexivity.
Qed.

Lemma GenerateDependencies_ident (E : Env) (pc : PackageContext) :
  ident (snd (GenerateDependencies E pc)) = ident pc.
Proof.
  rewrite GenerateDependencies_unfold.
  destruct (run_generators _ _ _) as [[[]|e] g]; reflexivity.
Qed.

(** ** Invariants through [bind], [defer] and the rest *)

Lemma preserves_bind {A B} (Inv : St -> Prop) (FactA : A -> Prop) (FactB : B -> Prop)
    (m : M St A) (k : A -> M St B) :
  preserves Inv FactA m -> (forall a, FactA a -> preserves Inv FactB (k a)) ->
  preserves Inv FactB (bind m k).
Proof.
  intros Hm Hk s Hs. unfold bind. specialize (Hm s Hs).
  destruct (m s) as [[a|e] s1]; [|exact Hm].
  destruct Hm as [Hs1 Ha]. exact (Hk a Ha s1 Hs1).
Qed.

Lemma preserves_wrap_err {A} (Inv : St -> Prop) (Fact : A -> Prop) (msg : string)
    (m : M St A) :
  preserves Inv Fact m -> preserves Inv Fact (wrap_err msg m).
Proof.
  intros Hm s Hs. unfold wrap_err. specialize (Hm s Hs).
  destruct (m s) as [[a|e] s1]; exact Hm.
Qed.

Lemma preserves_defer {A} (Inv : St -> Prop) (Fact : A -> Prop) (c : St -> St)
    (body : M St A) :
  (forall s, Inv s -> Inv (c s)) -> preserves Inv Fact body ->
  preserves Inv Fact (defer c body).
Proof.
  intros Hc Hm s Hs. unfold defer. specialize (Hm s Hs).
  destruct (body s) as [[a|e] s1]; [destruct Hm; split|]; auto.
Qed.

Lemma preserves_if {A} (Inv : St -> Prop) (Fact : A -> Prop) (c : bool) (a b : M St A) :
  preserves Inv Fact a -> preserves Inv Fact b -> preserves Inv Fact (if c then a else b).
Proof. now destruct c. Qed.

Lemma preserves_true {A} (Inv : St -> Prop) (Fact : A -> Prop) (m : M St A) :
  preserves Inv Fact m -> preserves Inv (fun _ => True) m.
Proof.
  intros Hm s Hs. specialize (Hm s Hs). destruct (m s) as [[a|e] s1]; [|exact Hm].
  split; [apply Hm | exact I].
Qed.

(** Steps that leave the state alone. *)
Lemma preserves_NewContext (Inv : St -> Prop) (E : Env) (opts : TarContext) :
  preserves Inv (fun _ => True) (tarball_NewContext E opts).
Proof.
  intros s Hs. unfold tarball_NewContext. destruct (tarball_option_err E opts); simpl; auto.
Qed.

Lemma preserves_memfs (Inv : St -> Prop) (E : Env) (path : string) (data : bytes) (perm : Z) :
  preserves Inv (fun _ => True) (memfs_WriteFile E path data perm).
Proof.
  intros s Hs. unfold memfs_WriteFile. destruct (memfs_reject E path); simpl; auto.
Qed.

Lemma preserves_of_result {A} (Inv : St -> Prop) (r : result A) :
  preserves Inv (fun a => r = Ok a) (of_result r).
Proof. intros s Hs. destruct r; simpl; auto. Qed.

(** ** The directories [os.MkdirAll] makes *)

Lemma string_of_list_ascii_app (l1 l2 : list ascii) :
  string_of_list_ascii (l1 ++ l2) = string_of_list_ascii l1 +:+ string_of_list_ascii l2.
Proof. induction l1 as [|c l1 IH]; simpl; [reflexivity|]. now rewrite IH. Qed.

Lemma skip_while_suffix (f : ascii -> bool) (l : list ascii) :
  exists pre, l = pre ++ skip_while f l.
Proof.
  induction l as [|c l [pre IH]]; simpl; [now exists []|].
  destruct (f c); [|now exists []]. exists (c :: pre). simpl. now f_equal.
Qed.

Lemma skip_while_head (f : ascii -> bool) (l r : list ascii) (c : ascii) :
  skip_while f l = c :: r -> f c = false.
Proof.
  induction l as [|d l IH]; simpl; [discriminate|].
  destruct (f d) eqn:Hd; [exact IH|]. now intros [= <- _].
Qed.

(** The parent is the path up to a slash. *)
Lemma MkdirAll_parent_prefix (path parent : string) :
  MkdirAll_parent path = Some parent ->
  exists rest, path = parent +:+ "/" +:+ rest.
Proof.
  unfold MkdirAll_parent.
  destruct (skip_while_suffix filepath.is_sep (rev (list_ascii_of_string path)))
    as [seps Hseps].
  destruct (skip_while_suffix (fun c => negb (filepath.is_sep c))
              (skip_while filepath.is_sep (rev (list_ascii_of_string path))))
    as [elem Helem].
  destruct (skip_while _ (skip_while _ _)) as [|c [|c' r]] eqn:Hr; try discriminate.
  intros [= <-].
  apply skip_while_head in Hr. apply negb_false_iff in Hr.
  unfold filepath.is_sep in Hr. apply Ascii.eqb_eq in Hr. subst c.
  rewrite Helem in Hseps.
  apply (f_equal (@rev ascii)) in Hseps. rewrite rev_involutive in Hseps.
  apply (f_equal string_of_list_ascii) in Hseps.
  rewrite string_of_list_ascii_of_string in Hseps.
  exists (string_of_list_ascii (rev elem ++ rev seps)).
  rewrite Hseps. rewrite !rev_app_distr. cbn [rev]. rewrite <- !app_assoc.
  rewrite !string_of_list_ascii_app. rewrite <- !append_assoc. reflexivity.
Qed.

Lemma MkdirAll_chain_from_prefix (fuel : nat) :
  forall path d, d ∈ MkdirAll_chain_from fuel path ->
    d = path \/ exists rest, path = d +:+ "/" +:+ rest.
Proof.
  induction fuel as [|fuel IH]; intros path d; simpl.
  - intros H. apply list_elem_of_singleton in H. now left.
  - destruct (MkdirAll_parent path) as [parent|] eqn:Hp.
    + destruct (MkdirAll_parent_prefix _ _ Hp) as [rest Hrest].
      intros H. apply elem_of_app in H as [H|H].
      * right. destruct (IH _ _ H) as [->|[rest' ->]]; [now exists rest|].
        exists (rest' +:+ "/" +:+ rest). rewrite Hrest. now rewrite <- !append_assoc.
      * apply list_elem_of_singleton in H. now left.
    + intros H. apply list_elem_of_singleton in H. now left.
Qed.

Lemma MkdirAll_chain_prefix (path d : string) :
  d ∈ MkdirAll_chain path -> d = path \/ exists rest, path = d +:+ "/" +:+ rest.
Proof. apply MkdirAll_chain_from_prefix. Qed.

(** The parent is shorter, so the fuel of [MkdirAll_chain] is enough: more of
    it gives the same directories. *)
Lemma MkdirAll_parent_shorter (path parent : string) :
  MkdirAll_parent path = Some parent -> (String.length parent < String.length path)%nat.
Proof.
  intros H. destruct (MkdirAll_parent_prefix _ _ H) as [rest ->].
  rewrite !length_append. simpl. lia.
Qed.

Lemma MkdirAll_chain_fuel (fuel : nat) :
  forall fuel' path, (String.length path <= fuel)%nat -> (String.length path <= fuel')%nat ->
    MkdirAll_chain_from fuel path = MkdirAll_chain_from fuel' path.
Proof.
  induction fuel as [|fuel IH]; intros fuel' path H H'.
  - destruct fuel' as [|fuel']; [reflexivity|]. simpl.
    destruct (MkdirAll_parent path) as [parent|] eqn:Hp; [|reflexivity].
    apply MkdirAll_parent_shorter in Hp. lia.
  - simpl. destruct (MkdirAll_parent path) as [parent|] eqn:Hp.
    + pose proof (MkdirAll_parent_shorter _ _ Hp) as Hlt.
      destruct fuel' as [|fuel']; [lia|]. simpl. rewrite Hp.
      f_equal. apply IH; lia.
    + destruct fuel' as [|fuel']; simpl; [reflexivity|]. now rewrite Hp.
Qed.

Lemma MkdirAll_chain_parent (path parent : string) :
  MkdirAll_parent path = Some parent ->
  MkdirAll_chain path = MkdirAll_chain parent ++ [path].
Proof.
  intros Hp. pose proof (MkdirAll_parent_shorter _ _ Hp) as Hlt.
  unfold MkdirAll_chain. destruct (String.length path) as [|n] eqn:Hn; [lia|].
  simpl. rewrite Hp. f_equal. apply MkdirAll_chain_fuel; lia.
Qed.

Lemma MkdirAll_chain_path (path : string) : path ∈ MkdirAll_chain path.
Proof.
  unfold MkdirAll_chain. destruct (String.length path); simpl.
  - apply list_elem_of_here.
  - destruct (MkdirAll_parent path); [apply elem_of_app; right|]; apply list_elem_of_here.
Qed.

(** ** An emission stays within its own files *)

Section Within.
Variables (E : Env) (pc0 : PackageContext) (w0 : World).

Lemma within_length (s : St) : (within pc0 w0) s -> (length (w_tmp w0) <= length (w_tmp (st_w s)))%nat.
Proof.
  intros (_ & H & _). apply (f_equal length) in H. rewrite length_take in H. lia.
Qed.

Lemma within_onPC {A} (m : M PackageContext A) :
  (forall pc, ident (snd (m pc)) = ident pc) -> preserves (within pc0 w0) (fun _ => True) (onPC m).
Proof.
  intros Hm s (H1 & H2 & H3 & H4). unfold onPC, zoom. specialize (Hm (st_pc s)).
  assert ((within pc0 w0) {| st_pc := snd (m (st_pc s)); st_w := st_w s |}) as HW.
  { split; [simpl; congruence|]. split; [exact H2|]. split; [exact H3|exact H4]. }
  destruct (m (st_pc s)) as [[a|e] pc']; simpl in *; [split; [exact HW|exact I]|exact HW].
Qed.

Lemma within_get : preserves (within pc0 w0) (fun pc => ident pc = ident pc0) (onPC get).
Proof. intros s Hs. unfold onPC, zoom, get. simpl. destruct s. split; [exact Hs|apply Hs]. Qed.

Lemma within_tmp_step (i : nat) (s : St) (w' : World) :
  (within pc0 w0) s -> tmp_only i (st_w s) w' -> (length (w_tmp w0) <= i)%nat ->
  (within pc0 w0) {| st_pc := st_pc s; st_w := w' |}.
Proof.
  intros (H1 & H2 & H3 & H4) Ht Hi.
  pose proof (tmp_only_take _ _ _ _ Ht Hi) as Htake.
  destruct Ht as (T1 & T2 & _ & _).
  split; [exact H1|]. split; [simpl; congruence|].
  split; [intros q Hq; simpl; rewrite T1; now apply H3|]. simpl. now rewrite T2.
Qed.

Lemma within_onW_tmp {A} (i : nat) (m : M World A) :
  (forall w, tmp_only i w (snd (m w))) -> (length (w_tmp w0) <= i)%nat ->
  preserves (within pc0 w0) (fun _ => True) (onW m).
Proof.
  intros Hm Hi s Hs. unfold onW, zoom. specialize (Hm (st_w s)).
  destruct (m (st_w s)) as [[a|e] w']; simpl in *;
    [split; [|exact I]|]; now apply (within_tmp_step i).
Qed.

Lemma within_close_tmp (i : nat) (s : St) :
  (length (w_tmp w0) <= i)%nat -> (within pc0 w0) s -> (within pc0 w0) (close (TmpRef i) s).
Proof.
  intros Hi Hs. unfold close. apply (within_tmp_step i); [exact Hs| |exact Hi].
  apply Close_tmp_only.
Qed.

Lemma within_CreateTemp (pattern : string) :
  preserves (within pc0 w0) (fun h => exists i, h = TmpRef i /\ (length (w_tmp w0) <= i)%nat)
    (onW (os_CreateTemp E pattern)).
Proof.
  intros s Hs. unfold onW, zoom, os_CreateTemp.
  destruct (os_fault E _); simpl; [now destruct s|].
  pose proof (within_length s Hs) as Hlen.
  destruct Hs as (H1 & H2 & H3 & H4). split; [|eauto].
  repeat split; simpl; try assumption.
  now rewrite take_app_le.
Qed.

Lemma within_add_dirs (dirs : list string) (s : St) :
  dirs ⊆ MkdirAll_chain (pc_OutDir pc0) -> (within pc0 w0) s ->
  (within pc0 w0) {| st_pc := st_pc s; st_w := add_dirs dirs (st_w s) |}.
Proof.
  intros Hdirs (H1 & H2 & H3 & H4). split; [exact H1|]. split; [exact H2|].
  split; [exact H3|]. simpl. apply union_least; [|exact H4].
  apply elem_of_subseteq. intros x Hx. apply elem_of_union_l.
  apply elem_of_list_to_set. apply Hdirs. now apply elem_of_list_to_set in Hx.
Qed.

Lemma within_MkdirAll (pc : PackageContext) :
  ident pc = ident pc0 -> preserves (within pc0 w0) (fun _ => True) (onW (os_MkdirAll E (pc_OutDir pc))).
Proof.
  intros Hpc s Hs. unfold onW, zoom, os_MkdirAll.
  assert (pc_OutDir pc = pc_OutDir pc0) as -> by (unfold ident in Hpc; congruence).
  destruct (os_fault E _); simpl; [|split; [|exact I]]; apply within_add_dirs; try exact Hs.
  - rewrite removelast_firstn_len. etransitivity; apply subseteq_take.
  - reflexivity.
Qed.

Lemma Filename_ident (pc : PackageContext) : ident pc = ident pc0 -> Filename pc = Filename pc0.
Proof. intros [= H1 H2 H3 H4]. unfold Filename, Identity. now rewrite H1, H2, H3, H4. Qed.

Lemma within_out_step (s : St) (w' : World) :
  (within pc0 w0) s -> w_tmp w' = w_tmp (st_w s) -> w_dirs w' = w_dirs (st_w s) ->
  (forall q, q <> Filename pc0 -> w_out w' !! q = w_out (st_w s) !! q) ->
  (within pc0 w0) {| st_pc := st_pc s; st_w := w' |}.
Proof.
  intros (H1 & H2 & H3 & H4) Ht Hd Ho.
  split; [exact H1|]. split; [simpl; congruence|].
  split; [intros q Hq; simpl; rewrite Ho; auto|]. simpl. now rewrite Hd.
Qed.

Lemma within_Create (pc : PackageContext) :
  ident pc = ident pc0 ->
  preserves (within pc0 w0) (fun h => h = OutRef (Filename pc0)) (onW (os_Create E (Filename pc))).
Proof.
  intros Hpc s Hs. rewrite (Filename_ident pc Hpc). unfold onW, zoom, os_Create.
  destruct (os_fault E _); simpl; [now destruct s|]. split; [|reflexivity].
  apply within_out_step; try reflexivity; [exact Hs|].
  intros q Hq. simpl. now apply lookup_insert_ne.
Qed.

Lemma within_close_out (s : St) : (within pc0 w0) s -> (within pc0 w0) (close (OutRef (Filename pc0)) s).
Proof.
  intros Hs. unfold close, File_Close.
  destruct (get_file (st_w s) (OutRef (Filename pc0))) as [f|]; [|now destruct s as [? []]].
  apply within_out_step; try reflexivity; [exact Hs|].
  intros q Hq. simpl. now apply lookup_insert_ne.
Qed.

(** A write to the final path. *)
Lemma File_Write_out_only (p : string) (data : bytes) (w : World) :
  let w' := snd (File_Write E (OutRef p) data w) in
  w_tmp w' = w_tmp w /\ w_dirs w' = w_dirs w /\
  forall q, q <> p -> w_out w' !! q = w_out w !! q.
Proof.
  unfold File_Write. destruct (get_file w (OutRef p)) as [f|]; [|now repeat split].
  destruct (f_open f); [|now repeat split].
  destruct (os_write_fault E w (OutRef p) data) as [[n e]|]; simpl;
    repeat split; intros q Hq; now apply lookup_insert_ne.
Qed.

Lemma within_Copy (i : nat) :
  (length (w_tmp w0) <= i)%nat ->
  preserves (within pc0 w0) (fun _ => True) (onW (io_Copy E (OutRef (Filename pc0)) (TmpRef i))).
Proof.
  intros Hi s Hs. unfold onW, zoom, io_Copy.
  destruct (get_file (st_w s) (TmpRef i)) as [f|]; [|now destruct s].
  destruct (f_open f); [|now destruct s].
  destruct (drop (f_pos f) (f_data f)) as [|b q]; [now destruct s|].
  pose proof (within_tmp_step i s (put_file (TmpRef i) (at_end f) (st_w s)) Hs
                (tmp_only_put i _ _) Hi) as H1.
  pose proof (File_Write_out_only (Filename pc0) (b :: q)
                (put_file (TmpRef i) (at_end f) (st_w s))) as (A1 & A2 & A3).
  pose proof (within_out_step _ _ H1 A1 A2 A3) as H2.
  destruct (File_Write E _ _ _) as [[n [e|]] w']; simpl in *; [|split]; auto.
Qed.

Lemma within_combine (parts : list FileRef) :
  Forall (fun r => exists i, r = TmpRef i /\ (length (w_tmp w0) <= i)%nat) parts ->
  preserves (within pc0 w0) (fun _ => True) (onW (combine E (OutRef (Filename pc0)) parts)).
Proof.
  induction 1 as [|r parts (i & -> & Hi) Hparts IH].
  - intros s Hs. simpl. now destruct s.
  - intros s Hs. unfold onW, zoom. simpl. unfold bind.
    pose proof (within_Copy i Hi s Hs) as H1. unfold onW, zoom in H1.
    destruct (io_Copy E _ _ (st_w s)) as [[[]|e] w1]; simpl in *; [|exact H1].
    destruct H1 as [H1 _]. specialize (IH _ H1). unfold onW, zoom in IH. simpl in IH.
    destruct (combine E _ parts w1) as [[[]|e] w2]; simpl in *; exact IH.
Qed.

Lemma within_assemble (parts : list FileRef) :
  Forall (fun r => exists i, r = TmpRef i /\ (length (w_tmp w0) <= i)%nat) parts ->
  preserves (within pc0 w0) (fun _ => True) (assemble E parts).
Proof.
  intros Hparts. unfold assemble.
  eapply preserves_bind; [apply within_get|]. intros pc Hpc.
  eapply preserves_bind; [apply preserves_wrap_err, (within_MkdirAll pc Hpc)|]. intros _ _.
  eapply preserves_bind; [apply preserves_wrap_err, (within_Create pc Hpc)|].
  intros outFile ->.
  apply preserves_defer; [apply within_close_out|].
  apply preserves_wrap_err, within_combine, Hparts.
Qed.

End Within.

(** The three steps on a temporary file. *)
Lemma within_hashed (E : Env) (pc0 : PackageContext) (w0 : World) (i : nat)
    (tc : TarContext) (fsys : FS) :
  (length (w_tmp w0) <= i)%nat ->
  preserves (within pc0 w0) (fun _ => True) (onW (WriteArchive_hashed E tc (TmpRef i) fsys)).
Proof.
  intros Hi.
  apply (within_onW_tmp pc0 w0 i); [intros w; apply WriteArchive_hashed_tmp_only|exact Hi].
Qed.

Lemma within_plain (E : Env) (pc0 : PackageContext) (w0 : World) (i : nat)
    (tc : TarContext) (fsys : FS) :
  (length (w_tmp w0) <= i)%nat ->
  preserves (within pc0 w0) (fun _ => True)
    (onW (WriteArchive E tc (file_Writer E (TmpRef i)) fsys)).
Proof.
  intros Hi.
  apply (within_onW_tmp pc0 w0 i); [intros w; apply WriteArchive_file_tmp_only|exact Hi].
Qed.

Lemma within_Seek (E : Env) (pc0 : PackageContext) (w0 : World) (i : nat) :
  (length (w_tmp w0) <= i)%nat ->
  preserves (within pc0 w0) (fun _ => True) (onW (File_Seek_start E (TmpRef i))).
Proof.
  intros Hi. apply (within_onW_tmp pc0 w0 i); [intros w; apply Seek_tmp_only|exact Hi].
Qed.

Lemma EmitPackage_within (E : Env) (pc0 : PackageContext) (w0 : World) :
  preserves (within pc0 w0) (fun _ => True) (EmitPackage E).
Proof.
  unfold EmitPackage.
  eapply preserves_bind; [apply preserves_wrap_err, within_CreateTemp|].
  intros dataTarGz (i & -> & Hi).
  apply preserves_defer; [intros s; now apply within_close_tmp|].
  eapply preserves_bind; [apply within_get|]. intros pc1 Hpc1.
  eapply preserves_bind; [apply preserves_wrap_err, preserves_NewContext|]. intros tarctx _.
  cbv zeta.
  eapply preserves_bind; [apply preserves_wrap_err, within_onPC; intros; apply sizing_ident|].
  intros _ _.
  eapply preserves_bind;
    [apply preserves_wrap_err, within_onPC; intros; apply GenerateDependencies_ident|].
  intros _ _.
  eapply preserves_bind; [apply preserves_wrap_err, within_hashed, Hi|]. intros dataDigest _.
  eapply preserves_bind; [apply within_onPC; intros; reflexivity|]. intros _ _.
  eapply preserves_bind; [apply preserves_wrap_err, within_Seek, Hi|]. intros _ _.
  eapply preserves_bind; [apply within_get|]. intros pc Hpc.
  eapply preserves_bind; [apply preserves_wrap_err, preserves_NewContext|]. intros multitarctx _.
  eapply preserves_bind;
    [eapply preserves_wrap_err, preserves_true, preserves_of_result|]. intros controlBuf _.
  eapply preserves_bind; [apply preserves_wrap_err, preserves_memfs|]. intros controlFS _.
  eapply preserves_bind; [apply preserves_wrap_err, within_CreateTemp|].
  intros controlTarGz (j & -> & Hj).
  apply preserves_defer; [intros s; now apply within_close_tmp|].
  eapply preserves_bind; [apply preserves_wrap_err, within_hashed, Hj|]. intros controlDigest _.
  eapply preserves_bind; [apply preserves_wrap_err, within_Seek, Hj|]. intros _ _.
  apply preserves_if.
  - apply within_assemble. repeat constructor; eauto.
  - eapply preserves_bind;
      [eapply preserves_wrap_err, preserves_true, preserves_of_result|]. intros signatureBuf _.
    eapply preserves_bind; [apply preserves_wrap_err, preserves_memfs|]. intros signatureFS _.
    eapply preserves_bind; [apply preserves_wrap_err, within_CreateTemp|].
    intros signatureTarGz (k & -> & Hk).
   
    apply preserves_defer; [intros s; now apply within_close_tmp|].
    eapply preserves_bind; [apply preserves_wrap_err, within_plain, Hk|]. intros _ _.
    eapply preserves_bind; [apply preserves_wrap_err, within_Seek, Hk|]. intros _ _.
    apply within_assemble. repeat constructor; eauto.
Qed.

(** X13. Whatever happens, one emission stays within its own files: the
    temporary files that existed before are as they were, no final path other
    than the package's own file name is created or changed, no directory is
    made other than the output directory and its parents (each a part of the
    output directory up to a slash), and the context still names the same
    package: same name, output directory, version and epoch. *)
Theorem X13_emission_stays_within_its_files (E : Env) (s : St) :
  let s' := snd (EmitPackage E s) in
  take (length (w_tmp (st_w s))) (w_tmp (st_w s')) = w_tmp (st_w s) /\
  (forall q, q <> Filename (st_pc s) -> w_out (st_w s') !! q = w_out (st_w s) !! q) /\
  (forall d, d ∈ w_dirs (st_w s') ->
     d ∈ w_dirs (st_w s) \/ d = pc_OutDir (st_pc s) \/
     exists rest, pc_OutDir (st_pc s) = d +:+ "/" +:+ rest) /\
  ident (st_pc s') = ident (st_pc s).
Proof.
  assert (within (st_pc s) (st_w s) s) as H0.
  { split; [reflexivity|]. split; [apply firstn_all|]. split; [reflexivity|].
    apply union_subseteq_r. }
  pose proof (EmitPackage_within E (st_pc s) (st_w s) s H0) as H.
  cbv zeta.
  assert (within (st_pc s) (st_w s) (snd (EmitPackage E s))) as (H1 & H2 & H3 & H4)
    by (destruct (EmitPackage E s) as [[[]|e] s']; [apply H | exact H]).
  split; [exact H2|]. split; [exact H3|]. split; [|exact H1].
  intros d Hd. apply H4 in Hd. apply elem_of_union in Hd as [Hd|Hd]; [right|now left].
  apply elem_of_list_to_set in Hd. now apply MkdirAll_chain_prefix.
Qed.

(** ** A failed signature leaves no package *)

(** [bind] when the continuation never succeeds. *)
Lemma aborts_bind {A B} (Inv : St -> Prop) (Fact : A -> Prop)
    (m : M St A) (k : A -> M St B) :
  preserves Inv Fact m ->
  (forall a, Fact a -> judge Inv (fun _ _ => False) (fun _ s => Inv s) (k a)) ->
  judge Inv (fun _ _ => False) (fun _ s => Inv s) (bind m k).
Proof.
  intros Hm Hk s Hs. unfold bind. specialize (Hm s Hs).
  destruct (m s) as [[a|e] s1]; [|exact Hm].
  destruct Hm as [Hs1 Ha]. exact (Hk a Ha s1 Hs1).
Qed.

Lemma aborts_defer {A} (Inv : St -> Prop) (c : St -> St) (body : M St A) :
  (forall s, Inv s -> Inv (c s)) ->
  judge Inv (fun _ _ => False) (fun _ s => Inv s) body ->
  judge Inv (fun _ _ => False) (fun _ s => Inv s) (defer c body).
Proof.
  intros Hc Hm s Hs. unfold defer. specialize (Hm s Hs).
  destruct (body s) as [[a|e] s1]; auto.
Qed.

Lemma aborts_wrap_err {A} (Inv : St -> Prop) (msg : string) (m : M St A) :
  judge Inv (fun _ _ => False) (fun _ s => Inv s) m ->
  judge Inv (fun _ _ => False) (fun _ s => Inv s) (wrap_err msg m).
Proof.
  intros Hm s Hs. unfold wrap_err. specialize (Hm s Hs).
  destruct (m s) as [[a|e] s1]; exact Hm.
Qed.

Lemma aborts_of_result {A} (Inv : St -> Prop) (r : result A) (e : error) :
  r = Err e -> judge Inv (fun _ _ => False) (fun _ s => Inv s) (@of_result St A r).
Proof. intros -> s Hs. exact Hs. Qed.

Section Sealed.
Variables (E : Env) (c0 : Context) (w0 : World).

Lemma sealed_onPC {A} (m : M PackageContext A) :
  (forall pc, pc_Context (snd (m pc)) = pc_Context pc) ->
  preserves (sealed c0 w0) (fun _ => True) (onPC m).
Proof.
  intros Hm s (H1 & H2 & H3). unfold onPC, zoom. specialize (Hm (st_pc s)).
  assert (sealed c0 w0 {| st_pc := snd (m (st_pc s)); st_w := st_w s |}) as HW.
  { split; [simpl; congruence|]. split; assumption. }
  destruct (m (st_pc s)) as [[a|e] pc']; simpl in *; [split; [exact HW|exact I]|exact HW].
Qed.

Lemma sealed_get : preserves (sealed c0 w0) (fun pc => pc_Context pc = c0) (onPC get).
Proof. intros s Hs. unfold onPC, zoom, get. simpl. destruct s. split; [exact Hs|apply Hs]. Qed.

Lemma sealed_tmp_step (i : nat) (s : St) (w' : World) :
  sealed c0 w0 s -> tmp_only i (st_w s) w' -> sealed c0 w0 {| st_pc := st_pc s; st_w := w' |}.
Proof.
  intros (H1 & H2 & H3) (T1 & T2 & _). split; [exact H1|]. split; simpl; congruence.
Qed.

Lemma sealed_onW_tmp {A} (i : nat) (m : M World A) :
  (forall w, tmp_only i w (snd (m w))) -> preserves (sealed c0 w0) (fun _ => True) (onW m).
Proof.
  intros Hm s Hs. unfold onW, zoom. specialize (Hm (st_w s)).
  destruct (m (st_w s)) as [[a|e] w']; simpl in *;
    [split; [|exact I]|]; now apply (sealed_tmp_step i).
Qed.

Lemma sealed_close_tmp (i : nat) (s : St) : sealed c0 w0 s -> sealed c0 w0 (close (TmpRef i) s).
Proof. intros Hs. unfold close. apply (sealed_tmp_step i); [exact Hs|apply Close_tmp_only]. Qed.

Lemma sealed_CreateTemp (pattern : string) :
  preserves (sealed c0 w0) (fun h => exists i, h = TmpRef i) (onW (os_CreateTemp E pattern)).
Proof.
  intros s Hs. unfold onW, zoom, os_CreateTemp.
  destruct (os_fault E _); simpl; [now destruct s|]. split; [exact Hs|eauto].
Qed.

Hypothesis key_set : ctx_SigningKey c0 <> EmptyString.
Hypothesis signer_fails :
  forall digest, exists e,
    RSASignSHA1Digest E digest (ctx_SigningKey c0) (ctx_SigningPassphrase c0) = Err e.

Lemma EmitPackage_signing_aborts :
  judge (sealed c0 w0) (fun _ _ => False) (fun _ s => sealed c0 w0 s) (EmitPackage E).
Proof.
  unfold EmitPackage.
  eapply aborts_bind; [apply preserves_wrap_err, sealed_CreateTemp|].
  intros dataTarGz (i & ->).
  apply aborts_defer; [apply sealed_close_tmp|].
  eapply aborts_bind; [apply sealed_get|]. intros pc1 Hpc1.
  eapply aborts_bind; [apply preserves_wrap_err, preserves_NewContext|]. intros tarctx _.
  cbv zeta.
  eapply aborts_bind; [apply preserves_wrap_err, sealed_onPC; intros; apply sizing_Context|].
  intros _ _.
  eapply aborts_bind;
    [apply preserves_wrap_err, sealed_onPC; intros; apply GenerateDependencies_Context|].
  intros _ _.
  eapply aborts_bind;
    [apply preserves_wrap_err, (sealed_onW_tmp i); intros; apply WriteArchive_hashed_tmp_only|].
  intros dataDigest _.
  eapply aborts_bind; [apply sealed_onPC; intros; reflexivity|]. intros _ _.
  eapply aborts_bind;
    [apply preserves_wrap_err, (sealed_onW_tmp i); intros; apply Seek_tmp_only|].
  intros _ _.
  eapply aborts_bind; [apply sealed_get|]. intros pc Hpc.
  eapply aborts_bind; [apply preserves_wrap_err, preserves_NewContext|]. intros multitarctx _.
  eapply aborts_bind;
    [eapply preserves_wrap_err, preserves_true, preserves_of_result|]. intros controlBuf _.
  eapply aborts_bind; [apply preserves_wrap_err, preserves_memfs|]. intros controlFS _.
  eapply aborts_bind; [apply preserves_wrap_err, sealed_CreateTemp|].
  intros controlTarGz (j & ->).
  apply aborts_defer; [apply sealed_close_tmp|].
  eapply aborts_bind;
    [apply preserves_wrap_err, (sealed_onW_tmp j); intros; apply WriteArchive_hashed_tmp_only|].
  intros controlDigest _.
  eapply aborts_bind;
    [apply preserves_wrap_err, (sealed_onW_tmp j); intros; apply Seek_tmp_only|].
  intros _ _.
  rewrite Hpc.
  destruct (String.eqb_spec (ctx_SigningKey c0) EmptyString) as [Heq|_]; [now apply key_set in Heq|].
  destruct (signer_fails (sha1_Sum E controlDigest)) as [e He].
  intros s Hs. unfold bind, wrap_err. rewrite He. simpl. exact Hs.
Qed.

End Sealed.

(** X12. With a signing key configured and a signer that fails, [EmitPackage]
    fails, and it has then created or changed no final file and made no
    directory: a package that cannot be signed is not written unsigned. *)
Theorem X12_failed_signature_leaves_no_package (E : Env) (s : St) :
  ctx_SigningKey (pc_Context (st_pc s)) <> EmptyString ->
  (forall digest, exists e,
     RSASignSHA1Digest E digest (ctx_SigningKey (pc_Context (st_pc s)))
       (ctx_SigningPassphrase (pc_Context (st_pc s))) = Err e) ->
  (exists e, fst (EmitPackage E s) = Err e) /\
  w_out (st_w (snd (EmitPackage E s))) = w_out (st_w s) /\
  w_dirs (st_w (snd (EmitPackage E s))) = w_dirs (st_w s).
Proof.
  intros Hkey Hsign.
  assert (sealed (pc_Context (st_pc s)) (st_w s) s) as H0 by (repeat split).
  pose proof (EmitPackage_signing_aborts E _ (st_w s) Hkey Hsign s H0) as H.
  destruct (EmitPackage E s) as [[[]|e] s']; [contradiction|].
  destruct H as (_ & H2 & H3). simpl. eauto.
Qed.

Lemma X12_witness :
  (exists e, fst (EmitPackage (Demo.env false None)
                    (Demo.start (Demo.env false None) "amd64" "keys/melange.rsa")) = Err e) /\
  w_out (st_w (snd (EmitPackage (Demo.env false None)
                      (Demo.start (Demo.env false None) "amd64" "keys/melange.rsa")))) = ∅ /\
  w_dirs (st_w (snd (EmitPackage (Demo.env false None)
                       (Demo.start (Demo.env false None) "amd64" "keys/melange.rsa")))) = ∅.
Proof.
  apply (X12_failed_signature_leaves_no_package (Demo.env false None)
           (Demo.start (Demo.env false None) "amd64" "keys/melange.rsa")).
  - discriminate.
  - intros digest. eexists. reflexivity.
Defined.

(** ** The walk decides the emission *)

Lemma walk_sizing_outcome (visits : list Visit) :
  forall pc, fst (walk sizing_visit visits pc) =
               match first_walk_error visits with Some e => Err e | None => Ok tt end.
Proof.
  induction visits as [|v rest IH]; intros pc; [reflexivity|].
  simpl. unfold bind, sizing_visit, fail, modify.
  destruct (v_err v) as [e|]; [reflexivity|].
  destruct (v_info v) as [fi|e]; [apply IH | reflexivity].
Qed.

Lemma sizing_outcome (E : Env) (pc : PackageContext) :
  fst (sizing E pc) =
    match first_walk_error (WalkDir E (WorkspaceSubdir E pc)) with
    | Some e => Err e
    | None => Ok tt
    end.
Proof. apply walk_sizing_outcome. Qed.

Lemma bind_step {S A B} (m : M S A) (k : A -> M S B) (s s1 : S) (a : A) :
  m s = (Ok a, s1) -> bind m k s = k a s1.
Proof. intros H. unfold bind. now rewrite H. Qed.

Lemma bind_stop {S A B} (m : M S A) (k : A -> M S B) (s s1 : S) (e : error) :
  m s = (Err e, s1) -> bind m k s = (Err e, s1).
Proof. intros H. unfold bind. now rewrite H. Qed.

Lemma defer_run {S A} (c : S -> S) (body : M S A) (s s1 : S) (r : result A) :
  body s = (r, s1) -> defer c body s = (r, c s1).
Proof. intros H. unfold defer. now rewrite H. Qed.

Lemma onPC_stop {A} (msg : string) (m : M PackageContext A) (s : St) (e : error) :
  fst (m (st_pc s)) = Err e ->
  wrap_err msg (onPC m) s = (Err (wrap msg e), {| st_pc := snd (m (st_pc s)); st_w := st_w s |}).
Proof.
  intros H. unfold wrap_err, onPC, zoom. destruct (m (st_pc s)) as [r pc']. simpl in *.
  now subst r.
Qed.

(** X14. When the walk over the built tree reports an error, and the data
    temporary file and the archive context could be made, [EmitPackage] fails
    in its sizing stage with that error under "unable to preprocess package
    data"; all it leaves is the data temporary file, empty and closed, and the
    size counted up to the error. *)
Theorem X14_walk_error_stops_at_sizing (E : Env) (s : St) (e : error) :
  first_walk_error (WalkDir E (WorkspaceSubdir E (st_pc s))) = Some e ->
  os_fault E (SysCreateTemp "melange-data-*.tar.gz") = None ->
  tarball_option_err E (data_options (st_pc s)) = None ->
  EmitPackage E s =
    (Err (wrap "unable to preprocess package data" e),
     {| st_pc := snd (sizing E (st_pc s));
        st_w := {| w_tmp := w_tmp (st_w s) ++ [closed (fresh_file "melange-data-*.tar.gz")];
                   w_out := w_out (st_w s); w_dirs := w_dirs (st_w s) |} |}).
Proof.
  intros Hwalk Htmp Hctx. destruct s as [pc [T O D]]. cbn [st_pc st_w w_tmp w_out w_dirs] in *.
  unfold EmitPackage.
  erewrite bind_step;
    [|unfold wrap_err, onW, zoom, os_CreateTemp; rewrite Htmp; reflexivity].
  erewrite defer_run.
  2:{ erewrite bind_step; [|reflexivity]. cbn [st_pc].
      erewrite bind_step; [|unfold wrap_err, tarball_NewContext; rewrite Hctx; reflexivity].
      cbv zeta. apply bind_stop.
      apply onPC_stop. cbn [st_pc]. rewrite sizing_outcome, Hwalk. reflexivity. }
  unfold close, File_Close. cbn [st_pc st_w get_file w_tmp].
  rewrite lookup_app_r by lia. rewrite Nat.sub_diag. cbn [lookup list_lookup put_file w_tmp w_out w_dirs].
  f_equal. f_equal. f_equal.
  rewrite insert_app_r_alt by lia. rewrite Nat.sub_diag. reflexivity.
Qed.

Lemma X14_witness :
  let E := with_WalkDir Demo.broken_tree (Demo.env true None) in
  EmitPackage E (Demo.start E "amd64" EmptyString) =
    (Err "unable to preprocess package data: permission denied",
     {| st_pc := snd (sizing E (Demo.pc E "amd64" EmptyString));
        st_w := {| w_tmp := [closed (fresh_file "melange-data-*.tar.gz")];
                   w_out := ∅; w_dirs := ∅ |} |}).
Proof.
  intros E.
  apply (X14_walk_error_stops_at_sizing E (Demo.start E "amd64" EmptyString)
           "permission denied"); reflexivity.
Defined.

(** ** The context a successful emission leaves *)

(** The dependency generators do not read the size counter. *)
Lemma GenerateDependencies_sized (E : Env) (n : Z) (pc : PackageContext) :
  GenerateDependencies E (set_InstalledSize n pc) =
    (fst (GenerateDependencies E pc), set_InstalledSize n (snd (GenerateDependencies E pc))).
Proof.
  rewrite !GenerateDependencies_unfold.
  change (run_generators [generateSharedObjectNameDeps E; generateCmdProviders E]
            (set_InstalledSize n pc) {| Runtime := []; Provides := [] |})
    with (run_generators [generateSharedObjectNameDeps E; generateCmdProviders E]
            pc {| Runtime := []; Provides := [] |}).
  destruct (run_generators _ pc _) as [[[]|e] g]; reflexivity.
Qed.

(** An emission over a tree whose walk reports an error does not succeed. *)
Lemma EmitPackage_needs_walk (E : Env) (s : St) :
  fst (EmitPackage E s) = Ok tt ->
  first_walk_error (WalkDir E (WorkspaceSubdir E (st_pc s))) = None.
Proof.
  intros Hok. destruct (first_walk_error _) as [e|] eqn:Hwalk; [exfalso|reflexivity].
  revert Hok. unfold EmitPackage.
  destruct (os_fault E (SysCreateTemp "melange-data-*.tar.gz")) as [e1|] eqn:Htmp.
  { erewrite bind_stop;
      [|unfold wrap_err, onW, zoom, os_CreateTemp; rewrite Htmp; reflexivity].
    discriminate. }
  erewrite bind_step;
    [|unfold wrap_err, onW, zoom, os_CreateTemp; rewrite Htmp; reflexivity].
  destruct (tarball_option_err E (data_options (st_pc s))) as [e2|] eqn:Hctx.
  - erewrite defer_run.
    2:{ erewrite bind_step; [|reflexivity]. cbn [st_pc].
        apply bind_stop. unfold wrap_err, tarball_NewContext. rewrite Hctx. reflexivity. }
    discriminate.
  - erewrite defer_run.
    2:{ erewrite bind_step; [|reflexivity]. cbn [st_pc].
        erewrite bind_step; [|unfold wrap_err, tarball_NewContext; rewrite Hctx; reflexivity].
        cbv zeta. apply bind_stop.
        apply onPC_stop. cbn [st_pc]. rewrite sizing_outcome, Hwalk. reflexivity. }
    discriminate.
Qed.

Lemma EmitPackage_context (E : Env) (s : St) :
  - 2 ^ 63 <= pc_InstalledSize (st_pc s) < 2 ^ 63 ->
  fst (EmitPackage E s) = Ok tt ->
  fst (GenerateDependencies E (st_pc s)) = Ok tt /\
  st_pc (snd (EmitPackage E s)) =
    set_DataHash (hex.EncodeToString (sha256_Sum E (data_segment E (st_pc s))))
      (set_InstalledSize
         (wrap64 (pc_InstalledSize (st_pc s)
                  + all_sizes (WalkDir E (WorkspaceSubdir E (st_pc s)))))
         (snd (GenerateDependencies E (st_pc s)))).
Proof.
  intros Hrange Hok. pose proof (EmitPackage_needs_walk E s Hok) as Hwalk.
  split; [now rewrite GenerateDependencies_outcome, Hwalk|].
  apply EmitPackage_run, EmitPackage_ok in Hok.
  assert (st_pc (snd (EmitPackage E s)) = emitted_context E (st_pc s)) as ->
    by (destruct Hok as [[_ ->] | [_ (sig & _ & ->)]]; reflexivity).
  unfold emitted_context. f_equal.
  assert (fst (sizing E (st_pc s)) = Ok tt) as Hs by now rewrite sizing_outcome, Hwalk.
  unfold sizing in *.
  destruct (walk_sizing _ _ Hs) as [-> | [Hnil ->]].
  - rewrite wrap64_add_l. now rewrite GenerateDependencies_sized.
  - rewrite Hnil. simpl all_sizes. rewrite Z.add_0_r, wrap64_small by assumption.
    rewrite GenerateDependencies_unfold.
    destruct (run_generators _ _ _) as [[[]|e] g]; simpl; [reflexivity|now destruct (st_pc s)].
Qed.

(** X15. When [EmitPackage] succeeds, the walk over the built tree reported no
    error, and the context it leaves is the one [GenerateDependencies] gives
    for the starting context, with the size counter (an [int64]) advanced by
    the sizes of all the entries of the tree and the data hash set to the
    digest of the data segment: sizing and dependency generation do not
    interfere. *)
Theorem X15_emitted_context (E : Env) (s : St) :
  - 2 ^ 63 <= pc_InstalledSize (st_pc s) < 2 ^ 63 ->
  fst (EmitPackage E s) = Ok tt ->
  let visits := WalkDir E (WorkspaceSubdir E (st_pc s)) in
  first_walk_error visits = None /\
  fst (GenerateDependencies E (st_pc s)) = Ok tt /\
  st_pc (snd (EmitPackage E s)) =
    set_DataHash (hex.EncodeToString (sha256_Sum E (data_segment E (st_pc s))))
      (set_InstalledSize (wrap64 (pc_InstalledSize (st_pc s) + all_sizes visits))
         (snd (GenerateDependencies E (st_pc s)))).
Proof.
  intros Hrange Hok visits. split; [now apply EmitPackage_needs_walk|].
  now apply EmitPackage_context.
Qed.

Lemma X15_witness :
  let E := Demo.env true None in
  let s := Demo.start E "amd64" EmptyString in
  pc_InstalledSize (st_pc (snd (EmitPackage E s))) = 16561 /\
  pc_Dependencies (st_pc (snd (EmitPackage E s))) =
    pc_Dependencies (snd (GenerateDependencies E (st_pc s))).
Proof.
  intros E s.
  destruct (X15_emitted_context E s) as (_ & _ & H);
    [simpl; lia | vm_compute; reflexivity |].
  rewrite H. split; reflexivity.
Defined.

(** ** [Emit] *)

(** X16. When [Package.Emit] succeeds, the package file is at
    <OutDir>/<APK architecture>/<name>-<version>-r<epoch>.apk, with the name
    of the package emitted and the version and epoch of the package of the
    build context; the file is closed, its directory has been made, no other
    final path has changed, and the installed size is the sum, from zero, of
    the sizes of the entries under <WorkspaceDir>/melange-out/<name>. *)
Theorem X16_package_emit (E : Env) (pkg : Package) (ctx : PipelineContext) (w : World) :
  fst (Package_Emit E pkg ctx w) = Ok tt ->
  let c := pl_Context ctx in
  let dir := filepath_Join E [ctx_OutDir c; ToAPK E (ctx_Arch c)] in
  let path := dir +:+ "/" +:+ pkg_Name pkg +:+ "-" +:+ pkg_Version (ctx_Package c)
                +:+ "-r" +:+ fmt_d (Z.of_N (pkg_Epoch (ctx_Package c))) +:+ ".apk" in
  let s' := snd (Package_Emit E pkg ctx w) in
  (exists f, w_out (st_w s') !! path = Some f /\ f_open f = false) /\
  dir ∈ w_dirs (st_w s') /\
  (forall q, q <> path -> w_out (st_w s') !! q = w_out w !! q) /\
  pc_InstalledSize (st_pc s') =
    wrap64 (all_sizes (WalkDir E (filepath_Join E [ctx_WorkspaceDir c; "melange-out";
                                                    pkg_Name pkg]))).
Proof.
  unfold Package_Emit, Subpackage_Emit. cbv zeta.
  set (pc0 := Subpackage_context E _ ctx). intros Hok.
  assert (Hpath : Filename pc0 =
            filepath_Join E [ctx_OutDir (pl_Context ctx); ToAPK E (ctx_Arch (pl_Context ctx))]
              +:+ "/" +:+ pkg_Name pkg +:+ "-" +:+ pkg_Version (ctx_Package (pl_Context ctx))
              +:+ "-r" +:+ fmt_d (Z.of_N (pkg_Epoch (ctx_Package (pl_Context ctx))))
              +:+ ".apk").
  { unfold Filename, Identity. simpl. now rewrite <- !append_assoc. }
  rewrite <- Hpath.
  destruct (EmitPackage_context E {| st_pc := pc0; st_w := w |}) as [_ Hpc];
    [simpl; lia | exact Hok |].
  split; [|split; [|split]]; [| | |rewrite Hpc; reflexivity].
  all: apply EmitPackage_run, EmitPackage_ok in Hok; cbn [st_pc st_w] in Hok;
    rewrite Filename_emitted in Hok;
    destruct (emitted_context_frame E pc0) as (_ & _ & _ & Hdir); rewrite Hdir in Hok.
  - destruct Hok as [[_ ->] | [_ (sig & _ & ->)]]; simpl; eexists;
      rewrite lookup_insert_eq; split; reflexivity.
  - destruct Hok as [[_ ->] | [_ (sig & _ & ->)]]; simpl;
      apply elem_of_union_l, elem_of_list_to_set, MkdirAll_chain_path.
  - intros q Hq.
    destruct Hok as [[_ ->] | [_ (sig & _ & ->)]]; simpl; now apply lookup_insert_ne.
Qed.

Lemma X16_witness :
  let E := Demo.env true None in
  let s' := snd (Package_Emit E Demo.package (Demo.context "arm64" EmptyString) Demo.world) in
  (exists f, w_out (st_w s') !! "/out/aarch64/frob-1.0-r3.apk" = Some f /\ f_open f = false) /\
  pc_InstalledSize (st_pc s') = 16561.
Proof.
  intros E s'.
  destruct (X16_package_emit E Demo.package (Demo.context "arm64" EmptyString) Demo.world)
    as (H1 & _ & _ & H2); [vm_compute; reflexivity|].
  split; [exact H1 | exact H2].
Defined.

(** ** Without a key the signer is not called *)

Lemma agree_bind {A B} (Inv : St -> Prop) (Fact : A -> Prop) (m : M St A)
    (k k' : A -> M St B) :
  preserves Inv Fact m ->
  (forall a, Fact a -> forall s, Inv s -> k a s = k' a s) ->
  forall s, Inv s -> bind m k s = bind m k' s.
Proof.
  intros Hm Hk s Hs. unfold bind. specialize (Hm s Hs).
  destruct (m s) as [[a|e] s1]; [|reflexivity].
  destruct Hm as [Hs1 Ha]. now apply Hk.
Qed.

Lemma agree_defer {A} (Inv : St -> Prop) (c : St -> St) (body body' : M St A) :
  (forall s, Inv s -> body s = body' s) ->
  forall s, Inv s -> defer c body s = defer c body' s.
Proof. intros H s Hs. unfold defer. now rewrite (H s Hs). Qed.

Lemma EmitPackage_signer (E : Env) (sign : bytes -> string -> string -> result bytes)
    (c0 : Context) (w0 : World) :
  ctx_SigningKey c0 = EmptyString ->
  forall s, sealed c0 w0 s -> EmitPackage E s = EmitPackage (with_signer sign E) s.
Proof.
  intros Hkey. unfold EmitPackage.
  eapply agree_bind; [apply preserves_wrap_err, sealed_CreateTemp|].
  intros dataTarGz (i & ->).
  apply agree_defer.
  eapply agree_bind; [apply sealed_get|]. intros pc1 Hpc1.
  eapply agree_bind; [apply preserves_wrap_err, preserves_NewContext|]. intros tarctx _.
  cbv zeta.
  eapply agree_bind; [apply preserves_wrap_err, sealed_onPC; intros; apply sizing_Context|].
  intros _ _.
  eapply agree_bind;
    [apply preserves_wrap_err, sealed_onPC; intros; apply GenerateDependencies_Context|].
  intros _ _.
  eapply agree_bind;
    [apply preserves_wrap_err, (sealed_onW_tmp _ _ i); intros; apply WriteArchive_hashed_tmp_only|].
  intros dataDigest _.
  eapply agree_bind; [apply sealed_onPC; intros; reflexivity|]. intros _ _.
  eapply agree_bind;
    [apply preserves_wrap_err, (sealed_onW_tmp _ _ i); intros; apply Seek_tmp_only|].
  intros _ _.
  eapply agree_bind; [apply sealed_get|]. intros pc Hpc.
  eapply agree_bind; [apply preserves_wrap_err, preserves_NewContext|]. intros multitarctx _.
  eapply agree_bind;
    [eapply preserves_wrap_err, preserves_true, preserves_of_result|]. intros controlBuf _.
  eapply agree_bind; [apply preserves_wrap_err, preserves_memfs|]. intros controlFS _.
  eapply agree_bind; [apply preserves_wrap_err, sealed_CreateTemp|].
  intros controlTarGz (j & ->).
  apply agree_defer.
  eapply agree_bind;
    [apply preserves_wrap_err, (sealed_onW_tmp _ _ j); intros; apply WriteArchive_hashed_tmp_only|].
  intros controlDigest _.
  eapply agree_bind;
    [apply preserves_wrap_err, (sealed_onW_tmp _ _ j); intros; apply Seek_tmp_only|].
  intros _ _.
  rewrite Hpc, Hkey. reflexivity.
Qed.

(** X17. With no signing key configured, [EmitPackage] does not depend on the
    signer: with any other signer in its place the result and the final state
    are the same. *)
Theorem X17_unsigned_emission_ignores_signer (E : Env)
    (sign : bytes -> string -> string -> result bytes) (s : St) :
  ctx_SigningKey (pc_Context (st_pc s)) = EmptyString ->
  EmitPackage (with_signer sign E) s = EmitPackage E s.
Proof.
  intros Hkey. symmetry.
  apply (EmitPackage_signer E sign (pc_Context (st_pc s)) (st_w s) Hkey).
  repeat split.
Qed.

Lemma X17_witness :
  let E := Demo.env true None in
  EmitPackage (with_signer (fun _ _ _ => Err "unable to parse key") E)
    (Demo.start E "amd64" EmptyString)
  = EmitPackage E (Demo.start E "amd64" EmptyString).
Proof.
  intros E.
  apply (X17_unsigned_emission_ignores_signer E (fun _ _ _ => Err "unable to parse key")
           (Demo.start E "amd64" EmptyString)).
  reflexivity.
Defined.

(** ** [combine] *)

Lemma io_Copy_source (E : Env) (dst : FileRef) (i : nat) (w w' : World) :
  io_Copy E dst (TmpRef i) w = (Ok tt, w') -> exists fs, w_tmp w !! i = Some fs.
Proof.
  unfold io_Copy. simpl. destruct (w_tmp w !! i) as [fs|]; [eauto|discriminate].
Qed.

Lemma unread_at_end (w : World) (i : nat) (fs : File) :
  w_tmp w !! i = Some fs -> unread (put_file (TmpRef i) (at_end fs) w) i = [].
Proof.
  intros H. unfold unread, put_file. simpl.
  rewrite list_lookup_insert_eq by now apply lookup_lt_Some in H.
  simpl. apply drop_ge. lia.
Qed.

Lemma combine_ok (E : Env) (p : string) (parts : list nat) :
  forall (w w' : World) (fo : File),
    NoDup parts ->
    w_out w !! p = Some fo -> f_open fo = true -> f_pos fo = length (f_data fo) ->
    combine E (OutRef p) (TmpRef <$> parts) w = (Ok tt, w') ->
    w_out w' = <[p := appended fo (concat (unread w <$> parts))]> (w_out w) /\
    w_dirs w' = w_dirs w /\
    (forall i, i ∈ parts -> unread w' i = []) /\
    (forall i, i ∉ parts -> w_tmp w' !! i = w_tmp w !! i).
Proof.
  induction parts as [|i rest IH]; intros w w' fo Hnd Hout Hopen Hend; simpl.
  - intros [= <-]. rewrite appended_nil by assumption. rewrite insert_id by assumption.
    split; [reflexivity|]. split; [reflexivity|].
    split; [intros i Hi; now apply not_elem_of_nil in Hi|reflexivity].
  - apply NoDup_cons in Hnd as [Hi Hnd]. unfold bind.
    destruct (io_Copy E (OutRef p) (TmpRef i) w) as [[[]|e] w1] eqn:Hcopy; [|discriminate].
    destruct (io_Copy_source _ _ _ _ _ Hcopy) as [fs Hfs].
    apply (io_Copy_ok E p i w w1 fs fo) in Hcopy; try assumption.
    intros Hrest.
    apply (IH w1 w' (appended fo (drop (f_pos fs) (f_data fs)))) in Hrest;
      [|assumption|subst w1; simpl; apply lookup_insert_eq|assumption|reflexivity].
    destruct Hrest as (H1 & H2 & H3 & H4).
    assert (Hother : forall j, j <> i -> w_tmp w1 !! j = w_tmp w !! j).
    { intros j Hj. subst w1. simpl. apply list_lookup_insert_ne. congruence. }
    assert (Hsame : unread w1 <$> rest = unread w <$> rest).
    { apply list_fmap_ext. intros k j Hk. unfold unread. rewrite Hother; [reflexivity|].
      intros ->. apply Hi. eapply list_elem_of_lookup_2. exact Hk. }
    split; [|split; [|split]].
    + rewrite H1, Hsame, appended_appended. subst w1. simpl.
      rewrite insert_insert_eq. unfold unread at 2. now rewrite Hfs.
    + rewrite H2. now subst w1.
    + intros j Hj. apply elem_of_cons in Hj as [->|Hj]; [|now apply H3].
      unfold unread. rewrite (H4 i Hi).
      assert (unread w1 i = []) as Hu.
      { subst w1. unfold unread. simpl. fold (unread (put_file (TmpRef i) (at_end fs) w) i).
        now apply unread_at_end. }
      exact Hu.
    + intros j Hj. apply not_elem_of_cons in Hj as [Hji Hj].
      rewrite (H4 j Hj). now apply Hother.
Qed.

(** X18. When [combine] succeeds on distinct temporary files, with an output
    file that is open and positioned at its end, the output file then holds
    what it held followed by what each part held from its offset on, in the
    order of the parts; every part has been read to its end, and no other
    temporary file, no other final path and no directory has changed. *)
Theorem X18_combine_appends_parts_in_order (E : Env) (p : string) (parts : list nat)
    (w : World) (fo : File) :
  NoDup parts ->
  w_out w !! p = Some fo -> f_open fo = true -> f_pos fo = length (f_data fo) ->
  fst (combine E (OutRef p) (TmpRef <$> parts) w) = Ok tt ->
  let w' := snd (combine E (OutRef p) (TmpRef <$> parts) w) in
  (exists fo', w_out w' !! p = Some fo' /\
     f_data fo' = f_data fo ++ concat (unread w <$> parts)) /\
  (forall q, q <> p -> w_out w' !! q = w_out w !! q) /\
  w_dirs w' = w_dirs w /\
  (forall i, i ∈ parts -> unread w' i = []) /\
  (forall i, i ∉ parts -> w_tmp w' !! i = w_tmp w !! i).
Proof.
  intros Hnd Hout Hopen Hend Hok w'. subst w'.
  destruct (combine E (OutRef p) (TmpRef <$> parts) w) as [r w'] eqn:Hc.
  simpl in Hok. subst r. simpl.
  destruct (combine_ok E p parts w w' fo Hnd Hout Hopen Hend Hc) as (H1 & H2 & H3 & H4).
  split; [|split; [|split; [|split]]]; try assumption.
  - eexists. rewrite H1, lookup_insert_eq. split; reflexivity.
  - intros q Hq. rewrite H1. now apply lookup_insert_ne.
Qed.

Lemma X18_witness :
  let w' := snd (combine (Demo.env true None) (OutRef "/out/x.apk") [TmpRef 1; TmpRef 0]
                   Demo.parts_world) in
  exists fo', w_out w' !! "/out/x.apk" = Some fo' /\ f_data fo' = [x04; x01; x02].
Proof.
  intros w'.
  destruct (X18_combine_appends_parts_in_order (Demo.env true None) "/out/x.apk"
              [1%nat; 0%nat] Demo.parts_world (fresh_file "/out/x.apk"))
    as [H _]; [|vm_compute; reflexivity|reflexivity|reflexivity|vm_compute; reflexivity|exact H].
  apply (bool_decide_unpack _). vm_compute. reflexivity.
Defined.
